(** * The check-run orchestrator of checkly-cli

    A shallow embedding of
    [packages/cli/src/services/abstract-check-runner.ts] and the
    properties of its lifecycle events, timeouts and completion tracking.

    Conventions of the embedding.
    - Decoded JSON and every value typed [any] in the source is a
      [JSValue].
    - The fields of [AbstractCheckRunner], the variables captured by the
      closures it registers, Node's table of pending timers and the list
      of emitted events make up [State].
    - Synchronous methods are functions [State -> State]; [async] methods
      are written in the monad [Async], whose computations stop at every
      [await] on a collaborator and are resumed with its outcome.
    - The event loop is the step function [step] over [World]: the
      environment chooses which pending timer fires, which broker message
      arrives and how each collaborator call settles.  Time is abstract: a
      pending timer may fire at any step.
    - Listeners registered from outside the class are not part of the
      source; they are taken not to throw.
    - Numbers are integers ([Z]).  A JavaScript number is a double: the
      integers it holds exactly, and renders digit by digit, are those up
      to [Number_MAX_SAFE_INTEGER] in magnitude, and what is said about
      the text of a number is said for these. *)

From Stdlib Require Import ZArith String Ascii List DecimalString.
From Stdlib Require DecimalFacts DecimalPos.
From stdpp Require Import base option list gmap strings fin_maps fin_sets.

Local Open Scope string_scope.
Local Open Scope Z_scope.
Local Open Scope nat_scope.

(** ** JavaScript values *)

#[local] Set Warnings "-register-all".

Inductive JSValue : Type :=
| JUndefined
| JNull
| JBool (b : bool)
| JNum (n : Z)
| JStr (s : string)
| JArr (items : list JSValue)
| JObj (fields : list (string * JSValue)).

(** ToBoolean.  A JSON number is falsy exactly when it is zero, which is
    all the source observes of a number. *)
Definition truthy (v : JSValue) : bool :=
  match v with
  | JUndefined | JNull => false
  | JBool b => b
  | JNum n => negb (n =? 0)%Z
  | JStr s => negb (String.eqb s EmptyString)
  | JArr _ | JObj _ => true
  end.

(** [undefined] and [null]: reading a property of them, or destructuring
    them, throws a TypeError. *)
Definition nullish (v : JSValue) : bool :=
  match v with
  | JUndefined | JNull => true
  | _ => false
  end.

Fixpoint assoc {A : Type} (k : string) (fs : list (string * A)) : option A :=
  match fs with
  | [] => None
  | (k', x) :: fs' => if String.eqb k' k then Some x else assoc k fs'
  end.

Fixpoint assign {A : Type} (k : string) (x : A) (fs : list (string * A))
  : list (string * A) :=
  match fs with
  | [] => [(k, x)]
  | (k', y) :: fs' =>
      if String.eqb k' k then (k, x) :: fs' else (k', y) :: assign k x fs'
  end.

(** [v.k] for a receiver that is not nullish.  The keys read by the source
    ([result], [assets], [region], [logPath], [checkRunDataPath],
    [hasFailures], [data]) are own properties of decoded objects only:
    strings, numbers, booleans and arrays answer [undefined]. *)
Definition prop (v : JSValue) (k : string) : JSValue :=
  match v with
  | JObj fs => default JUndefined (assoc k fs)
  | _ => JUndefined
  end.

(** [v.k = x] on an object. *)
Definition setProp (v : JSValue) (k : string) (x : JSValue) : JSValue :=
  match v with
  | JObj fs => JObj (assign k x fs)
  | _ => v
  end.

Definition TypeError (message : string) : JSValue :=
  JObj [("name", JStr "TypeError"); ("message", JStr message)].

(** An optional string as the value JavaScript sees. *)
Definition ofOptString (o : option string) : JSValue :=
  match o with
  | Some s => JStr s
  | None => JUndefined
  end.

(** [Number.MAX_SAFE_INTEGER], 2^53 - 1. *)
Definition Number_MAX_SAFE_INTEGER : Z := 9007199254740991.

(** Template-literal rendering [`${n}`] of a number, that is
    [Number::toString] in radix 10, for an integral [n] of magnitude at
    most [Number_MAX_SAFE_INTEGER]: the decimal numeral of [n], without
    leading zeros, after a minus sign when [n] is negative.  (Beyond that
    range JavaScript rounds, and from 1e21 on it switches to exponent
    notation.) *)
Definition numberToString (n : Z) : string :=
  NilZero.string_of_int (Z.to_int n).

(** [haystack.includes(needle)] *)
Fixpoint includes (needle haystack : string) : bool :=
  String.prefix needle haystack ||
  match haystack with
  | EmptyString => false
  | String _ rest => includes needle rest
  end.

Fixpoint occurs (c : ascii) (s : string) : bool :=
  match s with
  | EmptyString => false
  | String d rest => Ascii.eqb c d || occurs c rest
  end.

(** [topic.split('/')] *)
Fixpoint split_on (sep : ascii) (s : string) : list string :=
  match s with
  | EmptyString => [EmptyString]
  | String c rest =>
      if Ascii.eqb c sep then EmptyString :: split_on sep rest
      else match split_on sep rest with
           | [] => [String c EmptyString]
           | w :: ws => String c w :: ws
           end
  end.

(** ** Data model *)

(** A [CheckRunId] is a [string]; a [NodeJS.Timeout] handle is a [nat]. *)

(** The values of [this.checks]. *)
Record CheckEntry : Type := mkCheckEntry {
  check : JSValue;
  testResultId : option string }.

(** The elements of the array returned by [scheduleChecks]. *)
Record ScheduledCheck : Type := mkScheduledCheck {
  sc_check : JSValue;
  sc_checkRunId : string;
  sc_testResultId : option string }.

Inductive Event : Type :=
| CHECK_REGISTERED
| CHECK_INPROGRESS (check : JSValue) (checkRunId : string)
| CHECK_FAILED (checkRunId : string) (check : JSValue) (message : JSValue)
| CHECK_SUCCESSFUL (checkRunId : string) (check : JSValue)
    (result : JSValue) (links : JSValue)
| CHECK_FINISHED (check : JSValue)
| RUN_STARTED (checks : list ScheduledCheck) (testSessionId : option string)
| RUN_FINISHED (testSessionId : option string)
| ERROR (err : JSValue)
| MAX_SCHEDULING_DELAY_EXCEEDED.

Definition DEFAULT_CHECK_RUN_TIMEOUT_SECONDS : Z := 300.
Definition DEFAULT_SCHEDULING_DELAY_EXCEEDED_MS : Z := 20000.

(** The callbacks handed to [setTimeout], with the variables they
    capture. *)
Inductive TimerCallback : Type :=
| CheckTimedOut (checkRunId : string) (check : JSValue)
| SchedulingDelayExceeded.

(** A task added to [this.queue]:
    [() => this.processMessage(checkRunId, subtopic, message)]. *)
Record Task : Type := mkTask {
  task_checkRunId : string;
  task_subtopic : string;
  task_message : JSValue }.

(** [new PQueue({ autoStart: false, concurrency: 1 })] *)
Record PQueue : Type := mkPQueue {
  isPaused : bool;
  pending : list Task }.

(** The closure created by [allChecksFinished]: its two local variables,
    whether its listener on [CHECK_FINISHED] was registered, and the
    promise it returned. *)
Record CompletionTracker : Type := mkCompletionTracker {
  finishedCheckCount : nat;
  numChecks : nat;
  listening : bool;
  resolveCalls : nat;
  resolved : bool }.

(** The closure of the [CHECK_INPROGRESS] listener registered by
    [startSchedulingDelayTimeout]. *)
Record SchedulingMonitor : Type := mkSchedulingMonitor {
  scheduledCheckCount : nat;
  monitor_numChecks : nat }.

Record State : Type := mkState {
  (* fields of AbstractCheckRunner *)
  checks : gmap string CheckEntry;
  testSessionId : option string;
  timeouts : gmap string nat;
  schedulingDelayExceededTimeout : option nat;
  accountId : string;
  timeout : Z;
  verbose : bool;
  queue : PQueue;
  (* listeners the class registers on itself *)
  completion : option CompletionTracker;
  monitor : option SchedulingMonitor;
  (* Node: pending timers (callback, delay in ms) and the next handle *)
  timers : gmap nat (TimerCallback * Z);
  nextTimeout : nat;
  (* every event passed to [this.emit], oldest first *)
  emitted : list Event }.

Definition set_checks (v : gmap string CheckEntry) (s : State) : State :=
  mkState v (testSessionId s) (timeouts s) (schedulingDelayExceededTimeout s)
    (accountId s) (timeout s) (verbose s) (queue s) (completion s) (monitor s)
    (timers s) (nextTimeout s) (emitted s).

Definition set_testSessionId (v : option string) (s : State) : State :=
  mkState (checks s) v (timeouts s) (schedulingDelayExceededTimeout s)
    (accountId s) (timeout s) (verbose s) (queue s) (completion s) (monitor s)
    (timers s) (nextTimeout s) (emitted s).

Definition set_timeouts (v : gmap string nat) (s : State) : State :=
  mkState (checks s) (testSessionId s) v (schedulingDelayExceededTimeout s)
    (accountId s) (timeout s) (verbose s) (queue s) (completion s) (monitor s)
    (timers s) (nextTimeout s) (emitted s).

Definition set_schedulingDelayExceededTimeout (v : option nat) (s : State)
  : State :=
  mkState (checks s) (testSessionId s) (timeouts s) v
    (accountId s) (timeout s) (verbose s) (queue s) (completion s) (monitor s)
    (timers s) (nextTimeout s) (emitted s).

Definition set_queue (v : PQueue) (s : State) : State :=
  mkState (checks s) (testSessionId s) (timeouts s)
    (schedulingDelayExceededTimeout s)
    (accountId s) (timeout s) (verbose s) v (completion s) (monitor s)
    (timers s) (nextTimeout s) (emitted s).

Definition set_completion (v : option CompletionTracker) (s : State) : State :=
  mkState (checks s) (testSessionId s) (timeouts s)
    (schedulingDelayExceededTimeout s)
    (accountId s) (timeout s) (verbose s) (queue s) v (monitor s)
    (timers s) (nextTimeout s) (emitted s).

Definition set_monitor (v : option SchedulingMonitor) (s : State) : State :=
  mkState (checks s) (testSessionId s) (timeouts s)
    (schedulingDelayExceededTimeout s)
    (accountId s) (timeout s) (verbose s) (queue s) (completion s) v
    (timers s) (nextTimeout s) (emitted s).

Definition set_timers (v : gmap nat (TimerCallback * Z)) (s : State) : State :=
  mkState (checks s) (testSessionId s) (timeouts s)
    (schedulingDelayExceededTimeout s)
    (accountId s) (timeout s) (verbose s) (queue s) (completion s) (monitor s)
    v (nextTimeout s) (emitted s).

Definition set_nextTimeout (v : nat) (s : State) : State :=
  mkState (checks s) (testSessionId s) (timeouts s)
    (schedulingDelayExceededTimeout s)
    (accountId s) (timeout s) (verbose s) (queue s) (completion s) (monitor s)
    (timers s) v (emitted s).

Definition set_emitted (v : list Event) (s : State) : State :=
  mkState (checks s) (testSessionId s) (timeouts s)
    (schedulingDelayExceededTimeout s)
    (accountId s) (timeout s) (verbose s) (queue s) (completion s) (monitor s)
    (timers s) (nextTimeout s) v.

(** [constructor (accountId, timeout, verbose)] *)
Definition constructor (accountId : string) (timeout : Z) (verbose : bool)
  : State :=
  {| checks := ∅;
     testSessionId := None;
     timeouts := ∅;
     schedulingDelayExceededTimeout := None;
     accountId := accountId;
     timeout := timeout;
     verbose := verbose;
     queue := {| isPaused := true; pending := [] |};
     completion := None;
     monitor := None;
     timers := ∅;
     nextTimeout := 0;
     emitted := [] |}.

(** ** Node timers *)

(** [setTimeout(callback, ms)] returns a fresh handle. *)
Definition setTimeout (callback : TimerCallback) (ms : Z) (s : State)
  : nat * State :=
  (nextTimeout s,
   set_nextTimeout (S (nextTimeout s))
     (set_timers (<[nextTimeout s := (callback, ms)]> (timers s)) s)).

(** [clearTimeout(t)]; [clearTimeout(undefined)] does nothing. *)
Definition clearTimeout (t : option nat) (s : State) : State :=
  match t with
  | Some h => set_timers (delete h (timers s)) s
  | None => s
  end.

(** ** Event emission *)

(** The listener registered by [allChecksFinished]. *)
Definition onCheckFinished (c : CompletionTracker) : CompletionTracker :=
  let count := S (finishedCheckCount c) in
  if count =? numChecks c
  then mkCompletionTracker count (numChecks c) (listening c)
         (S (resolveCalls c)) true
  else mkCompletionTracker count (numChecks c) (listening c)
         (resolveCalls c) (resolved c).

(** The listener registered by [startSchedulingDelayTimeout]. *)
Definition onCheckInProgress (m : SchedulingMonitor) (s : State) : State :=
  let count := S (scheduledCheckCount m) in
  let s := set_monitor (Some (mkSchedulingMonitor count (monitor_numChecks m))) s in
  if count =? monitor_numChecks m
  then clearTimeout (schedulingDelayExceededTimeout s) s
  else s.

(** [this.emit(event, ...)]: the event is observed, then the listeners the
    class registered for it run synchronously. *)
Definition emit (ev : Event) (s : State) : State :=
  let s := set_emitted (emitted s ++ [ev]) s in
  match ev with
  | CHECK_FINISHED _ =>
      match completion s with
      | Some c =>
          if listening c then set_completion (Some (onCheckFinished c)) s else s
      | None => s
      end
  | CHECK_INPROGRESS _ _ =>
      match monitor s with
      | Some m => onCheckInProgress m s
      | None => s
      end
  | _ => s
  end.

(** ** Timeout registry *)

(** [disableTimeout (timeoutKey)] *)
Definition disableTimeout (timeoutKey : string) (s : State) : State :=
  let timeout := timeouts s !! timeoutKey in
  let s := clearTimeout timeout s in
  set_timeouts (delete timeoutKey (timeouts s)) s.

(** [disableAllTimeouts ()].  [this.checks] is always a [Map], so the
    guard [!this.checks] never returns. *)
Definition disableAllTimeouts (s : State) : State :=
  let s := foldl (fun s e => disableTimeout (fst e) s) s
             (map_to_list (checks s)) in
  match schedulingDelayExceededTimeout s with
  | Some h =>
      set_schedulingDelayExceededTimeout None (clearTimeout (Some h) s)
  | None => s
  end.

Definition supportGuidance : string :=
  " Checkly may be experiencing problems. Please check https://is.checkly.online or reach out to support@checklyhq.com.".

(** The message built by the timeout callback. *)
Definition timeoutErrorMessage (timeout : Z) : string :=
  let errorMessage :=
    "Reached timeout of " ++ numberToString timeout
      ++ " seconds waiting for check result." in
  if (timeout =? DEFAULT_CHECK_RUN_TIMEOUT_SECONDS)%Z
  then errorMessage ++ supportGuidance
  else errorMessage.

(** The callback armed by [setAllTimeouts] for one check. *)
Definition checkTimeoutCallback (checkRunId : string) (check : JSValue)
  (s : State) : State :=
  let s := set_timeouts (delete checkRunId (timeouts s)) s in
  let errorMessage := timeoutErrorMessage (timeout s) in
  let s := emit (CHECK_FAILED checkRunId check (JStr errorMessage)) s in
  emit (CHECK_FINISHED check) s.

(** [setAllTimeouts ()]: [setOneTimeout] is the callback of its
    [forEach].  The iteration order of the map only decides which handle
    each check receives. *)
Definition setOneTimeout (s : State) (e : string * CheckEntry) : State :=
  let '(t, s) := setTimeout (CheckTimedOut (fst e) (check (snd e)))
                   (timeout s * 1000)%Z s in
  set_timeouts (<[fst e := t]> (timeouts s)) s.

Definition setAllTimeouts (s : State) : State :=
  foldl setOneTimeout s (map_to_list (checks s)).

(** The callback armed by [startSchedulingDelayTimeout]. *)
Definition schedulingDelayCallback (s : State) : State :=
  set_schedulingDelayExceededTimeout None (emit MAX_SCHEDULING_DELAY_EXCEEDED s).

(** [startSchedulingDelayTimeout ()] *)
Definition startSchedulingDelayTimeout (s : State) : State :=
  let numChecks := size (checks s) in
  if numChecks =? 0 then s
  else
    let '(t, s) := setTimeout SchedulingDelayExceeded
                     DEFAULT_SCHEDULING_DELAY_EXCEEDED_MS s in
    let s := set_schedulingDelayExceededTimeout (Some t) s in
    set_monitor (Some (mkSchedulingMonitor 0 numChecks)) s.

(** [allChecksFinished ()]: the promise it returns is the [resolved] flag
    of the tracker. *)
Definition allChecksFinished (s : State) : State :=
  let numChecks := size (checks s) in
  if numChecks =? 0
  then set_completion (Some (mkCompletionTracker 0 numChecks false 0 true)) s
  else set_completion (Some (mkCompletionTracker 0 numChecks true 0 false)) s.

(** ** Asynchronous methods *)

(** How an awaited promise settles. *)
Inductive Outcome : Type :=
| Resolved (v : JSValue)
| Rejected (e : JSValue).

(** Calls to the collaborators of the class. *)
Inductive ExtCall : Type :=
| SocketClient_connect
| SocketClient_subscribe (topic : string)
| SocketClient_end
| ScheduleChecks (checkRunSuiteId : string)
| Assets_getLogs (region logPath : JSValue)
| Assets_getCheckRunData (region checkRunDataPath : JSValue)
| TestSessions_getResultShortLinks (testSessionId testResultId : string).

(** Where an [async] method stands after running up to its next [await]. *)
Inductive Step (A : Type) : Type :=
| Returned (s : State) (a : A)
| Thrown (s : State) (e : JSValue)
| Awaiting (s : State) (c : ExtCall) (k : Outcome -> State -> Step A).

Arguments Returned {A} s a.
Arguments Thrown {A} s e.
Arguments Awaiting {A} s c k.

Definition Async (A : Type) : Type := State -> Step A.

Fixpoint bindStep {A B : Type} (st : Step A) (f : A -> Async B) : Step B :=
  match st with
  | Returned s a => f a s
  | Thrown s e => Thrown s e
  | Awaiting s c k => Awaiting s c (fun o s' => bindStep (k o s') f)
  end.

Fixpoint catchStep {A : Type} (st : Step A) (h : JSValue -> Async A) : Step A :=
  match st with
  | Returned s a => Returned s a
  | Thrown s e => h e s
  | Awaiting s c k => Awaiting s c (fun o s' => catchStep (k o s') h)
  end.

Module Async.
Definition ret {A : Type} (a : A) : Async A := fun s => Returned s a.
Definition bind {A B : Type} (m : Async A) (f : A -> Async B) : Async B :=
  fun s => bindStep (m s) f.
Definition throw {A : Type} (e : JSValue) : Async A := fun s => Thrown s e.
(** [try { m } catch (e) { h e }] *)
Definition tryCatch {A : Type} (m : Async A) (h : JSValue -> Async A)
  : Async A :=
  fun s => catchStep (m s) h.
(** [await c]: a rejection is thrown where the method resumes. *)
Definition await (c : ExtCall) : Async JSValue :=
  fun s => Awaiting s c (fun o s' =>
    match o with
    | Resolved v => Returned s' v
    | Rejected e => Thrown s' e
    end).
(** Reading [this]. *)
Definition get : Async State := fun s => Returned s s.
(** Running a synchronous method. *)
Definition sync (f : State -> State) : Async unit :=
  fun s => Returned (f s) tt.
End Async.

#[global] Instance Async_ret : MRet Async := @Async.ret.
#[global] Instance Async_bind : MBind Async :=
  fun A B f m => Async.bind m f.

(** [v.k], which throws on [undefined] and [null]; also the destructuring
    [const { k } = v]. *)
Definition getProp (v : JSValue) (k : string) : Async JSValue :=
  if nullish v
  then Async.throw (TypeError ("Cannot read properties of undefined (reading '" ++ k ++ "')"))
  else mret (prop v k).

(** [processCheckResult (result)].  The source assigns [result.logs] and
    [result.checkRunData] in place; here the updated object is returned. *)
Definition processCheckResult (result : JSValue) : Async JSValue :=
  assets ← getProp result "assets";
  region ← getProp assets "region";
  logPath ← getProp assets "logPath";
  checkRunDataPath ← getProp assets "checkRunDataPath";
  this ← Async.get;
  result ← (if truthy logPath
               && (verbose this || truthy (prop result "hasFailures"))
            then logs ← Async.await (Assets_getLogs region logPath);
                 mret (setProp result "logs" logs)
            else mret result);
  this ← Async.get;
  result ← (if truthy checkRunDataPath
               && (verbose this || truthy (prop result "hasFailures"))
            then data ← Async.await
                          (Assets_getCheckRunData region checkRunDataPath);
                 mret (setProp result "checkRunData" data)
            else mret result);
  mret result.

(** [getShortLinks (testResultId)] *)
Definition getShortLinks (testResultId : string) : Async JSValue :=
  Async.tryCatch
    (this ← Async.get;
     if negb (truthy (ofOptString (testSessionId this)))
     then mret JUndefined
     else
       response ← Async.await
                    (TestSessions_getResultShortLinks
                       (default EmptyString (testSessionId this)) testResultId);
       links ← getProp response "data";
       mret links)
    (fun _ => mret JUndefined).

(** [processMessage (checkRunId, subtopic, message)] *)
Definition processMessage (checkRunId subtopic : string) (message : JSValue)
  : Async unit :=
  this ← Async.get;
  if negb (bool_decide (is_Some (timeouts this !! checkRunId)))
  then mret tt
  else
    match checks this !! checkRunId with
    | None => mret tt
    | Some entry =>
        let check := check entry in
        let testResultId := testResultId entry in
        if String.eqb subtopic "run-start" then
          Async.sync (emit (CHECK_INPROGRESS check checkRunId))
        else if String.eqb subtopic "run-end" then
          Async.sync (disableTimeout checkRunId);;
          result ← getProp message "result";
          result ← processCheckResult result;
          links ← (if negb (truthy (ofOptString testResultId))
                   then mret (ofOptString testResultId)
                   else if negb (truthy (prop result "hasFailures"))
                        then mret (prop result "hasFailures")
                        else getShortLinks (default EmptyString testResultId));
          Async.sync (emit (CHECK_SUCCESSFUL checkRunId check result links));;
          Async.sync (emit (CHECK_FINISHED check))
        else if String.eqb subtopic "error" then
          Async.sync (disableTimeout checkRunId);;
          Async.sync (emit (CHECK_FAILED checkRunId check message));;
          Async.sync (emit (CHECK_FINISHED check))
        else mret tt
    end.

(** Running an [async] method to its end against fixed collaborators:
    the calls it made, the final state and how it settled. *)
Fixpoint complete {A : Type} (env : ExtCall -> Outcome) (st : Step A)
  : list ExtCall * State * (JSValue + A) :=
  match st with
  | Returned s a => ([], s, inr a)
  | Thrown s e => ([], s, inl e)
  | Awaiting s c k =>
      let '(cs, s', r) := complete env (k (env c) s) in (c :: cs, s', r)
  end.

(** ** The run and the event loop *)

(** [new Map(checks.map(({ check, checkRunId, testResultId }) =>
    [checkRunId, { check, testResultId }]))]: a later element replaces an
    earlier one with the same [checkRunId]. *)
Definition newChecksMap (checks : list ScheduledCheck)
  : gmap string CheckEntry :=
  foldl (fun m c =>
           <[sc_checkRunId c := mkCheckEntry (sc_check c) (sc_testResultId c)]> m)
    ∅ checks.

(** [this.queue.add(task)] and [this.queue.start()] *)
Definition queue_add (t : Task) (s : State) : State :=
  set_queue (mkPQueue (isPaused (queue s)) (pending (queue s) ++ [t])) s.

Definition queue_start (s : State) : State :=
  set_queue (mkPQueue false (pending (queue s))) s.

(** The ['message'] handler installed by [configureResultListener].  The
    subscription [account/<id>/ad-hoc-check-results/<suite>/+/+] only
    matches topics of six levels; on a shorter topic the task would get an
    [undefined] id or subtopic and [processMessage] would do nothing, so no
    task is recorded for it. *)
Definition onMessage (topic : string) (message : JSValue) (s : State) : State :=
  let topicComponents := split_on "/"%char topic in
  match topicComponents !! 4, topicComponents !! 5 with
  | Some checkRunId, Some subtopic =>
      queue_add (mkTask checkRunId subtopic message) s
  | _, _ => s
  end.

Definition subscriptionTopic (accountId checkRunSuiteId : string) : string :=
  "account/" ++ accountId ++ "/ad-hoc-check-results/" ++ checkRunSuiteId
    ++ "/+/+".

(** The body of [run] between the return of [scheduleChecks] and
    [await allChecksFinished]. *)
Definition run_scheduled (testSessionId : option string)
  (checks : list ScheduledCheck) (s : State) : State :=
  let s := set_testSessionId testSessionId s in
  let s := set_checks (newChecksMap checks) s in
  let s := setAllTimeouts s in
  let s := startSchedulingDelayTimeout s in
  let s := allChecksFinished s in
  let s := emit (RUN_STARTED checks testSessionId) s in
  queue_start s.

(** The [catch] block of [run]. *)
Definition run_catch (err : JSValue) (s : State) : State :=
  emit (ERROR err) (disableAllTimeouts s).

(** Where [run] is suspended. *)
Inductive Phase : Type :=
| Idle
| Connecting
| Subscribing
| Scheduling
| Waiting
| Closing (ok : bool)
| Ended (ok : bool).

Inductive SocketClient : Type := AsyncMqttClient.

Record World : Type := mkWorld {
  this : State;
  phase : Phase;
  (* the local variables of [run] *)
  socketClient : option SocketClient;
  checkRunSuiteId : string;
  (* the task the queue is running, suspended at an [await] *)
  current : option (ExtCall * (Outcome -> State -> Step unit));
  (* collaborator calls made so far, oldest first *)
  calls : list ExtCall;
  (* rejections of the promises returned by [queue.add] *)
  rejections : list JSValue }.

Definition set_this (v : State) (w : World) : World :=
  mkWorld v (phase w) (socketClient w) (checkRunSuiteId w) (current w)
    (calls w) (rejections w).

Definition set_phase (v : Phase) (w : World) : World :=
  mkWorld (this w) v (socketClient w) (checkRunSuiteId w) (current w)
    (calls w) (rejections w).

Definition set_socketClient (v : option SocketClient) (w : World) : World :=
  mkWorld (this w) (phase w) v (checkRunSuiteId w) (current w)
    (calls w) (rejections w).

Definition set_checkRunSuiteId (v : string) (w : World) : World :=
  mkWorld (this w) (phase w) (socketClient w) v (current w)
    (calls w) (rejections w).

Definition call (c : ExtCall) (w : World) : World :=
  mkWorld (this w) (phase w) (socketClient w) (checkRunSuiteId w) (current w)
    (calls w ++ [c]) (rejections w).

Definition start (s : State) : World :=
  mkWorld s Idle None EmptyString None [] [].

(** The [finally] block of [run]. *)
Definition run_finally (ok : bool) (w : World) : World :=
  match socketClient w with
  | Some _ => set_phase (Closing ok) (call SocketClient_end w)
  | None => set_phase (Ended ok) w
  end.

(** An exception reaches the [try] of [run]. *)
Definition run_throw (err : JSValue) (w : World) : World :=
  run_finally false (set_this (run_catch err (this w)) w).

(** The queue takes over the state its task left. *)
Definition advance (st : Step unit) (w : World) : World :=
  match st with
  | Returned s _ =>
      mkWorld s (phase w) (socketClient w) (checkRunSuiteId w) None
        (calls w) (rejections w)
  | Thrown s e =>
      mkWorld s (phase w) (socketClient w) (checkRunSuiteId w) None
        (calls w) (rejections w ++ [e])
  | Awaiting s c k =>
      mkWorld s (phase w) (socketClient w) (checkRunSuiteId w) (Some (c, k))
        (calls w ++ [c]) (rejections w)
  end.

(** A pending timer fires. *)
Definition fire (callback : TimerCallback) (s : State) : State :=
  match callback with
  | CheckTimedOut checkRunId check => checkTimeoutCallback checkRunId check s
  | SchedulingDelayExceeded => schedulingDelayCallback s
  end.

(** What the environment can do next: [run] is called, one of its awaits
    settles ([Connected] also carries the value of [uuid.v4()]), the broker
    delivers a message, the queue starts its next task, the call awaited by
    the running task settles, or a pending timer fires. *)
Inductive Label : Type :=
| Run
| Connected (uuid : string)
| ConnectFailed (err : JSValue)
| Subscribed
| SubscribeFailed (err : JSValue)
| Scheduled (testSessionId : option string) (checks : list ScheduledCheck)
| ScheduleFailed (err : JSValue)
| Completed
| SocketEnded
| Message (topic : string) (message : JSValue)
| QueueNext
| Settled (o : Outcome)
| TimerFired (t : nat).

Definition listenerInstalled (p : Phase) : bool :=
  match p with
  | Subscribing | Scheduling | Waiting | Closing _ => true
  | _ => false
  end.

(** One turn of the event loop; [None] when the label is not enabled. *)
Definition step (l : Label) (w : World) : option World :=
  match l, phase w with
  | Run, Idle =>
      Some (set_phase Connecting (call SocketClient_connect w))
  | Connected uuid, Connecting =>
      Some (set_phase Subscribing
              (call (SocketClient_subscribe
                       (subscriptionTopic (accountId (this w)) uuid))
                 (set_checkRunSuiteId uuid
                    (set_socketClient (Some AsyncMqttClient) w))))
  | ConnectFailed err, Connecting => Some (run_throw err w)
  | Subscribed, Subscribing =>
      Some (set_phase Scheduling (call (ScheduleChecks (checkRunSuiteId w)) w))
  | SubscribeFailed err, Subscribing => Some (run_throw err w)
  | Scheduled testSessionId checks, Scheduling =>
      Some (set_phase Waiting
              (set_this (run_scheduled testSessionId checks (this w)) w))
  | ScheduleFailed err, Scheduling => Some (run_throw err w)
  | Completed, Waiting =>
      match completion (this w) with
      | Some c =>
          if resolved c
          then Some (run_finally true
                       (set_this (emit (RUN_FINISHED (testSessionId (this w)))
                                    (this w)) w))
          else None
      | None => None
      end
  | SocketEnded, Closing ok => Some (set_phase (Ended ok) w)
  | Message topic message, p =>
      if listenerInstalled p
      then Some (set_this (onMessage topic message (this w)) w)
      else None
  | QueueNext, _ =>
      match current w, isPaused (queue (this w)), pending (queue (this w)) with
      | None, false, t :: rest =>
          let s := set_queue (mkPQueue false rest) (this w) in
          Some (advance
                  (processMessage (task_checkRunId t) (task_subtopic t)
                     (task_message t) s) w)
      | _, _, _ => None
      end
  | Settled o, _ =>
      match current w with
      | Some (_, k) => Some (advance (k o (this w)) w)
      | None => None
      end
  | TimerFired t, _ =>
      match timers (this w) !! t with
      | Some (callback, _) =>
          Some (set_this
                  (fire callback (set_timers (delete t (timers (this w))) (this w)))
                  w)
      | None => None
      end
  | _, _ => None
  end.

(** Labels that are not enabled leave the world as it is. *)
Definition exec (ls : list Label) (w : World) : World :=
  foldl (fun w l => default w (step l w)) w ls.

(** ** Observations on the event stream *)

(** The check a ["failed"] or ["succeeded"] event is about. *)
Definition terminalId (ev : Event) : option string :=
  match ev with
  | CHECK_FAILED checkRunId _ _ => Some checkRunId
  | CHECK_SUCCESSFUL checkRunId _ _ _ => Some checkRunId
  | _ => None
  end.


Definition terminals (tr : list Event) : list string := omap terminalId tr.


Definition isFinished (ev : Event) : bool :=
  match ev with CHECK_FINISHED _ => true | _ => false end.

Definition isInProgress (ev : Event) : bool :=
  match ev with CHECK_INPROGRESS _ _ => true | _ => false end.

Definition isDelayExceeded (ev : Event) : bool :=
  match ev with MAX_SCHEDULING_DELAY_EXCEEDED => true | _ => false end.

Definition isRunFinished (ev : Event) : bool :=
  match ev with RUN_FINISHED _ => true | _ => false end.

Definition isError (ev : Event) : bool :=
  match ev with ERROR _ => true | _ => false end.

Definition countEvents (p : Event -> bool) (tr : list Event) : nat :=
  length (List.filter p tr).

(** A stream in which ["finished"] only ever comes as the second half of
    a pair ["failed"; "finished"] or ["succeeded"; "finished"] about one
    check, and every ["failed"] or ["succeeded"] is the first half of such
    a pair. *)
Inductive paired : list Event -> Prop :=
| paired_nil : paired []
| paired_other tr ev :
    paired tr -> terminalId ev = None -> isFinished ev = false ->
    paired (tr ++ [ev])
| paired_failed tr checkRunId check message :
    paired tr ->
    paired (tr ++ [CHECK_FAILED checkRunId check message; CHECK_FINISHED check])
| paired_successful tr checkRunId check result links :
    paired tr ->
    paired (tr ++ [CHECK_SUCCESSFUL checkRunId check result links;
                   CHECK_FINISHED check]).


(** [ev] is a terminal event of check [id]. *)
Definition terminalPair (ev : Event) (id : string) (check : JSValue) : Prop :=
  (exists message, ev = CHECK_FAILED id check message)
  \/ (exists result links, ev = CHECK_SUCCESSFUL id check result links).

(** Is a pending timer the scheduling-delay one? *)
Definition isSchedulingDelay (e : TimerCallback * Z) : bool :=
  match fst e with SchedulingDelayExceeded => true | _ => false end.

Definition isShortLinksCall (c : ExtCall) : bool :=
  match c with TestSessions_getResultShortLinks _ _ => true | _ => false end.

(** ** Shapes of suspended computations *)

(** A computation that leaves the state as it finds it, whatever the
    collaborators answer, and whose results satisfy [Q]. *)
Inductive quiet {A : Type} (Q : A -> Prop) : State -> Step A -> Prop :=
| quiet_returned s a : Q a -> quiet Q s (Returned s a)
| quiet_thrown s e : quiet Q s (Thrown s e)
| quiet_awaiting s c k :
    (forall o s', quiet Q s' (k o s')) -> quiet Q s (Awaiting s c k).

(** What is left of [processMessage] on [run-end] once the timeout is
    disabled: it can only await, throw, or emit ["succeeded"] and
    ["finished"] for its check and return. *)
Inductive run_end_tail (checkRunId : string) (check : JSValue)
  : State -> Step unit -> Prop :=
| tail_returned s result links :
    run_end_tail checkRunId check s
      (Returned
         (emit (CHECK_FINISHED check)
            (emit (CHECK_SUCCESSFUL checkRunId check result links) s)) tt)
| tail_thrown s e : run_end_tail checkRunId check s (Thrown s e)
| tail_awaiting s c k :
    (forall o s', run_end_tail checkRunId check s' (k o s')) ->
    run_end_tail checkRunId check s (Awaiting s c k).

(** ** Invariants of a run *)

(** The timeout registry and Node's timers agree: every entry of
    [this.timeouts] holds the handle of a pending timer armed for that
    check with [this.timeout * 1000] ms, every pending check timer is the
    one registered for its check, and the only other pending timer is the
    one held in [this.schedulingDelayExceededTimeout]. *)
Record registry_ok (s : State) : Prop := {
  reg_armed : forall id h,
    timeouts s !! id = Some h ->
    exists entry,
      checks s !! id = Some entry
      /\ timers s !! h
         = Some (CheckTimedOut id (check entry), (timeout s * 1000)%Z);
  reg_owned : forall h id c ms,
    timers s !! h = Some (CheckTimedOut id c, ms) ->
    timeouts s !! id = Some h;
  reg_delay : forall h ms,
    timers s !! h = Some (SchedulingDelayExceeded, ms) ->
    schedulingDelayExceededTimeout s = Some h;
  reg_handle : forall h e,
    schedulingDelayExceededTimeout s = Some h ->
    timers s !! h = Some e -> isSchedulingDelay e = true }.

(** The emitted stream: ["finished"] comes in pairs, no check has two
    terminal events, and a check with a terminal event has a record and no
    timeout entry. *)
Record stream_ok (s : State) : Prop := {
  str_paired : paired (emitted s);
  str_once : NoDup (terminals (emitted s));
  str_resolved : forall id,
    id ∈ terminals (emitted s) -> timeouts s !! id = None;
  str_known : forall id,
    id ∈ terminals (emitted s) -> is_Some (checks s !! id) }.

(** The closure of [allChecksFinished] counts the ["finished"] events. *)
Definition completion_ok (s : State) : Prop :=
  forall c, completion s = Some c ->
    numChecks c = size (checks s)
    /\ listening c = negb (numChecks c =? 0)
    /\ finishedCheckCount c
       = (if listening c then countEvents isFinished (emitted s) else 0)
    /\ resolved c = (numChecks c <=? finishedCheckCount c)
    /\ resolveCalls c = (if listening c && resolved c then 1 else 0).

Definition noSchedulingDelayTimer (s : State) : Prop :=
  forall h e, timers s !! h = Some e -> isSchedulingDelay e = false.

(** The closure of the ["in-progress"] listener counts those events, and
    the scheduling-delay timer is pending exactly while fewer of them than
    [numChecks] were emitted and the timer has not fired. *)
Definition monitor_ok (s : State) : Prop :=
  match monitor s with
  | None =>
      noSchedulingDelayTimer s /\ schedulingDelayExceededTimeout s = None
      /\ (is_Some (completion s) -> size (checks s) = 0)
  | Some m =>
      monitor_numChecks m = size (checks s)
      /\ 0 < monitor_numChecks m
      /\ scheduledCheckCount m = countEvents isInProgress (emitted s)
      /\ if (scheduledCheckCount m <? monitor_numChecks m)
            && (countEvents isDelayExceeded (emitted s) =? 0)
         then exists h,
                schedulingDelayExceededTimeout s = Some h
                /\ timers s !! h
                   = Some (SchedulingDelayExceeded,
                           DEFAULT_SCHEDULING_DELAY_EXCEEDED_MS)
         else noSchedulingDelayTimer s
  end.

Definition state_ok (s : State) : Prop :=
  registry_ok s /\ stream_ok s /\ completion_ok s /\ monitor_ok s.

(** The state [run] starts from and keeps until [scheduleChecks] returns. *)
Record pristine (s : State) : Prop := {
  pr_checks : checks s = ∅;
  pr_timeouts : timeouts s = ∅;
  pr_timers : timers s = ∅;
  pr_delay : schedulingDelayExceededTimeout s = None;
  pr_completion : completion s = None;
  pr_monitor : monitor s = None;
  pr_paused : isPaused (queue s) = true }.

Definition phase_ok (w : World) : Prop :=
  match phase w with
  | Idle | Connecting | Subscribing | Scheduling =>
      pristine (this w) /\ emitted (this w) = [] /\ current w = None
  | Closing false | Ended false =>
      pristine (this w) /\ (exists e, emitted (this w) = [ERROR e])
      /\ current w = None
  | Waiting =>
      is_Some (completion (this w))
      /\ countEvents isRunFinished (emitted (this w)) = 0
      /\ countEvents isError (emitted (this w)) = 0
  | Closing true | Ended true =>
      (exists c, completion (this w) = Some c /\ resolved c = true)
      /\ countEvents isRunFinished (emitted (this w)) = 1
      /\ countEvents isError (emitted (this w)) = 0
  end.

(** The phases in which the queue runs and timers are armed. *)
Definition late (p : Phase) : Prop :=
  match p with
  | Waiting | Closing true | Ended true => True
  | _ => False
  end.

(** From [s] to [s'] the completion promise stays resolved if it was, and
    no run-level event was emitted. *)
Definition keeps (s s' : State) : Prop :=
  (forall c, completion s = Some c ->
     exists c', completion s' = Some c'
                /\ (resolved c = true -> resolved c' = true))
  /\ countEvents isRunFinished (emitted s')
     = countEvents isRunFinished (emitted s)
  /\ countEvents isError (emitted s') = countEvents isError (emitted s).

(** Once [run] is past its [finally], a socket that was opened has been
    ended. *)
Definition socket_ok (w : World) : Prop :=
  match phase w with
  | Closing _ | Ended _ =>
      is_Some (socketClient w) -> SocketClient_end ∈ calls w
  | _ => True
  end.

(** The task the queue is running is a [run-end] past its
    [disableTimeout], for a known check that has no terminal event yet. *)
Definition current_ok (w : World) : Prop :=
  match current w with
  | None => True
  | Some (_, k) =>
      exists id entry,
        checks (this w) !! id = Some entry
        /\ timeouts (this w) !! id = None
        /\ (id ∉ terminals (emitted (this w)))
        /\ (forall o s', run_end_tail id (check entry) s' (k o s'))
  end.

Record invariant (w : World) : Prop := {
  inv_registry : registry_ok (this w);
  inv_stream : stream_ok (this w);
  inv_completion : completion_ok (this w);
  inv_monitor : monitor_ok (this w);
  inv_phase : phase_ok w;
  inv_socket : socket_ok w;
  inv_current : current_ok w }.

(** A run that waits for checks it can no longer hear from: no timeout
    entry is left, no task is running and nothing has finished. *)
Definition stalled (batch : gmap string CheckEntry) (w : World) : Prop :=
  invariant w /\ phase w = Waiting /\ timeouts (this w) = ∅
  /\ current w = None
  /\ countEvents isFinished (emitted (this w)) = 0
  /\ checks (this w) = batch /\ 0 < size batch.

(** ** Topics and payloads *)


(** The entry [new Map(...)] makes of one scheduled check. *)
Definition entryOf (c : ScheduledCheck) : CheckEntry :=
  mkCheckEntry (sc_check c) (sc_testResultId c).

(** A per-check event carries the check registered under its id (for
    ["finished"], which has no id: under some id). *)
Definition checkEvent (checks : gmap string CheckEntry) (ev : Event) : Prop :=
  match ev with
  | CHECK_INPROGRESS c id | CHECK_FAILED id c _ | CHECK_SUCCESSFUL id c _ _ =>
      exists entry, checks !! id = Some entry /\ check entry = c
  | CHECK_FINISHED c =>
      exists id entry, checks !! id = Some entry /\ check entry = c
  | MAX_SCHEDULING_DELAY_EXCEEDED => True
  | _ => False
  end.

Definition isRunStarted (ev : Event) : bool :=
  match ev with RUN_STARTED _ _ => true | _ => false end.

(** An event that follows ["run-started"]: an event about a check of the
    batch, the scheduling-delay warning, or ["run-finished"] with the
    session id of the run. *)
Definition bodyEvent (checks : gmap string CheckEntry)
  (testSessionId : option string) (ev : Event) : Prop :=
  checkEvent checks ev \/ ev = RUN_FINISHED testSessionId.

(** From state [s] to world [w'] the batch and the session are kept and
    only events of the body of a run were emitted. *)
Definition extends (s : State) (w' : World) : Prop :=
  checks (this w') = checks s /\ testSessionId (this w') = testSessionId s
  /\ exists evs,
       emitted (this w') = (emitted s ++ evs)%list
       /\ Forall (bodyEvent (checks s) (testSessionId s)) evs.

(** Once [scheduleChecks] has returned, the stream is ["run-started"] with
    what it returned, followed by events of the body of the run. *)
Definition shape (w : World) : Prop :=
  late (phase w) ->
  exists scheduled body,
    emitted (this w) = RUN_STARTED scheduled (testSessionId (this w)) :: body
    /\ checks (this w) = newChecksMap scheduled
    /\ Forall (bodyEvent (checks (this w)) (testSessionId (this w))) body.

(** ** Example runs *)

Module Sample.
Definition check1 : ScheduledCheck :=
  mkScheduledCheck (JStr "homepage") "c1" (Some "tr1").
Definition check2 : ScheduledCheck :=
  mkScheduledCheck (JStr "login") "c2" None.

Definition topic (checkRunId subtopic : string) : string :=
  "account/acc/ad-hoc-check-results/suite/" ++ checkRunId ++ "/" ++ subtopic.

(** A fresh runner whose [run] has connected and subscribed. *)
Definition listening : list Label := [Run; Connected "suite"; Subscribed].

(** [run] up to [await allChecksFinished] with the given checks. *)
Definition running (testSessionId : option string)
  (checks : list ScheduledCheck) : list Label :=
  listening ++ [Scheduled testSessionId checks].

Definition fresh : World := start (constructor "acc" 300 false).

(** A result that reports failures and has a log to fetch. *)
Definition failedResult : JSValue :=
  JObj [("result",
         JObj [("hasFailures", JBool true);
               ("assets", JObj [("region", JStr "eu-west-1");
                                ("logPath", JStr "logs/1")])])].

(** The run in which the log fetch of the only check fails. *)
Definition failedFetch : list Label :=
  running (Some "sess") [check1]
    ++ [Message (topic "c1" "run-end") failedResult;
        QueueNext;
        Settled (Rejected (JStr "ECONNRESET"))].

(** A result without [assets]. *)
Definition bareResult : JSValue :=
  JObj [("result", JObj [("hasFailures", JBool false)])].
End Sample.

(** * Properties *)

(** ** Strings *)

Ltac string_simpl := unfold String.append; fold String.append; simpl.

Lemma prefix_app n r : String.prefix n (n ++ r) = true.
Proof.
  induction n as [|a n IH]; string_simpl.
  - now destruct r.
  - destruct (ascii_dec a a); [exact IH | congruence].
Qed.

Lemma includes_prefix n h : String.prefix n h = true -> includes n h = true.
Proof. destruct h; simpl; intros ->; reflexivity. Qed.

Lemma includes_app_r n a r : includes n (a ++ n ++ r) = true.
Proof.
  induction a as [|c a IH]; string_simpl.
  - apply includes_prefix, prefix_app.
  - rewrite IH. apply orb_true_r.
Qed.

Lemma append_empty_r n : (n ++ EmptyString)%string = n.
Proof. induction n as [|c n IH]; string_simpl; congruence. Qed.

Lemma prefix_refl n : String.prefix n n = true.
Proof.
  pose proof (prefix_app n EmptyString) as H.
  rewrite append_empty_r in H. exact H.
Qed.

Lemma includes_suffix n a : includes n (a ++ n) = true.
Proof.
  pose proof (includes_app_r n a EmptyString) as H.
  rewrite append_empty_r in H. exact H.
Qed.

Lemma occurs_app c a b : occurs c (a ++ b) = occurs c a || occurs c b.
Proof.
  induction a as [|d a IH]; string_simpl; [reflexivity|].
  rewrite IH. apply orb_assoc.
Qed.

Lemma prefix_occurs c n : forall h,
  String.prefix n h = true -> occurs c n = true -> occurs c h = true.
Proof.
  induction n as [|a n IH]; intros h Hp Ho; simpl in Ho; [discriminate|].
  destruct h as [|b h]; simpl in Hp; [discriminate|].
  destruct (ascii_dec a b) as [->|]; [|discriminate].
  simpl. apply orb_true_iff in Ho as [Ho|Ho].
  - rewrite Ho. reflexivity.
  - rewrite (IH h Hp Ho). apply orb_true_r.
Qed.

Lemma includes_occurs c n h :
  includes n h = true -> occurs c n = true -> occurs c h = true.
Proof.
  induction h as [|b h IH]; simpl; intros Hi Ho.
  - rewrite orb_false_r in Hi. destruct n; [discriminate Ho|discriminate Hi].
  - apply orb_true_iff in Hi as [Hi|Hi].
    + exact (prefix_occurs c n (String b h) Hi Ho).
    + rewrite (IH Hi Ho). apply orb_true_r.
Qed.

Lemma occurs_string_of_uint d :
  occurs "@"%char (NilEmpty.string_of_uint d) = false.
Proof. induction d; simpl; auto. Qed.

Lemma occurs_numberToString n : occurs "@"%char (numberToString n) = false.
Proof.
  unfold numberToString, NilZero.string_of_int, NilZero.string_of_uint.
  destruct (Z.to_int n) as [d|d]; simpl.
  - destruct d; try reflexivity; apply occurs_string_of_uint.
  - destruct d; try reflexivity; apply occurs_string_of_uint.
Qed.

(** [numberToString] writes decimal numerals: one digit below ten, the
    numeral of the tens followed by the last digit from ten on, and a
    minus sign before the numeral of the opposite of a negative number. *)
Lemma append_assoc (a b c : string) :
  ((a ++ b) ++ c)%string = (a ++ b ++ c)%string.
Proof. induction a as [|x a IH]; string_simpl; congruence. Qed.

Lemma string_of_uint_revapp x y :
  NilEmpty.string_of_uint (Decimal.revapp x y)
  = (NilEmpty.string_of_uint (Decimal.revapp x Decimal.Nil)
       ++ NilEmpty.string_of_uint y)%string.
Proof.
  revert y. induction x; intros y; cbn [Decimal.revapp];
    [reflexivity|
     rewrite IHx; symmetry; rewrite IHx, append_assoc; reflexivity ..].
Qed.

Lemma string_of_uint_app a b :
  NilEmpty.string_of_uint (Decimal.app a b)
  = (NilEmpty.string_of_uint a ++ NilEmpty.string_of_uint b)%string.
Proof.
  unfold Decimal.app. rewrite string_of_uint_revapp.
  fold (Decimal.rev (Decimal.rev a)). rewrite DecimalFacts.rev_rev.
  reflexivity.
Qed.

(** The numeral of a positive number starts with a digit other than 0. *)
Lemma to_uint_head q :
  exists h t,
    DecimalFacts.to_list (Pos.to_uint q) = h :: t /\ h <> DecimalFacts.d0.
Proof.
  set (a := Pos.to_uint q).
  assert (Hn : Decimal.unorm a = a).
  { pose proof (DecimalPos.Unsigned.to_of a) as H.
    unfold a in H at 1. rewrite DecimalPos.Unsigned.of_to in H.
    symmetry. exact H. }
  assert (Hz : Decimal.nzhead a = a).
  { rewrite <- Hn at 2. symmetry. apply DecimalFacts.unorm_nzhead.
    intros E. apply (DecimalPos.Unsigned.to_uint_nonzero q). fold a.
    rewrite <- Hn. apply DecimalFacts.unorm_0. exact E. }
  pose proof (DecimalFacts.nzhead_spec a) as Hs. rewrite Hz in Hs.
  destruct (DecimalFacts.to_list a) as [|h t] eqn:El.
  - exfalso. apply (DecimalPos.Unsigned.to_uint_nonnil q). fold a.
    apply DecimalFacts.to_list_inj. rewrite El. reflexivity.
  - exists h, t. split; [reflexivity|]. intros ->.
    symmetry in Hs. exact (DecimalFacts.lnzhead_neq_d0_head _ _ Hs).
Qed.

(** The numeral of [10 * q + r] is the numeral of [q] followed by the
    digit [c] of [r]. *)
Lemma to_uint_snoc (c : Decimal.uint -> Decimal.uint)
  (k : DecimalFacts.digits) (r : N) (q p : positive) :
  (forall u, DecimalFacts.to_list (c u) = k :: DecimalFacts.to_list u) ->
  (forall u, DecimalPos.Unsigned.of_lu (c u)
             = (r + 10 * DecimalPos.Unsigned.of_lu u)%N) ->
  Npos p = (r + 10 * Npos q)%N ->
  Pos.to_uint p = Decimal.app (Pos.to_uint q) (c Decimal.Nil).
Proof.
  intros Hc Hlu Hp. set (a := Pos.to_uint q).
  set (D := Decimal.app a (c Decimal.Nil)).
  assert (Hrev : Decimal.rev D = c (Decimal.rev a)).
  { apply DecimalFacts.to_list_inj. unfold D.
    rewrite DecimalFacts.rev_spec, DecimalFacts.app_spec, !Hc,
      List.rev_app_distr, DecimalFacts.rev_spec.
    reflexivity. }
  assert (Hof : Pos.of_uint D = Npos p).
  { rewrite DecimalPos.Unsigned.of_uint_alt, Hrev, Hlu,
      <- DecimalPos.Unsigned.of_uint_alt.
    unfold a. rewrite DecimalPos.Unsigned.of_to. symmetry. exact Hp. }
  assert (Hnorm : Decimal.unorm D = D).
  { apply DecimalFacts.to_list_inj.
    rewrite DecimalFacts.unorm_spec. unfold D.
    rewrite DecimalFacts.app_spec.
    destruct (to_uint_head q) as (h & t & El & Hh). fold a in El.
    rewrite El. unfold DecimalFacts.lunorm. cbn [Datatypes.app].
    rewrite (DecimalFacts.lnzhead_head_nd0 _ _ Hh). reflexivity. }
  change (Pos.to_uint p) with (N.to_uint (Npos p)).
  rewrite <- Hof, DecimalPos.Unsigned.to_of. exact Hnorm.
Qed.

Lemma numberToString_digit (n : Z) :
  (0 <= n < 10)%Z ->
  numberToString n = substring (Z.to_nat n) 1 "0123456789".
Proof.
  intros H. remember (Z.to_nat n) as m eqn:Em.
  assert (n = Z.of_nat m) as -> by lia. clear Em.
  do 10 (destruct m as [|m]; [reflexivity|]). lia.
Qed.

Lemma numberToString_tens (n : Z) :
  (10 <= n)%Z ->
  numberToString n
  = (numberToString (n / 10) ++ numberToString (n mod 10))%string.
Proof.
  intros H.
  pose proof (Z.div_mod n 10 ltac:(lia)) as Hdm.
  pose proof (Z.mod_pos_bound n 10 ltac:(lia)) as Hr.
  assert (Hq : (0 < n / 10)%Z) by (apply Z.div_str_pos; lia).
  destruct n as [|p|p]; try lia.
  destruct (Z.pos p / 10)%Z as [|q|q] eqn:Eq; try lia.
  set (r := (Z.pos p mod 10)%Z) in *.
  assert (Hp : forall rn, Z.of_N rn = r -> N.pos p = (rn + 10 * N.pos q)%N).
  { intros rn Hrn. lia. }
  unfold numberToString at 1 2. cbn [Z.to_int NilZero.string_of_int].
  assert (Hnz : forall x, NilZero.string_of_uint (Pos.to_uint x)
                          = NilEmpty.string_of_uint (Pos.to_uint x)).
  { intros x. pose proof (DecimalPos.Unsigned.to_uint_nonnil x).
    destruct (Pos.to_uint x); [contradiction|reflexivity ..]. }
  rewrite !Hnz.
  remember (Z.to_nat r) as k eqn:Ek.
  assert (E : r = Z.of_nat k) by lia. clear Ek.
  destruct k as [|[|[|[|[|[|[|[|[|[|k]]]]]]]]]]; [| | | | | | | | | |lia];
    rewrite E;
    [rewrite (to_uint_snoc Decimal.D0 DecimalFacts.d0 0 q p)
    |rewrite (to_uint_snoc Decimal.D1 DecimalFacts.d1 1 q p)
    |rewrite (to_uint_snoc Decimal.D2 DecimalFacts.d2 2 q p)
    |rewrite (to_uint_snoc Decimal.D3 DecimalFacts.d3 3 q p)
    |rewrite (to_uint_snoc Decimal.D4 DecimalFacts.d4 4 q p)
    |rewrite (to_uint_snoc Decimal.D5 DecimalFacts.d5 5 q p)
    |rewrite (to_uint_snoc Decimal.D6 DecimalFacts.d6 6 q p)
    |rewrite (to_uint_snoc Decimal.D7 DecimalFacts.d7 7 q p)
    |rewrite (to_uint_snoc Decimal.D8 DecimalFacts.d8 8 q p)
    |rewrite (to_uint_snoc Decimal.D9 DecimalFacts.d9 9 q p)];
    try reflexivity;
    try apply string_of_uint_app; apply Hp; rewrite E; reflexivity.
Qed.

Lemma numberToString_neg (n : Z) :
  (n < 0)%Z -> numberToString n = ("-" ++ numberToString (- n))%string.
Proof.
  intros H. destruct n as [|p|p]; try lia. reflexivity.
Qed.

(** The support guidance is in the timeout message exactly for the
    default timeout. *)
Lemma timeoutErrorMessage_guidance timeout :
  includes supportGuidance (timeoutErrorMessage timeout) = true
  <-> timeout = DEFAULT_CHECK_RUN_TIMEOUT_SECONDS.
Proof.
  unfold timeoutErrorMessage.
  destruct (Z.eqb_spec timeout DEFAULT_CHECK_RUN_TIMEOUT_SECONDS) as [E|E].
  - split; [intros _; exact E|intros _]. apply includes_suffix.
  - split; [intros H; exfalso|intros H; contradiction].
    apply (includes_occurs "@"%char) in H; [|reflexivity].
    rewrite !occurs_app, occurs_numberToString in H. discriminate H.
Qed.

(** ** Synchronous methods *)

Ltac async_unfold :=
  unfold mbind, mret, Async_bind, Async_ret, Async.bind, Async.ret,
    Async.get, Async.sync, Async.throw, Async.await, Async.tryCatch.

Ltac async_unfold_in H :=
  unfold mbind, mret, Async_bind, Async_ret, Async.bind, Async.ret,
    Async.get, Async.sync, Async.throw, Async.await, Async.tryCatch in H.

Lemma State_eta s :
  mkState (checks s) (testSessionId s) (timeouts s)
    (schedulingDelayExceededTimeout s) (accountId s) (timeout s) (verbose s)
    (queue s) (completion s) (monitor s) (timers s) (nextTimeout s)
    (emitted s) = s.
Proof. destruct s; reflexivity. Qed.

Lemma disableTimeout_absent key s :
  timeouts s !! key = None -> disableTimeout key s = s.
Proof.
  intros H. unfold disableTimeout. rewrite H. simpl.
  unfold set_timeouts. rewrite (delete_id _ _ H). apply State_eta.
Qed.

Lemma timeouts_disableTimeout key s :
  timeouts (disableTimeout key s) = delete key (timeouts s).
Proof. unfold disableTimeout. destruct (timeouts s !! key); reflexivity. Qed.

(** C8: disabling the timeout of a check that has no entry changes
    nothing, and disabling twice is the same as disabling once. *)
Theorem disableTimeout_idempotent (timeoutKey : string) (s : State) :
  (timeouts s !! timeoutKey = None -> disableTimeout timeoutKey s = s)
  /\ disableTimeout timeoutKey (disableTimeout timeoutKey s)
     = disableTimeout timeoutKey s.
Proof.
  split; [apply disableTimeout_absent|].
  apply disableTimeout_absent.
  rewrite timeouts_disableTimeout. apply lookup_delete_eq.
Qed.

Lemma disableTimeout_idempotent_witness :
  let s := constructor "acc" 300 false in
  timeouts s !! "c1" = None /\ disableTimeout "c1" s = s.
Proof.
  split; [reflexivity|].
  apply (proj1 (disableTimeout_idempotent "c1" (constructor "acc" 300 false))).
  reflexivity.
Defined.

(** A message for a check without a timeout entry, or without a check
    record, ends [processMessage] at once. *)
Lemma processMessage_skip (checkRunId subtopic : string)
  (message : JSValue) (s : State) :
  timeouts s !! checkRunId = None \/ checks s !! checkRunId = None ->
  processMessage checkRunId subtopic message s = Returned s tt.
Proof.
  intros H. unfold processMessage. async_unfold. simpl.
  destruct (timeouts s !! checkRunId) eqn:Ht; simpl; [|reflexivity].
  destruct H as [H|H]; [discriminate|]. rewrite H. reflexivity.
Qed.

Lemma assoc_assign_ne {A : Type} (k k' : string) (x : A) fs :
  k <> k' -> assoc k' (assign k x fs) = assoc k' fs.
Proof.
  intros Hne. induction fs as [|[k0 y] fs IH]; simpl.
  - destruct (String.eqb_spec k k'); [contradiction|reflexivity].
  - destruct (String.eqb_spec k0 k) as [->|Hk]; simpl.
    + destruct (String.eqb_spec k k'); [contradiction|reflexivity].
    + destruct (String.eqb_spec k0 k'); [reflexivity|exact IH].
Qed.

Lemma prop_setProp_ne v k x k' :
  k <> k' -> prop (setProp v k x) k' = prop v k'.
Proof.
  intros Hne. destruct v; simpl; try reflexivity.
  rewrite (assoc_assign_ne _ _ _ _ Hne). reflexivity.
Qed.

Lemma prop_nullish v k : nullish v = true -> prop v k = JUndefined.
Proof. destruct v; simpl; intros H; try discriminate; reflexivity. Qed.

Section Emit.
Variables (ev : Event) (s : State).

Ltac emit_cases :=
  unfold emit, onCheckInProgress, clearTimeout; destruct ev; simpl;
  try reflexivity;
  repeat match goal with
         | |- context [match ?x with _ => _ end] =>
             destruct x eqn:?; simpl in *
         end;
  congruence.

Lemma checks_emit : checks (emit ev s) = checks s.
Proof. emit_cases. Qed.
Lemma timeouts_emit : timeouts (emit ev s) = timeouts s.
Proof. emit_cases. Qed.
Lemma testSessionId_emit : testSessionId (emit ev s) = testSessionId s.
Proof. emit_cases. Qed.
Lemma timeout_emit : timeout (emit ev s) = timeout s.
Proof. emit_cases. Qed.
Lemma verbose_emit : verbose (emit ev s) = verbose s.
Proof. emit_cases. Qed.
Lemma queue_emit : queue (emit ev s) = queue s.
Proof. emit_cases. Qed.
Lemma schedulingDelayExceededTimeout_emit :
  schedulingDelayExceededTimeout (emit ev s)
  = schedulingDelayExceededTimeout s.
Proof. emit_cases. Qed.
Lemma emitted_emit : emitted (emit ev s) = (emitted s ++ [ev])%list.
Proof. emit_cases. Qed.
Lemma timers_emit : isInProgress ev = false -> timers (emit ev s) = timers s.
Proof. intros H. destruct ev; try discriminate H; emit_cases. Qed.
Lemma monitor_emit : isInProgress ev = false -> monitor (emit ev s) = monitor s.
Proof. intros H. destruct ev; try discriminate H; emit_cases. Qed.
Lemma completion_emit :
  isFinished ev = false -> completion (emit ev s) = completion s.
Proof. intros H. destruct ev; try discriminate H; emit_cases. Qed.
End Emit.

(** ** The timeout callback *)

(** C6: when the timer armed for a check fires, its callback removes the
    check's entry from the registry and emits ["failed"] and then
    ["finished"].  The message of ["failed"] is the text
    [Reached timeout of <n> seconds waiting for check result.], where
    [<n>] is the decimal numeral of the configured timeout, followed by
    the support guidance (status page and support address) exactly when
    that timeout is the default of 300 seconds. *)
Theorem check_timeout_fires (w : World) (t : nat) (checkRunId : string)
  (check : JSValue) (ms : Z) :
  timers (this w) !! t = Some (CheckTimedOut checkRunId check, ms) ->
  exists w' message,
    step (TimerFired t) w = Some w'
    /\ timeouts (this w') = delete checkRunId (timeouts (this w))
    /\ timers (this w') = delete t (timers (this w))
    /\ emitted (this w')
       = (emitted (this w)
            ++ [CHECK_FAILED checkRunId check (JStr message);
                CHECK_FINISHED check])%list
    /\ ((Z.abs (timeout (this w)) <= Number_MAX_SAFE_INTEGER)%Z ->
        message
        = ("Reached timeout of " ++ numberToString (timeout (this w))
             ++ " seconds waiting for check result."
             ++ (if (timeout (this w) =? 300)%Z
                 then " Checkly may be experiencing problems. Please check https://is.checkly.online or reach out to support@checklyhq.com."
                 else EmptyString))%string)
    /\ (forall n : Z,
          (0 <= n < 10)%Z ->
          numberToString n = substring (Z.to_nat n) 1 "0123456789")
    /\ (forall n : Z,
          (10 <= n <= Number_MAX_SAFE_INTEGER)%Z ->
          numberToString n
          = (numberToString (n / 10) ++ numberToString (n mod 10))%string)
    /\ (forall n : Z,
          (- Number_MAX_SAFE_INTEGER <= n < 0)%Z ->
          numberToString n = ("-" ++ numberToString (- n))%string)
    /\ (timeout (this w) = 300%Z ->
        message
        = "Reached timeout of 300 seconds waiting for check result. Checkly may be experiencing problems. Please check https://is.checkly.online or reach out to support@checklyhq.com.")
    /\ (includes
          " Checkly may be experiencing problems. Please check https://is.checkly.online or reach out to support@checklyhq.com."
          message = true
        <-> timeout (this w) = 300%Z)
    /\ DEFAULT_CHECK_RUN_TIMEOUT_SECONDS = 300%Z.
Proof.
  intros Ht.
  exists (set_this
            (fire (CheckTimedOut checkRunId check)
               (set_timers (delete t (timers (this w))) (this w))) w),
    (timeoutErrorMessage (timeout (this w))).
  split.
  { unfold step. destruct (phase w), w; simpl in *; rewrite Ht; reflexivity. }
  simpl. unfold checkTimeoutCallback.
  rewrite !timeouts_emit, !timers_emit, !emitted_emit by reflexivity. simpl.
  split; [reflexivity|]. split; [reflexivity|].
  split; [rewrite <- app_assoc; reflexivity|].
  split.
  { intros _. unfold timeoutErrorMessage, supportGuidance.
    change DEFAULT_CHECK_RUN_TIMEOUT_SECONDS with 300%Z.
    destruct (timeout (this w) =? 300)%Z.
    - rewrite !append_assoc. reflexivity.
    - reflexivity. }
  split; [exact numberToString_digit|].
  split; [intros n Hn; apply numberToString_tens, Hn|].
  split; [intros n Hn; apply numberToString_neg, Hn|].
  split; [intros E; rewrite E; vm_compute; reflexivity|].
  split; [exact (timeoutErrorMessage_guidance _)|reflexivity].
Qed.

(** ** Processing a [run-end] message *)

Lemma emitted_disableTimeout key s :
  emitted (disableTimeout key s) = emitted s.
Proof. unfold disableTimeout, clearTimeout. destruct (_ !! _); reflexivity. Qed.

Lemma processMessage_run_end checkRunId message s h entry :
  timeouts s !! checkRunId = Some h ->
  checks s !! checkRunId = Some entry ->
  processMessage checkRunId "run-end" message s
  = bindStep (getProp message "result" (disableTimeout checkRunId s))
      (fun result =>
         result ← processCheckResult result;
         links ← (if negb (truthy (ofOptString (testResultId entry)))
                  then mret (ofOptString (testResultId entry))
                  else if negb (truthy (prop result "hasFailures"))
                       then mret (prop result "hasFailures")
                       else getShortLinks
                              (default EmptyString (testResultId entry)));
         Async.sync
           (emit (CHECK_SUCCESSFUL checkRunId (check entry) result links));;
         Async.sync (emit (CHECK_FINISHED (check entry)))).
Proof.
  intros Ht Hc. unfold processMessage. async_unfold.
  cbn -[disableTimeout emit getProp processCheckResult getShortLinks].
  rewrite Ht, Hc.
  cbn -[disableTimeout emit getProp processCheckResult getShortLinks].
  reflexivity.
Qed.

(** C10: a [run-end] message for an active, known check whose result has
    no [assets] makes [processMessage] throw after it has disabled the
    timeout: nothing is emitted, and the check is left without a timeout
    entry.  A broker message reaches that branch. *)
Theorem run_end_without_assets_throws (s : State) (checkRunId : string)
  (h : nat) (entry : CheckEntry) (message : JSValue) :
  timeouts s !! checkRunId = Some h ->
  checks s !! checkRunId = Some entry ->
  prop (prop message "result") "assets" = JUndefined ->
  (exists e,
     processMessage checkRunId "run-end" message s
     = Thrown (disableTimeout checkRunId s) e)
  /\ emitted (disableTimeout checkRunId s) = emitted s
  /\ timeouts (disableTimeout checkRunId s) !! checkRunId = None
  /\ (let w := exec (Sample.running None [Sample.check1]
                       ++ [Message (Sample.topic "c1" "run-end")
                             Sample.bareResult;
                           QueueNext])
                  Sample.fresh in
      length (rejections w) = 1
      /\ emitted (this w) = [RUN_STARTED [Sample.check1] None]
      /\ timeouts (this w) !! "c1" = None
      /\ current w = None).
Proof.
  intros Ht Hc Ha. split; [|split; [|split]].
  - rewrite (processMessage_run_end _ _ _ _ _ Ht Hc).
    unfold getProp at 1. destruct (nullish message); [eexists; reflexivity|].
    async_unfold. cbn [bindStep].
    unfold processCheckResult. async_unfold.
    unfold getProp at 1.
    destruct (nullish (prop message "result")); [eexists; reflexivity|].
    cbn [bindStep]. rewrite Ha. cbn. eexists; reflexivity.
  - apply emitted_disableTimeout.
  - rewrite timeouts_disableTimeout. apply lookup_delete_eq.
  - vm_compute. repeat split; reflexivity.
Qed.

(** C2, as the code has it: on a [run-end] message for a check with a
    timeout entry and a check record, whose result carries [assets], and
    when the asset fetches that are made succeed, [processMessage]
    disables the timeout; fetches the logs, and the check-run data, exactly
    when the path is truthy and verbose mode is on or the result reports
    failures, and attaches them; fetches the short links exactly when the
    check's [testResultId] is truthy, the result reports failures and the
    run has a [testSessionId] (a failed fetch gives [undefined] links);
    then emits ["succeeded"] with the result and the links, and
    ["finished"]. *)
Theorem run_end_processing (s : State) (checkRunId : string) (h : nat)
  (entry : CheckEntry) (message : JSValue) (env : ExtCall -> Outcome)
  (logs data : JSValue) :
  let result := prop message "result" in
  let assets := prop result "assets" in
  let region := prop assets "region" in
  let logPath := prop assets "logPath" in
  let checkRunDataPath := prop assets "checkRunDataPath" in
  let hasFailures := prop result "hasFailures" in
  let fetchLogs := truthy logPath && (verbose s || truthy hasFailures) in
  let fetchData :=
    truthy checkRunDataPath && (verbose s || truthy hasFailures) in
  let fetchLinks :=
    truthy (ofOptString (testResultId entry)) && truthy hasFailures
    && truthy (ofOptString (testSessionId s)) in
  let linksCall :=
    TestSessions_getResultShortLinks
      (default EmptyString (testSessionId s))
      (default EmptyString (testResultId entry)) in
  let result1 := if fetchLogs then setProp result "logs" logs else result in
  let result2 :=
    if fetchData then setProp result1 "checkRunData" data else result1 in
  let links :=
    if negb (truthy (ofOptString (testResultId entry)))
    then ofOptString (testResultId entry)
    else if negb (truthy hasFailures) then hasFailures
    else if negb (truthy (ofOptString (testSessionId s))) then JUndefined
    else match env linksCall with
         | Resolved response =>
             if nullish response then JUndefined else prop response "data"
         | Rejected _ => JUndefined
         end in
  timeouts s !! checkRunId = Some h ->
  checks s !! checkRunId = Some entry ->
  nullish assets = false ->
  (fetchLogs = true -> env (Assets_getLogs region logPath) = Resolved logs) ->
  (fetchData = true ->
   env (Assets_getCheckRunData region checkRunDataPath) = Resolved data) ->
  complete env (processMessage checkRunId "run-end" message s)
  = ((if fetchLogs then [Assets_getLogs region logPath] else [])
       ++ (if fetchData
           then [Assets_getCheckRunData region checkRunDataPath] else [])
       ++ (if fetchLinks then [linksCall] else []),
     emit (CHECK_FINISHED (check entry))
       (emit (CHECK_SUCCESSFUL checkRunId (check entry) result2 links)
          (disableTimeout checkRunId s)),
     inr tt)%list.
Proof.
  intros result assets region logPath checkRunDataPath hasFailures fetchLogs
    fetchData fetchLinks linksCall result1 result2 links Ht Hc Ha Hlogs Hdata.
  assert (Hr : nullish result = false).
  { destruct (nullish result) eqn:E; [|reflexivity].
    unfold assets in Ha. rewrite (prop_nullish _ _ E) in Ha. discriminate. }
  assert (Hm : nullish message = false).
  { destruct (nullish message) eqn:E; [|reflexivity].
    unfold result in Hr. rewrite (prop_nullish _ _ E) in Hr. discriminate. }
  assert (Hv : verbose (disableTimeout checkRunId s) = verbose s).
  { unfold disableTimeout, clearTimeout. destruct (_ !! _); reflexivity. }
  assert (Hts : testSessionId (disableTimeout checkRunId s) = testSessionId s).
  { unfold disableTimeout, clearTimeout. destruct (_ !! _); reflexivity. }
  assert (Hf1 : prop result1 "hasFailures" = hasFailures).
  { unfold result1. destruct fetchLogs; [|reflexivity].
    apply prop_setProp_ne. discriminate. }
  assert (Hf2 : prop result2 "hasFailures" = hasFailures).
  { unfold result2. destruct fetchData; [|exact Hf1].
    rewrite prop_setProp_ne by discriminate. exact Hf1. }
  assert (Hlinks :
    forall r,
      prop r "hasFailures" = hasFailures ->
      complete env
        (bindStep
           ((if negb (truthy (ofOptString (testResultId entry)))
             then mret (ofOptString (testResultId entry))
             else if negb (truthy (prop r "hasFailures"))
                  then mret (prop r "hasFailures")
                  else getShortLinks (default EmptyString (testResultId entry)))
              (disableTimeout checkRunId s))
           (fun links s0 =>
              Returned
                (emit (CHECK_FINISHED (check entry))
                   (emit (CHECK_SUCCESSFUL checkRunId (check entry) r links)
                      s0)) tt))
      = (if fetchLinks then [linksCall] else [],
         emit (CHECK_FINISHED (check entry))
           (emit (CHECK_SUCCESSFUL checkRunId (check entry) r links)
              (disableTimeout checkRunId s)),
         inr tt)).
  { intros r Hr'. rewrite Hr'. unfold links, fetchLinks.
    destruct (truthy (ofOptString (testResultId entry)));
      cbn [negb andb]; [|reflexivity].
    destruct (truthy hasFailures); cbn [negb andb]; [|reflexivity].
    unfold getShortLinks, getProp. async_unfold.
    cbn [bindStep catchStep]. rewrite Hts.
    destruct (truthy (ofOptString (testSessionId s)));
      cbn [negb andb bindStep complete catchStep]; [|reflexivity].
    fold linksCall. destruct (env linksCall) as [response|e];
      cbn [negb andb bindStep complete catchStep]; [|reflexivity].
    destruct (nullish response);
      cbn [negb andb bindStep complete catchStep]; reflexivity. }
  rewrite (processMessage_run_end _ _ _ _ _ Ht Hc).
  unfold getProp at 1. rewrite Hm.
  unfold processCheckResult, getProp. async_unfold.
  cbn [bindStep]. fold result. rewrite Hr. cbn [bindStep].
  fold assets. rewrite Ha. cbn [bindStep].
  fold region logPath checkRunDataPath hasFailures.
  rewrite Hv. fold fetchLogs.
  destruct fetchLogs eqn:Elogs; cbn [bindStep complete].
  - rewrite (Hlogs eq_refl). cbn [bindStep complete].
    rewrite Hv. fold result1. rewrite Hf1. fold fetchData.
    destruct fetchData eqn:Edata; cbn [bindStep complete].
    + rewrite (Hdata eq_refl). cbn [bindStep complete].
      fold result2.
      pose proof (Hlinks result2 Hf2) as E. async_unfold_in E.
      rewrite E. reflexivity.
    + fold result2.
      pose proof (Hlinks result2 Hf2) as E. async_unfold_in E.
      rewrite E. reflexivity.
  - rewrite Hv. fold result1. rewrite Hf1. fold fetchData.
    destruct fetchData eqn:Edata; cbn [bindStep complete].
    + rewrite (Hdata eq_refl). cbn [bindStep complete].
      fold result2.
      pose proof (Hlinks result2 Hf2) as E. async_unfold_in E.
      rewrite E. reflexivity.
    + fold result2.
      pose proof (Hlinks result2 Hf2) as E. async_unfold_in E.
      rewrite E. reflexivity.
Qed.

(** ** Counting events *)

Lemma countEvents_app p (a b : list Event) :
  countEvents p (a ++ b) = countEvents p a + countEvents p b.
Proof. unfold countEvents. rewrite List.filter_app, length_app. reflexivity. Qed.

Lemma countEvents_snoc p (tr : list Event) ev :
  countEvents p (tr ++ [ev]) = countEvents p tr + (if p ev then 1 else 0).
Proof.
  rewrite countEvents_app. unfold countEvents at 2. simpl.
  destruct (p ev); reflexivity.
Qed.

Lemma terminals_app (a b : list Event) :
  terminals (a ++ b) = (terminals a ++ terminals b)%list.
Proof. apply omap_app. Qed.

Lemma terminals_snoc_other (tr : list Event) ev :
  terminalId ev = None -> terminals (tr ++ [ev]) = terminals tr.
Proof.
  intros H. rewrite terminals_app. unfold terminals at 2. simpl.
  rewrite H. apply app_nil_r.
Qed.


(** ** The registry under the methods that change it *)

Section DisableTimeout.
Variables (key : string) (s : State).

Lemma checks_disableTimeout : checks (disableTimeout key s) = checks s.
Proof. unfold disableTimeout, clearTimeout. destruct (_ !! _); reflexivity. Qed.
Lemma timeout_disableTimeout : timeout (disableTimeout key s) = timeout s.
Proof. unfold disableTimeout, clearTimeout. destruct (_ !! _); reflexivity. Qed.
Lemma completion_disableTimeout :
  completion (disableTimeout key s) = completion s.
Proof. unfold disableTimeout, clearTimeout. destruct (_ !! _); reflexivity. Qed.
Lemma monitor_disableTimeout : monitor (disableTimeout key s) = monitor s.
Proof. unfold disableTimeout, clearTimeout. destruct (_ !! _); reflexivity. Qed.
Lemma queue_disableTimeout : queue (disableTimeout key s) = queue s.
Proof. unfold disableTimeout, clearTimeout. destruct (_ !! _); reflexivity. Qed.
Lemma schedulingDelayExceededTimeout_disableTimeout :
  schedulingDelayExceededTimeout (disableTimeout key s)
  = schedulingDelayExceededTimeout s.
Proof. unfold disableTimeout, clearTimeout. destruct (_ !! _); reflexivity. Qed.
Lemma timers_disableTimeout :
  timers (disableTimeout key s)
  = match timeouts s !! key with
    | Some h => delete h (timers s)
    | None => timers s
    end.
Proof. unfold disableTimeout, clearTimeout. destruct (_ !! _); reflexivity. Qed.
End DisableTimeout.

Lemma registry_ok_ext s s' :
  checks s' = checks s -> timeouts s' = timeouts s -> timers s' = timers s ->
  timeout s' = timeout s ->
  schedulingDelayExceededTimeout s' = schedulingDelayExceededTimeout s ->
  registry_ok s -> registry_ok s'.
Proof.
  intros E1 E2 E3 E4 E5 [H1 H2 H3 H4].
  split; rewrite ?E1, ?E2, ?E3, ?E4, ?E5; assumption.
Qed.

(** Removing a check's entry together with its timer. *)
Lemma registry_ok_remove s s' id h :
  registry_ok s -> timeouts s !! id = Some h ->
  checks s' = checks s -> timeouts s' = delete id (timeouts s) ->
  timers s' = delete h (timers s) -> timeout s' = timeout s ->
  schedulingDelayExceededTimeout s' = schedulingDelayExceededTimeout s ->
  registry_ok s'.
Proof.
  intros [H1 H2 H3 H4] Hid E1 E2 E3 E4 E5.
  destruct (H1 _ _ Hid) as (entry & Hentry & Hh).
  split; rewrite ?E1, ?E2, ?E3, ?E4, ?E5.
  - intros id' h' Hl. apply lookup_delete_Some in Hl as [Hne Hl].
    destruct (H1 _ _ Hl) as (entry' & He' & Hh'). exists entry'.
    split; [exact He'|]. rewrite lookup_delete_ne; [exact Hh'|].
    intros ->. rewrite Hh in Hh'. congruence.
  - intros h' id' c ms Hl. apply lookup_delete_Some in Hl as [Hne Hl].
    pose proof (H2 _ _ _ _ Hl) as Hid'.
    rewrite lookup_delete_ne; [exact Hid'|]. intros ->. congruence.
  - intros h' ms Hl. apply lookup_delete_Some in Hl as [Hne Hl]. eauto.
  - intros h' e Hs Hl. apply lookup_delete_Some in Hl as [Hne Hl]. eauto.
Qed.

(** Clearing a timer that is not a check's. *)
Lemma registry_ok_clear s s' h :
  registry_ok s ->
  (forall e, timers s !! h = Some e -> isSchedulingDelay e = true) ->
  checks s' = checks s -> timeouts s' = timeouts s ->
  timers s' = delete h (timers s) -> timeout s' = timeout s ->
  (schedulingDelayExceededTimeout s' = schedulingDelayExceededTimeout s
   \/ (schedulingDelayExceededTimeout s' = None
       /\ schedulingDelayExceededTimeout s = Some h)) ->
  registry_ok s'.
Proof.
  intros [H1 H2 H3 H4] Hh E1 E2 E3 E4 E5.
  split; rewrite ?E1, ?E2, ?E3, ?E4.
  - intros id' h' Hl. destruct (H1 _ _ Hl) as (entry' & He' & Hh').
    exists entry'. split; [exact He'|]. rewrite lookup_delete_ne; [exact Hh'|].
    intros ->. apply Hh in Hh'. discriminate Hh'.
  - intros h' id' c ms Hl. apply lookup_delete_Some in Hl as [Hne Hl]. eauto.
  - intros h' ms Hl. apply lookup_delete_Some in Hl as [Hne Hl].
    pose proof (H3 _ _ Hl) as Hs.
    destruct E5 as [E5|[E5 E6]]; [congruence|]. congruence.
  - intros h' e Hs Hl. apply lookup_delete_Some in Hl as [Hne Hl].
    destruct E5 as [E5|[E5 E6]]; [|congruence]. rewrite E5 in Hs. eauto.
Qed.

Lemma registry_ok_disableTimeout s id h :
  registry_ok s -> timeouts s !! id = Some h ->
  registry_ok (disableTimeout id s).
Proof.
  intros H Hid. apply (registry_ok_remove s _ id h H Hid).
  - apply checks_disableTimeout.
  - apply timeouts_disableTimeout.
  - rewrite timers_disableTimeout, Hid. reflexivity.
  - apply timeout_disableTimeout.
  - apply schedulingDelayExceededTimeout_disableTimeout.
Qed.

Lemma registry_ok_emit ev s :
  isInProgress ev = false -> registry_ok s -> registry_ok (emit ev s).
Proof.
  intros Hev. apply registry_ok_ext.
  - apply checks_emit.
  - apply timeouts_emit.
  - apply timers_emit, Hev.
  - apply timeout_emit.
  - apply schedulingDelayExceededTimeout_emit.
Qed.

(** What the ["in-progress"] listener does to the timers. *)
Lemma timers_emit_inProgress check id s :
  timers (emit (CHECK_INPROGRESS check id) s) = timers s
  \/ exists h, schedulingDelayExceededTimeout s = Some h
             /\ timers (emit (CHECK_INPROGRESS check id) s)
                = delete h (timers s).
Proof.
  unfold emit, onCheckInProgress, clearTimeout. cbn -[Nat.eqb].
  destruct (monitor s) as [m|]; cbn -[Nat.eqb]; [|left; reflexivity].
  destruct (S (scheduledCheckCount m) =? monitor_numChecks m);
    cbn -[Nat.eqb]; [|left; reflexivity].
  destruct (schedulingDelayExceededTimeout s) as [h|]; cbn -[Nat.eqb];
    [right; exists h; split; reflexivity|left; reflexivity].
Qed.

Lemma registry_ok_emit_inProgress check id s :
  registry_ok s -> registry_ok (emit (CHECK_INPROGRESS check id) s).
Proof.
  intros H.
  destruct (timers_emit_inProgress check id s) as [E|(h & Hs & E)].
  - revert H. apply registry_ok_ext; auto using checks_emit, timeouts_emit,
      timeout_emit, schedulingDelayExceededTimeout_emit.
  - apply (registry_ok_clear s _ h H); auto using checks_emit, timeouts_emit,
      timeout_emit, schedulingDelayExceededTimeout_emit.
    intros e. apply (reg_handle _ H). exact Hs.
Qed.

(** ** The event stream under the methods that extend it *)

Lemma stream_ok_ext s s' :
  emitted s' = emitted s -> timeouts s' = timeouts s -> checks s' = checks s ->
  stream_ok s -> stream_ok s'.
Proof.
  intros E1 E2 E3 [H1 H2 H3 H4]. split; rewrite ?E1, ?E2, ?E3; assumption.
Qed.

Lemma stream_ok_shrink s s' id :
  emitted s' = emitted s -> timeouts s' = delete id (timeouts s) ->
  checks s' = checks s -> stream_ok s -> stream_ok s'.
Proof.
  intros E1 E2 E3 [H1 H2 H3 H4]. split; rewrite ?E1, ?E2, ?E3; try assumption.
  intros id' Hin. apply lookup_delete_None. right. auto.
Qed.

Lemma stream_ok_disableTimeout id s :
  stream_ok s -> stream_ok (disableTimeout id s).
Proof.
  apply (stream_ok_shrink s _ id).
  - apply emitted_disableTimeout.
  - apply timeouts_disableTimeout.
  - apply checks_disableTimeout.
Qed.

Lemma stream_ok_emit ev s :
  terminalId ev = None -> isFinished ev = false ->
  stream_ok s -> stream_ok (emit ev s).
Proof.
  intros Ht Hf [H1 H2 H3 H4].
  split; rewrite ?emitted_emit, ?timeouts_emit, ?checks_emit,
    ?(terminals_snoc_other _ _ Ht); try assumption.
  apply paired_other; assumption.
Qed.

Lemma terminals_snoc_pair (tr : list Event) ev check id :
  terminalId ev = Some id ->
  terminals ((tr ++ [ev]) ++ [CHECK_FINISHED check])
  = (terminals tr ++ [id])%list.
Proof.
  intros Ht.
  rewrite (terminals_snoc_other _ (CHECK_FINISHED check) eq_refl), terminals_app.
  unfold terminals at 2. simpl. rewrite Ht. reflexivity.
Qed.

(** Emitting a terminal event and ["finished"] for a check that has a
    record, no timeout entry and no terminal event yet. *)
Lemma stream_ok_emit_pair ev check id s :
  terminalId ev = Some id ->
  (paired (emitted s) -> paired (emitted s ++ [ev; CHECK_FINISHED check])) ->
  id ∉ terminals (emitted s) -> timeouts s !! id = None ->
  is_Some (checks s !! id) ->
  stream_ok s -> stream_ok (emit (CHECK_FINISHED check) (emit ev s)).
Proof.
  intros Ht Hp Hnew Hto Hck [H1 H2 H3 H4].
  split; rewrite ?emitted_emit, ?timeouts_emit, ?checks_emit,
    ?(terminals_snoc_pair _ _ _ _ Ht).
  - rewrite <- app_assoc. apply Hp, H1.
  - apply NoDup_app. split; [exact H2|]. split; [|apply NoDup_singleton].
    intros x Hx Hx'. apply list_elem_of_singleton in Hx'. subst. auto.
  - intros id' Hin. apply elem_of_app in Hin as [Hin|Hin]; [auto|].
    apply list_elem_of_singleton in Hin. subst. exact Hto.
  - intros id' Hin. apply elem_of_app in Hin as [Hin|Hin]; [auto|].
    apply list_elem_of_singleton in Hin. subst. exact Hck.
Qed.

(** ** The completion tracker *)

Lemma completion_ok_ext s s' :
  completion s' = completion s -> checks s' = checks s ->
  countEvents isFinished (emitted s') = countEvents isFinished (emitted s) ->
  completion_ok s -> completion_ok s'.
Proof.
  intros E1 E2 E3 H c Hc. rewrite E1 in Hc. rewrite E2, E3. apply H, Hc.
Qed.

Lemma completion_ok_emit ev s :
  isFinished ev = false -> completion_ok s -> completion_ok (emit ev s).
Proof.
  intros Hf. apply completion_ok_ext.
  - apply completion_emit, Hf.
  - apply checks_emit.
  - rewrite emitted_emit, countEvents_snoc, Hf. lia.
Qed.

Lemma completion_ok_disableTimeout id s :
  completion_ok s -> completion_ok (disableTimeout id s).
Proof.
  apply completion_ok_ext.
  - apply completion_disableTimeout.
  - apply checks_disableTimeout.
  - rewrite emitted_disableTimeout. reflexivity.
Qed.

Lemma completion_emit_finished check s :
  completion (emit (CHECK_FINISHED check) s)
  = match completion s with
    | Some c => if listening c then Some (onCheckFinished c) else Some c
    | None => None
    end.
Proof.
  unfold emit. cbn -[onCheckFinished].
  destruct (completion s) as [c|] eqn:E; [|exact E].
  destruct (listening c); [reflexivity|exact E].
Qed.

Lemma completion_ok_emit_finished check s :
  completion_ok s -> completion_ok (emit (CHECK_FINISHED check) s).
Proof.
  intros H c' Hc'. rewrite completion_emit_finished in Hc'.
  rewrite checks_emit, emitted_emit, countEvents_snoc. simpl.
  destruct (completion s) as [c|] eqn:Ec; [|discriminate].
  destruct (H c Ec) as (Hn & Hl & Hcount & Hr & Hcalls).
  destruct (listening c) eqn:El.
  - injection Hc' as <-. unfold onCheckFinished.
    destruct (S (finishedCheckCount c) =? numChecks c) eqn:Eq; simpl;
      rewrite ?El; simpl.
    + apply Nat.eqb_eq in Eq.
      repeat split; try assumption; try lia.
      * symmetry. apply Nat.leb_le. lia.
      * rewrite Hcalls, Hr.
        replace (numChecks c <=? finishedCheckCount c) with false; [reflexivity|].
        symmetry. apply Nat.leb_gt. lia.
    + apply Nat.eqb_neq in Eq.
      repeat split; try assumption; try lia.
      rewrite Hr. destruct (Nat.leb_spec (numChecks c) (finishedCheckCount c));
        symmetry; [apply Nat.leb_le|apply Nat.leb_gt]; lia.
  - injection Hc' as <-. rewrite El in *. repeat split; assumption.
Qed.

Lemma resolved_emit ev s c :
  completion s = Some c -> resolved c = true ->
  exists c', completion (emit ev s) = Some c' /\ resolved c' = true.
Proof.
  intros Hc Hr. destruct (isFinished ev) eqn:Hf.
  - destruct ev; try discriminate Hf.
    rewrite completion_emit_finished, Hc.
    destruct (listening c); [|eauto].
    eexists; split; [reflexivity|]. unfold onCheckFinished.
    destruct (_ =? _); simpl; auto.
  - rewrite (completion_emit _ _ Hf). eauto.
Qed.

(** ** The scheduling-delay monitor *)

Lemma is_Some_completion_emit ev s :
  is_Some (completion (emit ev s)) <-> is_Some (completion s).
Proof.
  destruct (isFinished ev) eqn:Hf.
  - destruct ev; try discriminate Hf. rewrite completion_emit_finished.
    destruct (completion s) as [c|]; [|reflexivity].
    destruct (listening c); split; eauto.
  - rewrite (completion_emit _ _ Hf). reflexivity.
Qed.

Lemma noSchedulingDelayTimer_delete h s s' :
  timers s' = delete h (timers s) ->
  noSchedulingDelayTimer s -> noSchedulingDelayTimer s'.
Proof.
  intros E H h' e Hl. rewrite E in Hl.
  apply lookup_delete_Some in Hl as [_ Hl]. eauto.
Qed.

(** Once the timer held in [schedulingDelayExceededTimeout] is gone, no
    scheduling-delay timer is pending. *)
Lemma noSchedulingDelayTimer_cleared s s' :
  registry_ok s ->
  match schedulingDelayExceededTimeout s with
  | Some h => timers s' = delete h (timers s)
  | None => timers s' = timers s
  end ->
  noSchedulingDelayTimer s'.
Proof.
  intros Hreg E h' [cb ms] Hl. destruct cb; [reflexivity|]. exfalso.
  destruct (schedulingDelayExceededTimeout s) as [h|] eqn:Es; rewrite E in Hl.
  - apply lookup_delete_Some in Hl as [Hne Hl].
    pose proof (reg_delay _ Hreg _ _ Hl). congruence.
  - pose proof (reg_delay _ Hreg _ _ Hl). congruence.
Qed.

Lemma monitor_ok_ext_timers s s' :
  monitor s' = monitor s -> checks s' = checks s ->
  countEvents isInProgress (emitted s')
  = countEvents isInProgress (emitted s) ->
  countEvents isDelayExceeded (emitted s')
  = countEvents isDelayExceeded (emitted s) ->
  schedulingDelayExceededTimeout s' = schedulingDelayExceededTimeout s ->
  (timers s' = timers s
   \/ exists h e, timers s !! h = Some e /\ isSchedulingDelay e = false
                  /\ timers s' = delete h (timers s)) ->
  (is_Some (completion s') <-> is_Some (completion s)) ->
  monitor_ok s -> monitor_ok s'.
Proof.
  intros E1 E2 E3 E4 E5 E6 E7. unfold monitor_ok. rewrite E1, E2, E3, E4, E5.
  assert (Hno : noSchedulingDelayTimer s -> noSchedulingDelayTimer s').
  { destruct E6 as [E6|(h & e & _ & _ & E6)].
    - unfold noSchedulingDelayTimer. rewrite E6. auto.
    - eapply noSchedulingDelayTimer_delete, E6. }
  destruct (monitor s) as [m|].
  - intros (H1 & H2 & H3 & H4). repeat split; try assumption.
    destruct (_ && _); [|auto].
    destruct H4 as (h0 & Hs & Ht). exists h0. split; [exact Hs|].
    destruct E6 as [E6|(h & e & He & Hns & E6)]; rewrite E6; [exact Ht|].
    rewrite lookup_delete_ne; [exact Ht|]. intros ->.
    rewrite Ht in He. injection He as <-. discriminate Hns.
  - intros (H1 & H2 & H3). repeat split; auto. intros Hc. apply H3, E7, Hc.
Qed.

Lemma monitor_ok_emit ev s :
  isInProgress ev = false -> isDelayExceeded ev = false ->
  monitor_ok s -> monitor_ok (emit ev s).
Proof.
  intros Hp Hd. apply monitor_ok_ext_timers.
  - apply monitor_emit, Hp.
  - apply checks_emit.
  - rewrite emitted_emit, countEvents_snoc, Hp. lia.
  - rewrite emitted_emit, countEvents_snoc, Hd. lia.
  - apply schedulingDelayExceededTimeout_emit.
  - left. apply timers_emit, Hp.
  - apply is_Some_completion_emit.
Qed.

Lemma monitor_ok_disableTimeout id h s :
  registry_ok s -> timeouts s !! id = Some h ->
  monitor_ok s -> monitor_ok (disableTimeout id s).
Proof.
  intros Hreg Hid. apply monitor_ok_ext_timers.
  - apply monitor_disableTimeout.
  - apply checks_disableTimeout.
  - rewrite emitted_disableTimeout. reflexivity.
  - rewrite emitted_disableTimeout. reflexivity.
  - apply schedulingDelayExceededTimeout_disableTimeout.
  - right. destruct (reg_armed _ Hreg _ _ Hid) as (entry & _ & Ht).
    eexists h, _. split; [exact Ht|]. split; [reflexivity|].
    rewrite timers_disableTimeout, Hid. reflexivity.
  - rewrite completion_disableTimeout. reflexivity.
Qed.

Lemma emit_inProgress_eq check id s :
  emit (CHECK_INPROGRESS check id) s
  = match monitor s with
    | Some m =>
        onCheckInProgress m
          (set_emitted (emitted s ++ [CHECK_INPROGRESS check id]) s)
    | None => set_emitted (emitted s ++ [CHECK_INPROGRESS check id]) s
    end.
Proof. reflexivity. Qed.

Lemma monitor_emit_inProgress check id s :
  monitor (emit (CHECK_INPROGRESS check id) s)
  = match monitor s with
    | Some m =>
        Some (mkSchedulingMonitor (S (scheduledCheckCount m))
                (monitor_numChecks m))
    | None => None
    end.
Proof.
  rewrite emit_inProgress_eq. destruct (monitor s) as [m|] eqn:Em; [|exact Em].
  unfold onCheckInProgress, clearTimeout. cbn -[Nat.eqb].
  destruct (_ =? _); [|reflexivity].
  destruct (schedulingDelayExceededTimeout s); reflexivity.
Qed.

Lemma timers_emit_inProgress_eq check id s :
  timers (emit (CHECK_INPROGRESS check id) s)
  = match monitor s with
    | Some m =>
        if S (scheduledCheckCount m) =? monitor_numChecks m
        then match schedulingDelayExceededTimeout s with
             | Some h => delete h (timers s)
             | None => timers s
             end
        else timers s
    | None => timers s
    end.
Proof.
  rewrite emit_inProgress_eq. destruct (monitor s) as [m|] eqn:Em; [|reflexivity].
  unfold onCheckInProgress, clearTimeout. cbn -[Nat.eqb].
  destruct (_ =? _); [|reflexivity].
  destruct (schedulingDelayExceededTimeout s); reflexivity.
Qed.

Lemma monitor_ok_emit_inProgress check id s :
  registry_ok s -> monitor_ok s ->
  monitor_ok (emit (CHECK_INPROGRESS check id) s).
Proof.
  intros Hreg H. unfold monitor_ok in *.
  pose proof (timers_emit_inProgress_eq check id s) as Etm.
  pose proof (is_Some_completion_emit (CHECK_INPROGRESS check id) s) as Ecomp.
  rewrite monitor_emit_inProgress.
  destruct (monitor s) as [m|] eqn:Em.
  - destruct H as (H1 & H2 & H3 & H4).
    cbn [scheduledCheckCount monitor_numChecks].
    rewrite checks_emit, emitted_emit, !countEvents_snoc,
      schedulingDelayExceededTimeout_emit.
    cbn [isInProgress isDelayExceeded]. rewrite Nat.add_0_r.
    repeat split; try assumption; try lia.
    destruct (S (scheduledCheckCount m) =? monitor_numChecks m) eqn:Eq.
    + apply Nat.eqb_eq in Eq.
      replace (S (scheduledCheckCount m) <? monitor_numChecks m) with false
        by (symmetry; apply Nat.ltb_ge; lia).
      cbn [andb]. apply (noSchedulingDelayTimer_cleared s); [exact Hreg|].
      rewrite Etm. destruct (schedulingDelayExceededTimeout s); reflexivity.
    + apply Nat.eqb_neq in Eq.
      assert (Hno : noSchedulingDelayTimer s ->
                    noSchedulingDelayTimer (emit (CHECK_INPROGRESS check id) s)).
      { unfold noSchedulingDelayTimer. rewrite Etm. auto. }
      destruct (Nat.ltb_spec (S (scheduledCheckCount m)) (monitor_numChecks m))
        as [Hlt|Hge]; cbn [andb].
      * replace (scheduledCheckCount m <? monitor_numChecks m) with true in H4
          by (symmetry; apply Nat.ltb_lt; lia).
        cbn [andb] in H4. rewrite Etm.
        destruct (_ =? 0); [exact H4|]. apply Hno, H4.
      * replace (scheduledCheckCount m <? monitor_numChecks m) with false in H4
          by (symmetry; apply Nat.ltb_ge; lia).
        cbn [andb] in H4. apply Hno, H4.
  - destruct H as (H1 & H2 & H3).
    rewrite checks_emit, schedulingDelayExceededTimeout_emit.
    repeat split; try assumption.
    + unfold noSchedulingDelayTimer. rewrite Etm. exact H1.
    + intros Hc. apply H3, Ecomp, Hc.
Qed.

Lemma monitor_ok_delay_fired t ms s :
  registry_ok s -> timers s !! t = Some (SchedulingDelayExceeded, ms) ->
  monitor_ok s ->
  monitor_ok (schedulingDelayCallback (set_timers (delete t (timers s)) s)).
Proof.
  intros Hreg Ht H. pose proof (reg_delay _ Hreg _ _ Ht) as Hs.
  set (s' := schedulingDelayCallback (set_timers (delete t (timers s)) s)).
  assert (Em : monitor s' = monitor s).
  { unfold s', schedulingDelayCallback. cbn [monitor set_schedulingDelayExceededTimeout].
    rewrite monitor_emit by reflexivity. reflexivity. }
  assert (Ec : checks s' = checks s).
  { unfold s', schedulingDelayCallback. cbn [checks set_schedulingDelayExceededTimeout].
    rewrite checks_emit. reflexivity. }
  assert (Ee : emitted s' = (emitted s ++ [MAX_SCHEDULING_DELAY_EXCEEDED])%list).
  { unfold s', schedulingDelayCallback. cbn [emitted set_schedulingDelayExceededTimeout].
    rewrite emitted_emit. reflexivity. }
  assert (Ecomp : completion s' = completion s).
  { unfold s', schedulingDelayCallback.
    cbn [completion set_schedulingDelayExceededTimeout].
    rewrite completion_emit by reflexivity. reflexivity. }
  assert (Hno : noSchedulingDelayTimer s').
  { apply (noSchedulingDelayTimer_cleared s); [exact Hreg|]. rewrite Hs.
    unfold s', schedulingDelayCallback.
    cbn [timers set_schedulingDelayExceededTimeout].
    rewrite timers_emit by reflexivity. reflexivity. }
  unfold monitor_ok in *. rewrite Em, Ec, Ee, Ecomp, !countEvents_snoc.
  cbn [isInProgress isDelayExceeded].
  destruct (monitor s) as [m|].
  - destruct H as (H1 & H2 & H3 & H4). repeat split; try assumption; try lia.
    replace (countEvents isDelayExceeded (emitted s) + 1 =? 0) with false
      by (symmetry; apply Nat.eqb_neq; lia).
    rewrite andb_false_r. exact Hno.
  - destruct H as (H1 & H2 & H3). repeat split; try assumption.
Qed.

(** ** Arming the timeouts *)

Lemma setAllTimeouts_fold (l : list (string * CheckEntry)) (s0 : State) :
  timers s0 = ∅ -> timeouts s0 = ∅ -> NoDup l.*1 ->
  let s' := foldl setOneTimeout s0 l in
  (checks s' = checks s0 /\ timeout s' = timeout s0
   /\ emitted s' = emitted s0
   /\ schedulingDelayExceededTimeout s' = schedulingDelayExceededTimeout s0
   /\ completion s' = completion s0 /\ monitor s' = monitor s0
   /\ queue s' = queue s0)
  /\ (forall id h,
        timeouts s' !! id = Some h ->
        exists entry,
          (id, entry) ∈ l
          /\ timers s' !! h
             = Some (CheckTimedOut id (check entry), (timeout s0 * 1000)%Z))
  /\ (forall h cb ms,
        timers s' !! h = Some (cb, ms) ->
        h < nextTimeout s'
        /\ exists id c, cb = CheckTimedOut id c /\ timeouts s' !! id = Some h)
  /\ (forall id entry, (id, entry) ∈ l -> is_Some (timeouts s' !! id)).
Proof.
  intros Htm Hto. induction l as [|[idx ex] l IH] using rev_ind; intros Hnd s'.
  - subst s'. simpl. repeat split; try reflexivity.
    + intros id h Hl. rewrite Hto, lookup_empty in Hl. discriminate.
    + rewrite Htm, lookup_empty in H. discriminate.
    + rewrite Htm, lookup_empty in H. discriminate.
    + intros id entry Hin. inversion Hin.
  - rewrite fmap_app in Hnd. apply NoDup_app in Hnd as (Hnd & Hfresh & _).
    specialize (IH Hnd). cbn zeta in IH.
    subst s'. rewrite foldl_app. cbn [foldl].
    set (s1 := foldl setOneTimeout s0 l) in *.
    destruct IH as ((E1 & E2 & E3 & E4 & E5 & E6 & E7) & Harm & Hown & Hall).
    assert (Hidx : forall id h, timeouts s1 !! id = Some h -> id <> idx).
    { intros id h Hl ->. destruct (Harm _ _ Hl) as (entry & Hin & _).
      apply (Hfresh idx).
      - apply list_elem_of_fmap. exists (idx, entry). split; [reflexivity|exact Hin].
      - simpl. apply list_elem_of_singleton. reflexivity. }
    unfold setOneTimeout, setTimeout.
    cbn [fst snd checks timeout emitted schedulingDelayExceededTimeout completion
           monitor queue timers timeouts nextTimeout set_timeouts set_timers
           set_nextTimeout].
    split; [repeat split; assumption|]. split; [|split].
    + intros id h Hl. destruct (decide (id = idx)) as [->|Hne].
      * rewrite lookup_insert_eq in Hl. injection Hl as <-.
        exists ex. split; [apply elem_of_app; right; apply list_elem_of_singleton;
                           reflexivity|].
        rewrite lookup_insert_eq, E2. reflexivity.
      * rewrite lookup_insert_ne in Hl by congruence.
        destruct (Harm _ _ Hl) as (entry & Hin & Ht). exists entry.
        split; [apply elem_of_app; left; exact Hin|].
        destruct (Hown _ _ _ Ht) as [Hlt _].
        rewrite lookup_insert_ne by lia. exact Ht.
    + intros h cb ms Hl. destruct (decide (h = nextTimeout s1)) as [->|Hne].
      * rewrite lookup_insert_eq in Hl. injection Hl as <- <-.
        split; [lia|]. exists idx, (check ex). split; [reflexivity|].
        apply lookup_insert_eq.
      * rewrite lookup_insert_ne in Hl by congruence.
        destruct (Hown _ _ _ Hl) as (Hlt & id & c & -> & Hid).
        split; [lia|]. exists id, c. split; [reflexivity|].
        rewrite lookup_insert_ne; [exact Hid|].
        intros <-. exact (Hidx _ _ Hid eq_refl).
    + intros id entry Hin. destruct (decide (id = idx)) as [->|Hne].
      * rewrite lookup_insert_eq. eauto.
      * rewrite lookup_insert_ne by congruence.
        apply elem_of_app in Hin as [Hin|Hin]; [eauto|].
        apply list_elem_of_singleton in Hin. congruence.
Qed.

Lemma elem_of_fold_checks (s : State) id entry :
  (id, entry) ∈ map_to_list (checks s) <-> checks s !! id = Some entry.
Proof. apply elem_of_map_to_list. Qed.

(** After [setAllTimeouts] on a state without timers, every check has an
    armed timeout and nothing else is pending. *)
Lemma setAllTimeouts_ok (s : State) :
  timers s = ∅ -> timeouts s = ∅ ->
  schedulingDelayExceededTimeout s = None ->
  let s' := setAllTimeouts s in
  registry_ok s'
  /\ (forall h cb ms,
        timers s' !! h = Some (cb, ms) ->
        h < nextTimeout s' /\ exists id c, cb = CheckTimedOut id c)
  /\ (forall id, is_Some (checks s !! id) -> is_Some (timeouts s' !! id))
  /\ (checks s' = checks s /\ timeout s' = timeout s
      /\ emitted s' = emitted s
      /\ schedulingDelayExceededTimeout s' = None
      /\ completion s' = completion s /\ monitor s' = monitor s
      /\ queue s' = queue s).
Proof.
  intros Htm Hto Hs s'.
  destruct (setAllTimeouts_fold (map_to_list (checks s)) s Htm Hto
              (NoDup_fst_map_to_list _))
    as ((E1 & E2 & E3 & E4 & E5 & E6 & E7) & Harm & Hown & Hall).
  fold (setAllTimeouts s) in *. fold s' in E1, E2, E3, E4, E5, E6, E7, Harm, Hown, Hall.
  split; [split|split; [|split]].
  - intros id h Hl. destruct (Harm _ _ Hl) as (entry & Hin & Ht).
    exists entry. rewrite E1, E2. split; [|exact Ht].
    apply elem_of_fold_checks, Hin.
  - intros h id c ms Hl. destruct (Hown _ _ _ Hl) as (_ & id' & c' & Hc & Hid).
    congruence.
  - intros h ms Hl. destruct (Hown _ _ _ Hl) as (_ & id' & c' & Hc & _).
    discriminate Hc.
  - intros h e Hsd. congruence.
  - intros h cb ms Hl. destruct (Hown _ _ _ Hl) as (Hlt & id & c & Hc & _). eauto.
  - intros id [entry Hentry]. apply (Hall id entry), elem_of_fold_checks, Hentry.
  - repeat split; congruence.
Qed.

Lemma arming_ok (s : State) :
  registry_ok s ->
  (forall h cb ms,
     timers s !! h = Some (cb, ms) ->
     h < nextTimeout s /\ exists id c, cb = CheckTimedOut id c) ->
  schedulingDelayExceededTimeout s = None -> monitor s = None ->
  completion s = None -> emitted s = [] ->
  let s' := allChecksFinished (startSchedulingDelayTimeout s) in
  registry_ok s' /\ monitor_ok s' /\ completion_ok s'
  /\ is_Some (completion s')
  /\ emitted s' = [] /\ checks s' = checks s /\ timeouts s' = timeouts s
  /\ queue s' = queue s.
Proof.
  intros [R1 R2 R3 R4] Hown Hsd Hmon Hcomp Hem s'. subst s'.
  unfold allChecksFinished, startSchedulingDelayTimeout, setTimeout.
  destruct (size (checks s) =? 0) eqn:Esize.
  - rewrite Esize. apply Nat.eqb_eq in Esize.
    cbn [checks set_completion].
    split; [split; assumption|]. split; [|split].
    + unfold monitor_ok. cbn [monitor set_completion]. rewrite Hmon.
      cbn [timers schedulingDelayExceededTimeout checks set_completion].
      split; [|split; [assumption|intros _; exact Esize]].
      intros h [cb ms] Hl. destruct (Hown _ _ _ Hl) as (_ & id & c & ->).
      reflexivity.
    + intros c Hc. cbn [completion set_completion checks emitted] in *.
      injection Hc as <-. cbn. rewrite Esize. repeat split.
    + cbn. repeat split; eauto.
  - cbn [checks set_completion set_monitor set_schedulingDelayExceededTimeout
           set_nextTimeout set_timers].
    rewrite Esize. apply Nat.eqb_neq in Esize.
    set (n := nextTimeout s).
    assert (Hfresh : timers s !! n = None).
    { destruct (timers s !! n) as [[cb ms]|] eqn:El; [|reflexivity].
      destruct (Hown _ _ _ El) as [Hlt _]. unfold n in Hlt. lia. }
    split; [|split; [|split]].
    + split; cbn [checks timeouts timers timeout schedulingDelayExceededTimeout
                    set_completion set_monitor set_schedulingDelayExceededTimeout
                    set_nextTimeout set_timers].
      * intros id h Hl. destruct (R1 _ _ Hl) as (entry & He & Ht).
        exists entry. split; [exact He|].
        rewrite lookup_insert_ne; [exact Ht|]. intros <-. congruence.
      * intros h id c ms Hl. destruct (decide (n = h)) as [<-|Hne].
        -- rewrite lookup_insert_eq in Hl. discriminate Hl.
        -- rewrite lookup_insert_ne in Hl by exact Hne. eauto.
      * intros h ms Hl. destruct (decide (n = h)) as [<-|Hne]; [reflexivity|].
        rewrite lookup_insert_ne in Hl by exact Hne.
        destruct (Hown _ _ _ Hl) as (_ & id & c & Hc). discriminate Hc.
      * intros h e Hh Hl. injection Hh as <-.
        rewrite lookup_insert_eq in Hl. injection Hl as <-. reflexivity.
    + unfold monitor_ok.
      cbn [monitor checks emitted timers schedulingDelayExceededTimeout
             set_completion set_monitor set_schedulingDelayExceededTimeout
             set_nextTimeout set_timers scheduledCheckCount monitor_numChecks].
      rewrite Hem. cbn [countEvents List.filter length].
      repeat split; try lia.
      replace (0 <? size (checks s)) with true
        by (symmetry; apply Nat.ltb_lt; lia).
      cbn. exists n. split; [reflexivity|]. apply lookup_insert_eq.
    + intros c Hc. cbn [completion set_completion checks emitted set_monitor
                          set_schedulingDelayExceededTimeout set_nextTimeout
                          set_timers] in *.
      injection Hc as <-. cbn [numChecks listening finishedCheckCount resolved
                                 resolveCalls andb].
      rewrite Hem. cbn [countEvents List.filter length].
      repeat split.
      * symmetry. apply negb_true_iff, Nat.eqb_neq, Esize.
      * symmetry. apply Nat.leb_gt. lia.
    + cbn. repeat split; eauto.
Qed.

(** ** The state invariant, method by method *)

Lemma state_ok_queue q s : state_ok s -> state_ok (set_queue q s).
Proof.
  intros (H1 & H2 & H3 & H4). split; [|split; [|split]].
  - revert H1. apply registry_ok_ext; reflexivity.
  - revert H2. apply stream_ok_ext; reflexivity.
  - revert H3. apply completion_ok_ext; reflexivity.
  - revert H4. apply monitor_ok_ext_timers; try reflexivity. left. reflexivity.
Qed.

Lemma state_ok_disableTimeout id h s :
  state_ok s -> timeouts s !! id = Some h -> state_ok (disableTimeout id s).
Proof.
  intros (H1 & H2 & H3 & H4) Hid. split; [|split; [|split]].
  - eapply registry_ok_disableTimeout; eassumption.
  - apply stream_ok_disableTimeout, H2.
  - apply completion_ok_disableTimeout, H3.
  - eapply monitor_ok_disableTimeout; eassumption.
Qed.

Lemma state_ok_emit ev s :
  terminalId ev = None -> isFinished ev = false -> isInProgress ev = false ->
  isDelayExceeded ev = false -> state_ok s -> state_ok (emit ev s).
Proof.
  intros Ht Hf Hp Hd (H1 & H2 & H3 & H4). split; [|split; [|split]].
  - apply registry_ok_emit; assumption.
  - apply stream_ok_emit; assumption.
  - apply completion_ok_emit; assumption.
  - apply monitor_ok_emit; assumption.
Qed.

Lemma state_ok_emit_inProgress check id s :
  state_ok s -> state_ok (emit (CHECK_INPROGRESS check id) s).
Proof.
  intros (H1 & H2 & H3 & H4). split; [|split; [|split]].
  - apply registry_ok_emit_inProgress, H1.
  - apply stream_ok_emit; [reflexivity|reflexivity|exact H2].
  - apply completion_ok_emit; [reflexivity|exact H3].
  - apply monitor_ok_emit_inProgress; assumption.
Qed.

Lemma state_ok_emit_pair ev id check s :
  terminalPair ev id check ->
  id ∉ terminals (emitted s) -> timeouts s !! id = None ->
  is_Some (checks s !! id) ->
  state_ok s -> state_ok (emit (CHECK_FINISHED check) (emit ev s)).
Proof.
  intros Hev Hnew Hto Hck (H1 & H2 & H3 & H4).
  assert (Hfacts : terminalId ev = Some id /\ isFinished ev = false
                   /\ isInProgress ev = false /\ isDelayExceeded ev = false
                   /\ (paired (emitted s) ->
                       paired (emitted s ++ [ev; CHECK_FINISHED check]))).
  { destruct Hev as [(m & ->)|(r & l & ->)]; repeat split; intros Hp.
    - apply paired_failed, Hp.
    - apply paired_successful, Hp. }
  destruct Hfacts as (Ht & Hf & Hp & Hd & Hpair).
  split; [|split; [|split]].
  - apply registry_ok_emit; [reflexivity|]. apply registry_ok_emit; assumption.
  - eapply stream_ok_emit_pair; eassumption.
  - apply completion_ok_emit_finished, completion_ok_emit; assumption.
  - apply monitor_ok_emit; [reflexivity|reflexivity|].
    apply monitor_ok_emit; assumption.
Qed.

Lemma state_ok_delay_fired t ms s :
  state_ok s -> timers s !! t = Some (SchedulingDelayExceeded, ms) ->
  state_ok (schedulingDelayCallback (set_timers (delete t (timers s)) s)).
Proof.
  intros (H1 & H2 & H3 & H4) Ht. unfold schedulingDelayCallback.
  split; [|split; [|split]].
  - apply (registry_ok_clear s _ t H1).
    + intros e He. rewrite Ht in He. injection He as <-. reflexivity.
    + reflexivity.
    + reflexivity.
    + reflexivity.
    + reflexivity.
    + right. split; [reflexivity|]. eapply reg_delay; eassumption.
  - apply (stream_ok_ext (emit MAX_SCHEDULING_DELAY_EXCEEDED s));
      [reflexivity|reflexivity|reflexivity|].
    apply stream_ok_emit; [reflexivity|reflexivity|exact H2].
  - apply (completion_ok_ext s); [reflexivity|reflexivity| |exact H3].
    cbn [emitted set_schedulingDelayExceededTimeout].
    rewrite emitted_emit, countEvents_snoc.
    cbn [emitted set_timers isFinished]. apply Nat.add_0_r.
  - eapply monitor_ok_delay_fired; eassumption.
Qed.

Lemma fire_check_eq t id c s :
  timeouts s !! id = Some t ->
  fire (CheckTimedOut id c) (set_timers (delete t (timers s)) s)
  = emit (CHECK_FINISHED c)
      (emit (CHECK_FAILED id c (JStr (timeoutErrorMessage (timeout s))))
         (disableTimeout id s)).
Proof.
  intros Hid. unfold fire, checkTimeoutCallback, disableTimeout, clearTimeout.
  rewrite Hid. reflexivity.
Qed.

Lemma state_ok_check_fired t id c ms s :
  state_ok s -> timers s !! t = Some (CheckTimedOut id c, ms) ->
  state_ok (fire (CheckTimedOut id c) (set_timers (delete t (timers s)) s))
  /\ timeouts s !! id = Some t.
Proof.
  intros Hok Ht. pose proof Hok as (H1 & H2 & H3 & H4).
  pose proof (reg_owned _ H1 _ _ _ _ Ht) as Hid. split; [|exact Hid].
  destruct (reg_armed _ H1 _ _ Hid) as (entry & Hentry & Ht').
  rewrite Ht in Ht'. injection Ht' as -> _.
  rewrite (fire_check_eq _ _ _ _ Hid).
  apply (state_ok_emit_pair _ id).
  - left. eexists. reflexivity.
  - rewrite emitted_disableTimeout. intros Hin.
    pose proof (str_resolved _ H2 _ Hin). congruence.
  - rewrite timeouts_disableTimeout. apply lookup_delete_eq.
  - rewrite checks_disableTimeout. eauto.
  - eapply state_ok_disableTimeout; eassumption.
Qed.

Lemma newChecksMap_nil : newChecksMap [] = ∅.
Proof. reflexivity. Qed.

Lemma run_scheduled_ok tsid cks s :
  pristine s -> emitted s = [] ->
  let s' := run_scheduled tsid cks s in
  state_ok s' /\ is_Some (completion s')
  /\ emitted s' = [RUN_STARTED cks tsid]
  /\ checks s' = newChecksMap cks
  /\ (forall id, is_Some (checks s' !! id) -> is_Some (timeouts s' !! id)).
Proof.
  intros [P1 P2 P3 P4 P5 P6 P7] Hem s'. subst s'. unfold run_scheduled.
  set (s1 := set_checks (newChecksMap cks) (set_testSessionId tsid s)).
  destruct (setAllTimeouts_ok s1 P3 P2 P4)
    as (Hreg & Hown & Hall & (E1 & E2 & E3 & E4 & E5 & E6 & E7)).
  set (s2 := setAllTimeouts s1) in *.
  destruct (arming_ok s2 Hreg Hown E4) as (Hreg4 & Hmon4 & Hcomp4 & Hsome
                                          & Hem4 & Eck & Eto & Eq).
  { rewrite E6. exact P6. }
  { rewrite E5. exact P5. }
  { rewrite E3. exact Hem. }
  set (s4 := allChecksFinished (startSchedulingDelayTimeout s2)) in *.
  assert (Hstream4 : stream_ok s4).
  { split; rewrite Hem4.
    - constructor.
    - constructor.
    - intros id Hin. inversion Hin.
    - intros id Hin. inversion Hin. }
  assert (Hok5 : state_ok (emit (RUN_STARTED cks tsid) s4)).
  { apply state_ok_emit; try reflexivity.
    split; [|split; [|split]]; assumption. }
  split; [apply state_ok_queue, Hok5|].
  unfold queue_start.
  cbn [completion emitted checks timeouts set_queue].
  rewrite is_Some_completion_emit, emitted_emit, checks_emit, timeouts_emit,
    Hem4, Eck, Eto, E1.
  split; [exact Hsome|]. split; [reflexivity|]. split; [reflexivity|].
  intros id Hid. apply Hall. exact Hid.
Qed.

(** ** Suspended computations *)

Lemma quiet_weaken {A} (Q R : A -> Prop) s st :
  (forall a, Q a -> R a) -> quiet Q s st -> quiet R s st.
Proof.
  intros HQR H. induction H; constructor; auto.
Qed.

Lemma quiet_bind {A B} (Q : A -> Prop) (R : B -> Prop) s st (f : A -> Async B) :
  quiet Q s st -> (forall a s', Q a -> quiet R s' (f a s')) ->
  quiet R s (bindStep st f).
Proof.
  intros H Hf. induction H; cbn [bindStep]; [auto|constructor|constructor; auto].
Qed.

Lemma quiet_catch {A} (Q : A -> Prop) s st (h : JSValue -> Async A) :
  quiet Q s st -> (forall e s', quiet Q s' (h e s')) ->
  quiet Q s (catchStep st h).
Proof.
  intros H Hh. induction H; cbn [catchStep]; [constructor; auto|auto|constructor; auto].
Qed.

Lemma quiet_bind_tail {A} (Q : A -> Prop) id check s st (f : A -> Async unit) :
  quiet Q s st -> (forall a s', Q a -> run_end_tail id check s' (f a s')) ->
  run_end_tail id check s (bindStep st f).
Proof.
  intros H Hf. induction H; cbn [bindStep]; [auto|constructor|constructor; auto].
Qed.

Lemma quiet_getProp v k s : quiet (fun _ => True) s (getProp v k s).
Proof. unfold getProp. destruct (nullish v); constructor; exact I. Qed.

Lemma quiet_await c s : quiet (fun _ => True) s (Async.await c s).
Proof. constructor. intros [v|e] s'; constructor; exact I. Qed.

Lemma quiet_processCheckResult result s :
  quiet (fun _ => True) s (processCheckResult result s).
Proof.
  unfold processCheckResult. async_unfold.
  eapply quiet_bind; [apply quiet_getProp|]. intros assets s1 _.
  eapply quiet_bind; [apply quiet_getProp|]. intros region s2 _.
  eapply quiet_bind; [apply quiet_getProp|]. intros logPath s3 _.
  eapply quiet_bind; [apply quiet_getProp|]. intros dataPath s4 _.
  cbn [bindStep].
  eapply (quiet_bind (fun _ => True)).
  { destruct (_ && _).
    - constructor. intros [v|e] s'; cbn [bindStep]; constructor; exact I.
    - constructor; exact I. }
  intros result1 s5 _. cbn [bindStep].
  eapply (quiet_bind (fun _ => True)).
  { destruct (_ && _).
    - constructor. intros [v|e] s'; cbn [bindStep]; constructor; exact I.
    - constructor; exact I. }
  intros result2 s6 _. constructor; exact I.
Qed.

Lemma quiet_getShortLinks testResultId s :
  quiet (fun _ => True) s (getShortLinks testResultId s).
Proof.
  unfold getShortLinks. async_unfold.
  apply quiet_catch; [|intros; constructor; exact I].
  cbn [bindStep]. destruct (negb _); [constructor; exact I|].
  constructor. intros [response|e] s1; cbn [bindStep]; [|constructor].
  eapply quiet_bind; [apply quiet_getProp|]. intros; constructor; exact I.
Qed.

Lemma processMessage_run_end_tail id message s h entry :
  timeouts s !! id = Some h -> checks s !! id = Some entry ->
  run_end_tail id (check entry) (disableTimeout id s)
    (processMessage id "run-end" message s).
Proof.
  intros Ht Hc. rewrite (processMessage_run_end _ _ _ _ _ Ht Hc).
  eapply quiet_bind_tail; [apply quiet_getProp|]. intros result s1 _.
  async_unfold.
  eapply quiet_bind_tail; [apply quiet_processCheckResult|]. intros r s2 _.
  eapply (quiet_bind_tail (fun _ => True)).
  { destruct (negb _); [constructor; exact I|].
    destruct (negb _); [constructor; exact I|]. apply quiet_getShortLinks. }
  intros links s3 _. cbn [bindStep]. constructor.
Qed.

(** The other subtopics. *)
Lemma processMessage_dispatch id subtopic message s h entry :
  timeouts s !! id = Some h -> checks s !! id = Some entry ->
  (subtopic = "run-start"
   /\ processMessage id subtopic message s
      = Returned (emit (CHECK_INPROGRESS (check entry) id) s) tt)
  \/ subtopic = "run-end"
  \/ (subtopic = "error"
      /\ processMessage id subtopic message s
         = Returned
             (emit (CHECK_FINISHED (check entry))
                (emit (CHECK_FAILED id (check entry) message)
                   (disableTimeout id s))) tt)
  \/ processMessage id subtopic message s = Returned s tt.
Proof.
  intros Ht Hc. unfold processMessage. async_unfold.
  cbn -[disableTimeout emit getProp processCheckResult getShortLinks String.eqb].
  rewrite Ht, Hc.
  cbn -[disableTimeout emit getProp processCheckResult getShortLinks String.eqb].
  destruct (String.eqb_spec subtopic "run-start") as [->|_];
    [left; split; reflexivity|].
  destruct (String.eqb_spec subtopic "run-end") as [->|_];
    [right; left; reflexivity|].
  destruct (String.eqb_spec subtopic "error") as [->|_];
    [right; right; left; split; reflexivity|].
  right; right; right; reflexivity.
Qed.

(** ** The invariant, step by step *)

Lemma keeps_refl s : keeps s s.
Proof. split; [eauto|split; reflexivity]. Qed.

Lemma keeps_trans s1 s2 s3 : keeps s1 s2 -> keeps s2 s3 -> keeps s1 s3.
Proof.
  intros (A1 & A2 & A3) (B1 & B2 & B3). split; [|split; congruence].
  intros c Hc. destruct (A1 c Hc) as (c' & Hc' & Hr).
  destruct (B1 c' Hc') as (c'' & Hc'' & Hr'). eauto.
Qed.

Lemma keeps_same s s' :
  completion s' = completion s -> emitted s' = emitted s -> keeps s s'.
Proof.
  intros E1 E2. split; [|split; rewrite E2; reflexivity].
  intros c Hc. exists c. rewrite E1. auto.
Qed.

Lemma keeps_emit ev s :
  isRunFinished ev = false -> isError ev = false -> keeps s (emit ev s).
Proof.
  intros Hr He. split; [|split].
  - intros c Hc. destruct (isFinished ev) eqn:Hf.
    + destruct ev; try discriminate Hf. rewrite completion_emit_finished, Hc.
      destruct (listening c); [|eauto].
      eexists; split; [reflexivity|]. unfold onCheckFinished.
      destruct (_ =? _); simpl; auto.
    + rewrite (completion_emit _ _ Hf). eauto.
  - rewrite emitted_emit, countEvents_snoc, Hr. lia.
  - rewrite emitted_emit, countEvents_snoc, He. lia.
Qed.

Lemma keeps_disableTimeout id s : keeps s (disableTimeout id s).
Proof.
  apply keeps_same; [apply completion_disableTimeout|apply emitted_disableTimeout].
Qed.

Lemma invariant_state w : invariant w -> state_ok (this w).
Proof. intros [H1 H2 H3 H4 _ _ _]. split; [|split; [|split]]; assumption. Qed.

Lemma invariant_intro w :
  state_ok (this w) -> phase_ok w -> socket_ok w -> current_ok w ->
  invariant w.
Proof. intros (H1 & H2 & H3 & H4) H5 H6 H7. split; assumption. Qed.

Lemma phase_ok_late w w' :
  phase_ok w -> late (phase w) -> phase w' = phase w ->
  keeps (this w) (this w') -> phase_ok w'.
Proof.
  unfold phase_ok. intros H Hlate Ep (K1 & K2 & K3). rewrite Ep.
  destruct (phase w) as [| | | | |[|]|[|]]; try contradiction;
    rewrite K2, K3.
  - destruct H as ([c Hc] & H2 & H3). split; [|split; assumption].
    destruct (K1 c Hc) as (c' & Hc' & _). eauto.
  - destruct H as ((c & Hc & Hr) & H2 & H3). split; [|split; assumption].
    destruct (K1 c Hc) as (c' & Hc' & Hr'). eauto.
  - destruct H as ((c & Hc & Hr) & H2 & H3). split; [|split; assumption].
    destruct (K1 c Hc) as (c' & Hc' & Hr'). eauto.
Qed.

Lemma late_unpaused w :
  phase_ok w -> isPaused (queue (this w)) = false -> late (phase w).
Proof.
  unfold phase_ok. intros H Hq.
  destruct (phase w) as [| | | | |[|]|[|]]; try exact I;
    destruct H as ([] & _); congruence.
Qed.

Lemma late_timer w t x :
  phase_ok w -> timers (this w) !! t = Some x -> late (phase w).
Proof.
  unfold phase_ok. intros H Ht.
  destruct (phase w) as [| | | | |[|]|[|]]; try exact I;
    destruct H as ([] & _);
    match goal with
    | E : timers _ = ∅ |- _ => rewrite E, lookup_empty in Ht; discriminate Ht
    end.
Qed.

Lemma late_current w x :
  phase_ok w -> current w = Some x -> late (phase w).
Proof.
  unfold phase_ok. intros H Hc.
  destruct (phase w) as [| | | | |[|]|[|]]; try exact I;
    destruct H as (_ & _ & H); congruence.
Qed.

Lemma socket_ok_grow w w' :
  phase w' = phase w -> socketClient w' = socketClient w ->
  (forall c, c ∈ calls w -> c ∈ calls w') -> socket_ok w -> socket_ok w'.
Proof.
  unfold socket_ok. intros E1 E2 Hc. rewrite E1, E2.
  destruct (phase w); auto.
Qed.

Lemma current_ok_keep w w' :
  current w' = current w -> checks (this w') = checks (this w) ->
  (forall id, timeouts (this w) !! id = None ->
              timeouts (this w') !! id = None) ->
  (forall id, id ∈ terminals (emitted (this w')) ->
              id ∈ terminals (emitted (this w))
              \/ timeouts (this w) !! id <> None) ->
  current_ok w -> current_ok w'.
Proof.
  unfold current_ok. intros E1 E2 Hto Hterm. rewrite E1, E2.
  destruct (current w) as [[c k]|]; [|auto].
  intros (id & entry & Hc & Ht & Hn & Hk). exists id, entry.
  split; [exact Hc|]. split; [auto|]. split; [|exact Hk].
  intros Hin. destruct (Hterm _ Hin) as [H|H]; [auto|]. congruence.
Qed.

(** The queue settles a [run-end] task, or leaves it suspended. *)
Lemma advance_tail w s id entry st :
  state_ok s -> phase_ok w -> late (phase w) -> keeps (this w) s ->
  socket_ok w ->
  checks s !! id = Some entry -> timeouts s !! id = None ->
  id ∉ terminals (emitted s) ->
  run_end_tail id (check entry) s st ->
  invariant (advance st w).
Proof.
  intros Hok Hph Hlate Hkeep Hsock Hck Hto Hnew Htail.
  destruct Htail as [s result links|s e|s c k Hk]; unfold advance.
  - apply invariant_intro; cbn [this phase socketClient calls current].
    + apply (state_ok_emit_pair _ id); eauto.
      right. eexists _, _. reflexivity.
    + apply (phase_ok_late w); [assumption|assumption|reflexivity|].
      cbn [this]. eapply keeps_trans; [exact Hkeep|].
      eapply keeps_trans; apply keeps_emit; reflexivity.
    + revert Hsock. apply socket_ok_grow; auto.
    + exact I.
  - apply invariant_intro; cbn [this phase socketClient calls current].
    + exact Hok.
    + apply (phase_ok_late w); [assumption|assumption|reflexivity|exact Hkeep].
    + revert Hsock. apply socket_ok_grow; auto.
    + exact I.
  - apply invariant_intro; cbn [this phase socketClient calls current].
    + exact Hok.
    + apply (phase_ok_late w); [assumption|assumption|reflexivity|exact Hkeep].
    + revert Hsock. apply socket_ok_grow; [reflexivity|reflexivity|].
      cbn [calls]. intros c' Hin. apply elem_of_app. left. exact Hin.
    + unfold current_ok. cbn [current this]. exists id, entry. auto.
Qed.

Lemma step_Message topic message w :
  step (Message topic message) w
  = if listenerInstalled (phase w)
    then Some (set_this (onMessage topic message (this w)) w)
    else None.
Proof. unfold step. destruct (phase w); reflexivity. Qed.

Lemma step_QueueNext w :
  step QueueNext w
  = match current w, isPaused (queue (this w)), pending (queue (this w)) with
    | None, false, t :: rest =>
        Some (advance
                (processMessage (task_checkRunId t) (task_subtopic t)
                   (task_message t)
                   (set_queue (mkPQueue false rest) (this w))) w)
    | _, _, _ => None
    end.
Proof. unfold step. destruct (phase w); reflexivity. Qed.

Lemma step_Settled o w :
  step (Settled o) w
  = match current w with
    | Some (_, k) => Some (advance (k o (this w)) w)
    | None => None
    end.
Proof. unfold step. destruct (phase w); reflexivity. Qed.

Lemma step_TimerFired t w :
  step (TimerFired t) w
  = match timers (this w) !! t with
    | Some (callback, _) =>
        Some (set_this
                (fire callback (set_timers (delete t (timers (this w))) (this w)))
                w)
    | None => None
    end.
Proof. unfold step. destruct (phase w); reflexivity. Qed.

Lemma disableAllTimeouts_pristine s : pristine s -> disableAllTimeouts s = s.
Proof.
  intros [P1 P2 P3 P4 P5 P6 P7]. unfold disableAllTimeouts.
  rewrite P1, map_to_list_empty. cbn [foldl]. rewrite P4. reflexivity.
Qed.

Lemma pristine_emit ev s :
  isInProgress ev = false -> isFinished ev = false ->
  pristine s -> pristine (emit ev s).
Proof.
  intros Hp Hf [P1 P2 P3 P4 P5 P6 P7].
  split; rewrite ?checks_emit, ?timeouts_emit, ?timers_emit,
    ?schedulingDelayExceededTimeout_emit, ?completion_emit, ?monitor_emit,
    ?queue_emit by assumption; assumption.
Qed.

Lemma pristine_onMessage topic message s :
  pristine s -> pristine (onMessage topic message s).
Proof.
  intros [P1 P2 P3 P4 P5 P6 P7]. unfold onMessage.
  destruct (_ !! 4); [|split; assumption].
  destruct (_ !! 5); split; assumption.
Qed.

Lemma onMessage_frame topic message s :
  exists q, onMessage topic message s = set_queue q s
            /\ isPaused q = isPaused (queue s).
Proof.
  unfold onMessage, queue_add.
  destruct (_ !! 4); [destruct (_ !! 5)|]; try (eexists; split; reflexivity);
    exists (queue s); (split; [|reflexivity]); destruct s; reflexivity.
Qed.

Lemma run_throw_ok err w :
  invariant w -> pristine (this w) -> emitted (this w) = [] ->
  current w = None -> invariant (run_throw err w).
Proof.
  intros Hinv Hpr Hem Hcur. unfold run_throw, run_catch.
  rewrite (disableAllTimeouts_pristine _ Hpr).
  assert (Hst : state_ok (emit (ERROR err) (this w))).
  { apply state_ok_emit; try reflexivity. apply invariant_state, Hinv. }
  assert (Hpr' : pristine (emit (ERROR err) (this w))).
  { apply pristine_emit; auto. }
  assert (Hem' : emitted (emit (ERROR err) (this w)) = [ERROR err]).
  { rewrite emitted_emit, Hem. reflexivity. }
  unfold run_finally. cbn [socketClient set_this].
  destruct (socketClient w) eqn:Es; apply invariant_intro;
    try exact Hst; unfold phase_ok, socket_ok, current_ok;
    cbn [phase this current socketClient calls set_phase call set_this];
    rewrite ?Hcur; eauto.
  - intros _. apply elem_of_app. right. apply list_elem_of_singleton.
    reflexivity.
  - rewrite Es. intros [x Hx]. discriminate Hx.
Qed.

(** Every step of the event loop preserves the invariant. *)
Lemma step_invariant l w w' :
  invariant w -> step l w = Some w' -> invariant w'.
Proof.
  intros Hinv Hstep. pose proof (invariant_state _ Hinv) as Hst.
  pose proof (inv_phase _ Hinv) as Hph.
  pose proof (inv_socket _ Hinv) as Hsock.
  pose proof (inv_current _ Hinv) as Hcur.
  destruct l.
  - (* Run *)
    unfold step in Hstep. destruct (phase w) eqn:Ep; try discriminate.
    injection Hstep as <-. unfold phase_ok in Hph. rewrite Ep in Hph.
    apply invariant_intro; [exact Hst| | |exact Hcur].
    + unfold phase_ok. cbn. exact Hph.
    + unfold socket_ok. cbn. exact I.
  - (* Connected *)
    unfold step in Hstep. destruct (phase w) eqn:Ep; try discriminate.
    injection Hstep as <-. unfold phase_ok in Hph. rewrite Ep in Hph.
    apply invariant_intro; [exact Hst| | |exact Hcur].
    + unfold phase_ok. cbn. exact Hph.
    + unfold socket_ok. cbn. exact I.
  - (* ConnectFailed *)
    unfold step in Hstep. destruct (phase w) eqn:Ep; try discriminate.
    injection Hstep as <-. unfold phase_ok in Hph. rewrite Ep in Hph.
    destruct Hph as (H1 & H2 & H3). apply run_throw_ok; assumption.
  - (* Subscribed *)
    unfold step in Hstep. destruct (phase w) eqn:Ep; try discriminate.
    injection Hstep as <-. unfold phase_ok in Hph. rewrite Ep in Hph.
    apply invariant_intro; [exact Hst| | |exact Hcur].
    + unfold phase_ok. cbn. exact Hph.
    + unfold socket_ok. cbn. exact I.
  - (* SubscribeFailed *)
    unfold step in Hstep. destruct (phase w) eqn:Ep; try discriminate.
    injection Hstep as <-. unfold phase_ok in Hph. rewrite Ep in Hph.
    destruct Hph as (H1 & H2 & H3). apply run_throw_ok; assumption.
  - (* Scheduled *)
    unfold step in Hstep. destruct (phase w) eqn:Ep; try discriminate.
    injection Hstep as <-. unfold phase_ok in Hph. rewrite Ep in Hph.
    destruct Hph as (H1 & H2 & H3).
    destruct (run_scheduled_ok testSessionId0 checks0 (this w) H1 H2)
      as (Hok & Hsome & Hem & _).
    apply invariant_intro.
    + exact Hok.
    + unfold phase_ok. cbn [phase this set_phase set_this].
      rewrite Hem. split; [exact Hsome|]. split; reflexivity.
    + unfold socket_ok. cbn. exact I.
    + unfold current_ok. cbn [current set_phase set_this]. rewrite H3. exact I.
  - (* ScheduleFailed *)
    unfold step in Hstep. destruct (phase w) eqn:Ep; try discriminate.
    injection Hstep as <-. unfold phase_ok in Hph. rewrite Ep in Hph.
    destruct Hph as (H1 & H2 & H3). apply run_throw_ok; assumption.
  - (* Completed *)
    unfold step in Hstep. destruct (phase w) eqn:Ep; try discriminate.
    destruct (completion (this w)) as [c|] eqn:Ec; [|discriminate].
    destruct (resolved c) eqn:Er; [|discriminate].
    injection Hstep as <-. unfold phase_ok in Hph. rewrite Ep in Hph.
    destruct Hph as (H1 & H2 & H3).
    set (s' := emit (RUN_FINISHED (testSessionId (this w))) (this w)).
    assert (Hst' : state_ok s').
    { apply state_ok_emit; try reflexivity. exact Hst. }
    assert (Hph' : (exists c, completion s' = Some c /\ resolved c = true)
                   /\ countEvents isRunFinished (emitted s') = 1
                   /\ countEvents isError (emitted s') = 0).
    { unfold s'. rewrite completion_emit, emitted_emit, !countEvents_snoc, H2, H3
        by reflexivity. split; [eauto|]. split; reflexivity. }
    assert (Hcur' : current_ok (set_this s' w)).
    { revert Hcur. apply current_ok_keep; cbn [this current set_this]; unfold s'.
      - reflexivity.
      - apply checks_emit.
      - intros id. rewrite timeouts_emit. auto.
      - intros id. rewrite emitted_emit, terminals_snoc_other by reflexivity.
        auto. }
    unfold run_finally. cbn [socketClient set_this].
    destruct (socketClient w) eqn:Es; apply invariant_intro;
      try exact Hst'; try exact Hcur';
      unfold phase_ok, socket_ok;
      cbn [phase this current socketClient calls set_phase call set_this];
      try exact Hph'.
    + intros _. apply elem_of_app. right. apply list_elem_of_singleton.
      reflexivity.
    + rewrite Es. intros [x Hx]. discriminate Hx.
  - (* SocketEnded *)
    unfold step in Hstep. destruct (phase w) eqn:Ep; try discriminate.
    injection Hstep as <-. unfold phase_ok in Hph. rewrite Ep in Hph.
    unfold socket_ok in Hsock. rewrite Ep in Hsock.
    apply invariant_intro; [exact Hst| | |exact Hcur].
    + unfold phase_ok. cbn. exact Hph.
    + unfold socket_ok. cbn. exact Hsock.
  - (* Message *)
    rewrite step_Message in Hstep.
    destruct (listenerInstalled (phase w)); [|discriminate].
    injection Hstep as <-.
    destruct (onMessage_frame topic message (this w)) as (q & Eq & Hq).
    apply invariant_intro.
    + cbn [this set_this]. rewrite Eq. apply state_ok_queue, Hst.
    + unfold phase_ok in *. cbn [phase this current set_this].
      destruct (phase w) as [| | | | |[|]|[|]];
        try (destruct Hph as (P1 & P2 & P3);
             split; [apply pristine_onMessage, P1|];
             rewrite Eq; cbn [emitted set_queue]; split; assumption);
        rewrite Eq; cbn [emitted completion set_queue]; exact Hph.
    + exact Hsock.
    + revert Hcur. apply current_ok_keep; cbn [this current set_this];
        rewrite ?Eq; cbn [checks timeouts emitted set_queue]; auto.
  - (* QueueNext *)
    rewrite step_QueueNext in Hstep.
    destruct (current w) eqn:Ecur; [discriminate|].
    destruct (isPaused (queue (this w))) eqn:Epaused; [discriminate|].
    destruct (pending (queue (this w))) as [|[id subtopic message] rest];
      [discriminate|].
    injection Hstep as <-. cbn [task_checkRunId task_subtopic task_message].
    pose proof (late_unpaused _ Hph Epaused) as Hlate.
    set (s := set_queue (mkPQueue false rest) (this w)).
    assert (Hs : state_ok s) by apply state_ok_queue, Hst.
    assert (Hks : keeps (this w) s) by (apply keeps_same; reflexivity).
    assert (Hplain : invariant (advance (Returned s tt) w)).
    { unfold advance. apply invariant_intro;
        cbn [this phase socketClient calls current].
      - exact Hs.
      - apply (phase_ok_late w); [assumption|assumption|reflexivity|exact Hks].
      - exact Hsock.
      - exact I. }
    destruct (timeouts s !! id) as [h|] eqn:Eto.
    2:{ rewrite (processMessage_skip id subtopic message s (or_introl Eto)).
        exact Hplain. }
    destruct (checks s !! id) as [entry|] eqn:Eck.
    2:{ rewrite (processMessage_skip id subtopic message s (or_intror Eck)).
        exact Hplain. }
    assert (Hnew : id ∉ terminals (emitted s)).
    { intros Hin. destruct Hs as (_ & Hstr & _).
      pose proof (str_resolved _ Hstr _ Hin). congruence. }
    destruct (processMessage_dispatch id subtopic message s h entry Eto Eck)
      as [[-> E]|[->|[[-> E]|E]]]; rewrite ?E.
    + unfold advance. apply invariant_intro;
        cbn [this phase socketClient calls current].
      * apply state_ok_emit_inProgress, Hs.
      * apply (phase_ok_late w); [assumption|assumption|reflexivity|].
        cbn [this]. eapply keeps_trans; [exact Hks|].
        apply keeps_emit; reflexivity.
      * exact Hsock.
      * exact I.
    + apply (advance_tail w (disableTimeout id s) id entry); try assumption.
      * eapply state_ok_disableTimeout; eassumption.
      * eapply keeps_trans; [exact Hks|apply keeps_disableTimeout].
      * rewrite checks_disableTimeout. exact Eck.
      * rewrite timeouts_disableTimeout. apply lookup_delete_eq.
      * rewrite emitted_disableTimeout. exact Hnew.
      * eapply processMessage_run_end_tail; eassumption.
    + unfold advance. apply invariant_intro;
        cbn [this phase socketClient calls current].
      * apply (state_ok_emit_pair _ id).
        -- left. eexists. reflexivity.
        -- rewrite emitted_disableTimeout. exact Hnew.
        -- rewrite timeouts_disableTimeout. apply lookup_delete_eq.
        -- rewrite checks_disableTimeout. eauto.
        -- eapply state_ok_disableTimeout; eassumption.
      * apply (phase_ok_late w); [assumption|assumption|reflexivity|].
        cbn [this]. eapply keeps_trans; [exact Hks|].
        eapply keeps_trans; [apply keeps_disableTimeout|].
        eapply keeps_trans; apply keeps_emit; reflexivity.
      * exact Hsock.
      * exact I.
    + exact Hplain.
  - (* Settled *)
    rewrite step_Settled in Hstep.
    destruct (current w) as [[c k]|] eqn:Ecur; [|discriminate].
    injection Hstep as <-.
    pose proof (late_current _ _ Hph Ecur) as Hlate.
    unfold current_ok in Hcur. rewrite Ecur in Hcur.
    destruct Hcur as (id & entry & Hck & Hto & Hnew & Hk).
    apply (advance_tail w (this w) id entry); try assumption.
    + apply keeps_refl.
    + apply Hk.
  - (* TimerFired *)
    rewrite step_TimerFired in Hstep.
    destruct (timers (this w) !! t) as [[callback ms]|] eqn:Et; [|discriminate].
    injection Hstep as <-.
    pose proof (late_timer _ _ _ Hph Et) as Hlate.
    destruct callback as [id c|].
    + destruct (state_ok_check_fired _ _ _ _ _ Hst Et) as [Hst' Hid].
      apply invariant_intro; [exact Hst'| |exact Hsock|].
      * apply (phase_ok_late w); [assumption|assumption|reflexivity|].
        cbn [this set_this]. rewrite (fire_check_eq _ _ _ _ Hid).
        eapply keeps_trans; [apply keeps_disableTimeout|].
        eapply keeps_trans; apply keeps_emit; reflexivity.
      * revert Hcur. apply current_ok_keep; cbn [this current set_this];
          rewrite ?(fire_check_eq _ _ _ _ Hid).
        -- reflexivity.
        -- rewrite !checks_emit. apply checks_disableTimeout.
        -- intros id'. rewrite !timeouts_emit, timeouts_disableTimeout.
           intros H. apply lookup_delete_None. right. exact H.
        -- intros id'. rewrite !emitted_emit, emitted_disableTimeout.
           rewrite (terminals_snoc_pair _ (CHECK_FAILED id c _) _ id eq_refl).
           intros Hin. apply elem_of_app in Hin as [Hin|Hin]; [left; exact Hin|].
           apply list_elem_of_singleton in Hin. subst. right. congruence.
    + apply invariant_intro; [|  |exact Hsock|].
      * cbn [this set_this fire]. eapply state_ok_delay_fired; eassumption.
      * apply (phase_ok_late w); [assumption|assumption|reflexivity|].
        cbn [this set_this fire]. unfold schedulingDelayCallback.
        eapply keeps_trans; [|apply keeps_same; reflexivity].
        eapply keeps_trans; [|apply keeps_emit; reflexivity].
        apply keeps_same; reflexivity.
      * revert Hcur. apply current_ok_keep; cbn [this current set_this fire];
          try reflexivity; auto.
        intros id. unfold schedulingDelayCallback.
        cbn [emitted set_schedulingDelayExceededTimeout].
        rewrite emitted_emit, terminals_snoc_other by reflexivity. auto.
Qed.

Lemma exec_app ls1 ls2 w : exec (ls1 ++ ls2) w = exec ls2 (exec ls1 w).
Proof. apply foldl_app. Qed.

Lemma exec_snoc ls l w :
  exec (ls ++ [l]) w = default (exec ls w) (step l (exec ls w)).
Proof. rewrite exec_app. reflexivity. Qed.

Ltac fields :=
  cbn [this phase socketClient current calls rejections start constructor
         checks testSessionId timeouts schedulingDelayExceededTimeout
         accountId timeout verbose queue completion monitor timers
         nextTimeout emitted isPaused pending].

Lemma invariant_start accountId timeout verbose :
  invariant (start (constructor accountId timeout verbose)).
Proof.
  split.
  - split; fields; intros *; rewrite ?lookup_empty; discriminate.
  - split; fields.
    + constructor.
    + constructor.
    + intros id Hin. inversion Hin.
    + intros id Hin. inversion Hin.
  - intros c Hc. discriminate Hc.
  - unfold monitor_ok, noSchedulingDelayTimer. fields.
    split; [|split; [reflexivity|]].
    + intros h e Hl. rewrite lookup_empty in Hl. discriminate.
    + intros [x Hx]. discriminate Hx.
  - unfold phase_ok. fields. split; [split; reflexivity|split; reflexivity].
  - exact I.
  - exact I.
Qed.

Lemma invariant_exec ls w : invariant w -> invariant (exec ls w).
Proof.
  revert w. induction ls as [|l ls IH]; intros w Hinv; [exact Hinv|].
  cbn [exec foldl]. apply IH. destruct (step l w) as [w'|] eqn:E; cbn.
  - eapply step_invariant; eassumption.
  - exact Hinv.
Qed.

(** Every world a fresh runner can reach satisfies the invariant. *)
Lemma invariant_reachable accountId timeout verbose ls :
  invariant (exec ls (start (constructor accountId timeout verbose))).
Proof. apply invariant_exec, invariant_start. Qed.

(** ** Disabling all timeouts *)

Lemma disableAllTimeouts_fold (l : list (string * CheckEntry)) :
  forall s, let s' := foldl (fun s e => disableTimeout (fst e) s) s l in
  (forall id, id ∈ l.*1 -> timeouts s' !! id = None)
  /\ (forall id, timeouts s !! id = None -> timeouts s' !! id = None)
  /\ (forall h x, timers s' !! h = Some x -> timers s !! h = Some x)
  /\ (forall id h, id ∈ l.*1 -> timeouts s !! id = Some h ->
                   timers s' !! h = None)
  /\ (checks s' = checks s /\ emitted s' = emitted s
      /\ schedulingDelayExceededTimeout s' = schedulingDelayExceededTimeout s).
Proof.
  induction l as [|[id0 e0] l IH]; intros s s'.
  - subst s'. cbn. repeat split; auto.
    + intros id Hin. inversion Hin.
    + intros id h Hin. inversion Hin.
  - subst s'. cbn [foldl fst].
    destruct (IH (disableTimeout id0 s)) as (I1 & I2 & I3 & I4 & E1 & E2 & E3).
    cbn zeta in *.
    set (s' := foldl (fun s e => disableTimeout (fst e) s)
                 (disableTimeout id0 s) l) in *.
    assert (Htm : forall h x, timers (disableTimeout id0 s) !! h = Some x ->
                              timers s !! h = Some x).
    { intros h x. rewrite timers_disableTimeout.
      destruct (timeouts s !! id0); [|auto].
      intros Hl. apply lookup_delete_Some in Hl as [_ Hl]. exact Hl. }
    split; [|split; [|split; [|split]]].
    + intros id Hin. rewrite fmap_cons in Hin. cbn in Hin.
      apply elem_of_cons in Hin as [->|Hin]; [|auto].
      apply I2. rewrite timeouts_disableTimeout. apply lookup_delete_eq.
    + intros id Hid. apply I2. rewrite timeouts_disableTimeout.
      apply lookup_delete_None. right. exact Hid.
    + intros h x Hl. auto.
    + intros id h Hin Hid. rewrite fmap_cons in Hin. cbn in Hin.
      destruct (decide (id = id0)) as [->|Hne].
      * destruct (timers s' !! h) as [x|] eqn:El; [|reflexivity].
        apply I3 in El. rewrite timers_disableTimeout, Hid in El.
        rewrite lookup_delete_eq in El. discriminate El.
      * apply elem_of_cons in Hin as [->|Hin]; [contradiction|].
        apply (I4 id); [exact Hin|].
        rewrite timeouts_disableTimeout, lookup_delete_ne by congruence.
        exact Hid.
    + rewrite E1, E2, E3, checks_disableTimeout, emitted_disableTimeout,
        schedulingDelayExceededTimeout_disableTimeout. repeat split.
Qed.

(** With the registry invariant, [disableAllTimeouts] leaves no timeout
    entry and no pending timer. *)
Lemma disableAllTimeouts_clears s :
  registry_ok s ->
  timeouts (disableAllTimeouts s) = ∅
  /\ timers (disableAllTimeouts s) = ∅
  /\ schedulingDelayExceededTimeout (disableAllTimeouts s) = None
  /\ emitted (disableAllTimeouts s) = emitted s
  /\ checks (disableAllTimeouts s) = checks s.
Proof.
  intros Hreg. unfold disableAllTimeouts.
  destruct (disableAllTimeouts_fold (map_to_list (checks s)) s)
    as (I1 & I2 & I3 & I4 & E1 & E2 & E3).
  cbn zeta in *.
  set (s2 := foldl (fun s e => disableTimeout (fst e) s) s
               (map_to_list (checks s))) in *.
  assert (Hkey : forall id h, timeouts s !! id = Some h ->
                              id ∈ (map_to_list (checks s)).*1).
  { intros id h Hid. destruct (reg_armed _ Hreg _ _ Hid) as (entry & He & _).
    apply list_elem_of_fmap. exists (id, entry). split; [reflexivity|].
    apply elem_of_map_to_list, He. }
  assert (Hto : timeouts s2 = ∅).
  { apply map_eq. intros id. rewrite lookup_empty.
    destruct (timeouts s !! id) as [h|] eqn:Hid; [|auto].
    apply I1. eapply Hkey, Hid. }
  assert (Htm : forall h x, timers s2 !! h = Some x ->
                            exists ms, x = (SchedulingDelayExceeded, ms)
                                       /\ schedulingDelayExceededTimeout s2
                                          = Some h).
  { intros h [cb ms] Hl. pose proof (I3 _ _ Hl) as Hl0. destruct cb as [id c|].
    - pose proof (reg_owned _ Hreg _ _ _ _ Hl0) as Hid.
      rewrite (I4 id h (Hkey _ _ Hid) Hid) in Hl. discriminate Hl.
    - exists ms. split; [reflexivity|]. rewrite E3.
      eapply reg_delay; eassumption. }
  destruct (schedulingDelayExceededTimeout s2) as [hs|] eqn:Es;
    cbn [timeouts timers schedulingDelayExceededTimeout emitted checks
           set_schedulingDelayExceededTimeout clearTimeout set_timers].
  - repeat split; try assumption.
    apply map_eq. intros h. rewrite lookup_empty.
    destruct (decide (h = hs)) as [->|Hne]; [apply lookup_delete_eq|].
    rewrite lookup_delete_ne by congruence.
    destruct (timers s2 !! h) as [x|] eqn:El; [|reflexivity].
    destruct (Htm _ _ El) as (ms & _ & Hs). congruence.
  - repeat split; try assumption.
    apply map_eq. intros h. rewrite lookup_empty.
    destruct (timers s2 !! h) as [x|] eqn:El; [|reflexivity].
    destruct (Htm _ _ El) as (ms & _ & Hs). congruence.
Qed.

(** ** The registry during a run *)

Lemma timeouts_disableAllTimeouts_None s id :
  timeouts s !! id = None -> timeouts (disableAllTimeouts s) !! id = None.
Proof.
  intros Hid. unfold disableAllTimeouts.
  destruct (disableAllTimeouts_fold (map_to_list (checks s)) s)
    as (_ & I2 & _).
  cbn zeta in I2. specialize (I2 id Hid).
  destruct (schedulingDelayExceededTimeout _); exact I2.
Qed.

Lemma advance_tail_timeouts id check s st w :
  run_end_tail id check s st -> timeouts (this (advance st w)) = timeouts s.
Proof.
  intros [s0 result links|s0 e|s0 c k Hk]; unfold advance; cbn [this].
  - rewrite !timeouts_emit. reflexivity.
  - reflexivity.
  - reflexivity.
Qed.

(** Apart from the arming in [run], no step adds a timeout entry. *)
Lemma step_timeouts_shrink l w w' :
  invariant w -> step l w = Some w' ->
  (forall testSessionId scheduled, l <> Scheduled testSessionId scheduled) ->
  forall id, timeouts (this w) !! id = None -> timeouts (this w') !! id = None.
Proof.
  intros Hinv Hstep Hl id Hid.
  assert (Hthrow : forall err, timeouts (this (run_throw err w)) !! id = None).
  { intros err. unfold run_throw, run_finally, run_catch.
    cbn [socketClient set_this].
    destruct (socketClient w); cbn [this set_phase call set_this];
      rewrite timeouts_emit; apply timeouts_disableAllTimeouts_None, Hid. }
  destruct l.
  - unfold step in Hstep. destruct (phase w); try discriminate.
    injection Hstep as <-. exact Hid.
  - unfold step in Hstep. destruct (phase w); try discriminate.
    injection Hstep as <-. exact Hid.
  - unfold step in Hstep. destruct (phase w); try discriminate.
    injection Hstep as <-. apply Hthrow.
  - unfold step in Hstep. destruct (phase w); try discriminate.
    injection Hstep as <-. exact Hid.
  - unfold step in Hstep. destruct (phase w); try discriminate.
    injection Hstep as <-. apply Hthrow.
  - exfalso. eapply Hl. reflexivity.
  - unfold step in Hstep. destruct (phase w); try discriminate.
    injection Hstep as <-. apply Hthrow.
  - unfold step in Hstep. destruct (phase w); try discriminate.
    destruct (completion (this w)) as [c|]; [|discriminate].
    destruct (resolved c); [|discriminate]. injection Hstep as <-.
    unfold run_finally. cbn [socketClient set_this].
    destruct (socketClient w); exact Hid.
  - unfold step in Hstep. destruct (phase w); try discriminate.
    injection Hstep as <-. exact Hid.
  - rewrite step_Message in Hstep. destruct (listenerInstalled _); [|discriminate].
    injection Hstep as <-.
    destruct (onMessage_frame topic message (this w)) as (q & Eq & _).
    cbn [this set_this]. rewrite Eq. exact Hid.
  - rewrite step_QueueNext in Hstep.
    destruct (current w); [discriminate|].
    destruct (isPaused _); [discriminate|].
    destruct (pending _) as [|[id0 subtopic message] rest]; [discriminate|].
    injection Hstep as <-. cbn [task_checkRunId task_subtopic task_message].
    set (s := set_queue (mkPQueue false rest) (this w)).
    destruct (timeouts s !! id0) as [h|] eqn:Eto.
    2:{ rewrite (processMessage_skip id0 subtopic message s (or_introl Eto)).
        exact Hid. }
    destruct (checks s !! id0) as [entry|] eqn:Eck.
    2:{ rewrite (processMessage_skip id0 subtopic message s (or_intror Eck)).
        exact Hid. }
    destruct (processMessage_dispatch id0 subtopic message s h entry Eto Eck)
      as [[-> E]|[->|[[-> E]|E]]]; rewrite ?E.
    + unfold advance. cbn [this]. rewrite timeouts_emit. exact Hid.
    + rewrite (advance_tail_timeouts id0 (check entry) (disableTimeout id0 s));
        [|eapply processMessage_run_end_tail; eassumption].
      rewrite timeouts_disableTimeout. apply lookup_delete_None. right. exact Hid.
    + unfold advance. cbn [this].
      rewrite !timeouts_emit, timeouts_disableTimeout.
      apply lookup_delete_None. right. exact Hid.
    + exact Hid.
  - rewrite step_Settled in Hstep.
    pose proof (inv_current _ Hinv) as Hcur. unfold current_ok in Hcur.
    destruct (current w) as [[c k]|]; [|discriminate].
    injection Hstep as <-.
    destruct Hcur as (id0 & entry & _ & _ & _ & Hk).
    rewrite (advance_tail_timeouts id0 (check entry) (this w)); [exact Hid|].
    apply Hk.
  - rewrite step_TimerFired in Hstep.
    destruct (timers (this w) !! t) as [[cb ms]|] eqn:Et; [|discriminate].
    injection Hstep as <-. cbn [this set_this]. destruct cb as [id0 c|].
    + unfold fire, checkTimeoutCallback. rewrite !timeouts_emit.
      cbn [timeouts set_timeouts set_timers].
      apply lookup_delete_None. right. exact Hid.
    + exact Hid.
Qed.

(** C9: at every point of a run every key of [this.timeouts] is a key of
    [this.checks]: the entries are made by [run] from the checks map it
    has just put in place, and no other step adds one.  Hence
    [disableAllTimeouts], which walks the keys of [this.checks], leaves no
    timeout entry and no pending timer. *)
Theorem timeouts_within_checks (accountId : string) (timeout : Z)
  (verbose : bool) (ls : list Label) :
  let w := exec ls (start (constructor accountId timeout verbose)) in
  let s := this w in
  dom (timeouts s) ⊆ dom (checks s)
  /\ timeouts (disableAllTimeouts s) = ∅
  /\ timers (disableAllTimeouts s) = ∅
  /\ (forall testSessionId scheduled w',
        step (Scheduled testSessionId scheduled) w = Some w' ->
        checks (this w') = newChecksMap scheduled
        /\ dom (timeouts (this w')) = dom (checks (this w')))
  /\ (forall l w',
        step l w = Some w' ->
        (forall testSessionId scheduled,
           l <> Scheduled testSessionId scheduled) ->
        dom (timeouts (this w')) ⊆ dom (timeouts s)).
Proof.
  intros w s.
  pose proof (invariant_reachable accountId timeout verbose ls) as Hinv.
  pose proof (inv_registry _ Hinv) as Hreg. fold w s in Hinv, Hreg.
  destruct (disableAllTimeouts_clears s Hreg) as (H1 & H2 & _).
  split; [|split; [exact H1|split; [exact H2|split]]].
  - intros id Hin. apply elem_of_dom in Hin as [h Hh]. apply elem_of_dom.
    destruct (reg_armed _ Hreg _ _ Hh) as (entry & He & _). eauto.
  - intros tsid cks w' Hstep. unfold step in Hstep.
    pose proof (inv_phase _ Hinv) as Hph. unfold phase_ok in Hph.
    destruct (phase w); try discriminate. injection Hstep as <-.
    destruct Hph as (P1 & P2 & _).
    destruct (run_scheduled_ok tsid cks (this w) P1 P2)
      as ((Hreg' & _) & _ & _ & Hck & Hall).
    cbn [this set_phase set_this]. split; [exact Hck|].
    apply set_eq. intros id. rewrite !elem_of_dom. split; [|apply Hall].
    intros [h Hh]. destruct (reg_armed _ Hreg' _ _ Hh) as (entry & He & _). eauto.
  - intros l w' Hstep Hl id Hin. apply elem_of_dom in Hin.
    apply elem_of_dom. destruct (timeouts s !! id) eqn:E; [eauto|].
    rewrite (step_timeouts_shrink l w w' Hinv Hstep Hl id E) in Hin.
    destruct Hin as [x Hx]. discriminate Hx.
Qed.

(** ** Failure of the run *)

(** C4: when [connect], the subscription or [scheduleChecks] fails, [run]
    goes through its [catch]: no timeout entry and no timer is left, the
    stream holds exactly one ["error"] and no ["run-finished"]; whenever
    [run] has left its [try], whether through ["run-finished"] or through
    ["error"], a socket that was opened has been ended.  The [catch]
    block cancels every timeout from any point of a run: after arming and
    while waiting as well. *)
Theorem run_failure (accountId : string) (timeout : Z) (verbose : bool)
  (ls : list Label) :
  let w := exec ls (start (constructor accountId timeout verbose)) in
  (forall err w',
     step (ConnectFailed err) w = Some w'
     \/ step (SubscribeFailed err) w = Some w'
     \/ step (ScheduleFailed err) w = Some w' ->
     w' = run_throw err w /\ emitted (this w') = [ERROR err]
     /\ (phase w' = Closing false \/ phase w' = Ended false))
  /\ (phase w = Closing false \/ phase w = Ended false ->
      timeouts (this w) = ∅ /\ timers (this w) = ∅
      /\ schedulingDelayExceededTimeout (this w) = None
      /\ countEvents isError (emitted (this w)) = 1
      /\ countEvents isRunFinished (emitted (this w)) = 0)
  /\ (forall ok, phase w = Closing ok \/ phase w = Ended ok ->
      is_Some (socketClient w) -> SocketClient_end ∈ calls w)
  /\ (forall ok, phase w = Ended ok ->
      countEvents isError (emitted (this w)) = (if ok then 0 else 1)
      /\ countEvents isRunFinished (emitted (this w)) = (if ok then 1 else 0))
  /\ (forall err,
      timeouts (run_catch err (this w)) = ∅
      /\ timers (run_catch err (this w)) = ∅
      /\ schedulingDelayExceededTimeout (run_catch err (this w)) = None
      /\ emitted (run_catch err (this w))
         = (emitted (this w) ++ [ERROR err])%list).
Proof.
  intros w.
  pose proof (invariant_reachable accountId timeout verbose ls) as Hinv.
  fold w in Hinv.
  pose proof (inv_phase _ Hinv) as Hph. pose proof (inv_socket _ Hinv) as Hsock.
  split; [|split; [|split; [|split]]].
  - intros err w' Hstep.
    assert (Hpr : pristine (this w) /\ emitted (this w) = []
                  /\ w' = run_throw err w).
    { unfold phase_ok in Hph. unfold step in Hstep.
      destruct Hstep as [H|[H|H]];
        destruct (phase w); try discriminate H; injection H as <-;
        destruct Hph as (P1 & P2 & _); auto. }
    destruct Hpr as (Hpr & Hem & ->). split; [reflexivity|].
    unfold run_throw, run_catch, run_finally.
    rewrite (disableAllTimeouts_pristine _ Hpr).
    destruct (socketClient _); cbn [this phase set_phase call set_this];
      rewrite emitted_emit, Hem; auto.
  - intros Hp. unfold phase_ok in Hph.
    assert (H : pristine (this w) /\ (exists e, emitted (this w) = [ERROR e])).
    { destruct Hp as [Hp|Hp]; rewrite Hp in Hph; destruct Hph as (P1 & P2 & _);
        auto. }
    destruct H as ([P1 P2 P3 P4 P5 P6 P7] & e & He). rewrite He.
    repeat split; assumption.
  - intros ok Hp. unfold socket_ok in Hsock.
    destruct Hp as [Hp|Hp]; rewrite Hp in Hsock; exact Hsock.
  - intros ok Hp. unfold phase_ok in Hph. rewrite Hp in Hph.
    destruct ok.
    + destruct Hph as (_ & H1 & H2). auto.
    + destruct Hph as (_ & (e & He) & _). rewrite He. split; reflexivity.
  - intros err. unfold run_catch.
    destruct (disableAllTimeouts_clears (this w) (inv_registry _ Hinv))
      as (H1 & H2 & H3 & H4 & _).
    rewrite timeouts_emit, timers_emit, schedulingDelayExceededTimeout_emit,
      emitted_emit, H4 by reflexivity.
    repeat split; assumption.
Qed.

(** ** Completion *)

Lemma paired_counts tr :
  paired tr -> countEvents isFinished tr = length (terminals tr).
Proof.
  induction 1 as [|tr ev Hp IH Ht Hf|tr id check message Hp IH
                  |tr id check result links Hp IH].
  - reflexivity.
  - rewrite countEvents_snoc, (terminals_snoc_other _ _ Ht), Hf. lia.
  - rewrite countEvents_app, terminals_app, length_app, IH. reflexivity.
  - rewrite countEvents_app, terminals_app, length_app, IH. reflexivity.
Qed.

Lemma NoDup_within_size (l : list string) (m : gmap string CheckEntry) :
  NoDup l -> (forall id, id ∈ l -> is_Some (m !! id)) -> length l <= size m.
Proof.
  intros Hnd Hin. rewrite <- size_dom.
  unfold size at 1, set_size. cbn.
  apply submseteq_length, NoDup_submseteq; [exact Hnd|].
  intros id Hid. apply elem_of_elements, elem_of_dom, Hin, Hid.
Qed.

Lemma finished_bound s :
  stream_ok s -> countEvents isFinished (emitted s) <= size (checks s).
Proof.
  intros [H1 H2 H3 H4]. rewrite (paired_counts _ H1).
  apply NoDup_within_size; assumption.
Qed.

Lemma completion_counts s c :
  completion_ok s -> stream_ok s -> completion s = Some c ->
  numChecks c = size (checks s)
  /\ (resolved c = true
      <-> countEvents isFinished (emitted s) = numChecks c).
Proof.
  intros Hcomp Hstr Hc.
  destruct (Hcomp c Hc) as (Hn & Hl & Hcount & Hr & _).
  pose proof (finished_bound _ Hstr) as Hbound.
  split; [exact Hn|]. rewrite Hr, Hcount, Hl.
  destruct (Nat.eqb_spec (numChecks c) 0) as [E0|E0]; cbn [negb].
  - rewrite E0. cbn. split; [lia|auto].
  - split; intros H.
    + apply Nat.leb_le in H. lia.
    + apply Nat.leb_le. lia.
Qed.

(** C5: the promise made by [allChecksFinished] is resolved by at most one
    call of [resolve], and it is resolved exactly when as many
    ["finished"] events were emitted as the checks map had entries when
    the promise was made; for an empty batch it is made resolved, without
    a listener. *)
Theorem completion_resolves (accountId : string) (timeout : Z)
  (verbose : bool) (ls : list Label) (c : CompletionTracker) :
  let s := this (exec ls (start (constructor accountId timeout verbose))) in
  completion s = Some c ->
  numChecks c = size (checks s)
  /\ resolveCalls c <= 1
  /\ (resolved c = true
      <-> countEvents isFinished (emitted s) = numChecks c)
  /\ (numChecks c = 0 ->
      resolved c = true /\ listening c = false /\ resolveCalls c = 0)
  /\ (0 < numChecks c ->
      finishedCheckCount c = countEvents isFinished (emitted s)
      /\ resolveCalls c = (if resolved c then 1 else 0))
  /\ (forall s0,
        completion (allChecksFinished s0)
        = Some (mkCompletionTracker 0 (size (checks s0))
                  (negb (size (checks s0) =? 0)) 0 (size (checks s0) =? 0))).
Proof.
  intros s Hc.
  pose proof (invariant_reachable accountId timeout verbose ls) as Hinv.
  destruct (inv_completion _ Hinv c Hc) as (Hn & Hl & Hcount & Hr & Hcalls).
  pose proof (finished_bound _ (inv_stream _ Hinv)) as Hbound.
  fold s in Hn, Hcount, Hbound.
  split; [exact Hn|].
  destruct (Nat.eqb_spec (numChecks c) 0) as [E0|E0]; cbn [negb] in Hl;
    rewrite Hl in *; cbn [andb] in Hcalls.
  - rewrite Hcount in Hr. rewrite E0 in *. cbn in Hr.
    split; [lia|]. split; [split; [lia|auto]|].
    split; [auto|]. split; [lia|].
    intros s0. unfold allChecksFinished. destruct (_ =? 0); reflexivity.
  - split; [destruct (resolved c); lia|].
    split.
    { rewrite Hr, Hcount. split; intros H.
      - apply Nat.leb_le in H. lia.
      - apply Nat.leb_le. lia. }
    split; [lia|]. split; [auto|].
    intros s0. unfold allChecksFinished. destruct (_ =? 0); reflexivity.
Qed.

(** ** The scheduling-delay timer during a run *)






(** ** Duplicate and unknown messages *)

(** C3: a message for a check without a timeout entry, or without a check
    record, ends [processMessage] at once, in the state it was called in:
    nothing is emitted and nothing awaited; the queue's step only takes
    the task off the queue.  A check that has had its terminal event has
    no timeout entry, so a second [run-end] for it is such a message. *)
Theorem processMessage_discards (checkRunId subtopic : string)
  (message : JSValue) :
  (forall s,
     timeouts s !! checkRunId = None \/ checks s !! checkRunId = None ->
     processMessage checkRunId subtopic message s = Returned s tt)
  /\ (forall w rest,
        current w = None -> isPaused (queue (this w)) = false ->
        pending (queue (this w))
        = mkTask checkRunId subtopic message :: rest ->
        timeouts (this w) !! checkRunId = None
        \/ checks (this w) !! checkRunId = None ->
        step QueueNext w
        = Some (set_this (set_queue (mkPQueue false rest) (this w)) w))
  /\ (forall accountId timeout verbose ls,
        let s := this (exec ls (start (constructor accountId timeout verbose)))
        in
        checkRunId ∈ terminals (emitted s) ->
        timeouts s !! checkRunId = None
        /\ processMessage checkRunId subtopic message s = Returned s tt).
Proof.
  split; [|split].
  - intros s. apply processMessage_skip.
  - intros w rest Hcur Hq Hp H. rewrite step_QueueNext, Hcur, Hq, Hp.
    cbn [task_checkRunId task_subtopic task_message].
    rewrite processMessage_skip by exact H.
    unfold advance, set_this. rewrite Hcur. reflexivity.
  - intros accountId timeout verbose ls s Hin.
    pose proof (invariant_reachable accountId timeout verbose ls) as Hinv.
    pose proof (str_resolved _ (inv_stream _ Hinv) _ Hin) as Hto.
    split; [exact Hto|]. apply processMessage_skip. left. exact Hto.
Qed.

(** ** The lifecycle of a check *)

Lemma terminalPair_terminalId ev id check :
  terminalPair ev id check -> terminalId ev = Some id.
Proof. intros [(m & ->)|(r & l & ->)]; reflexivity. Qed.

Lemma paired_finished_preceded tr :
  paired tr ->
  forall i check,
    tr !! i = Some (CHECK_FINISHED check) ->
    exists j ev id,
      i = S j /\ tr !! j = Some ev /\ terminalPair ev id check.
Proof.
  induction 1 as [|tr ev0 Hp IH Ht Hf|tr id0 check0 message Hp IH
                  |tr id0 check0 result links Hp IH]; intros i check Hi.
  - rewrite lookup_nil in Hi. discriminate.
  - apply lookup_app_Some in Hi as [Hi|[Hle Hi]].
    + destruct (IH _ _ Hi) as (j & ev & id & -> & Hj & Hev).
      exists j, ev, id. split; [reflexivity|].
      split; [apply lookup_app_l_Some, Hj|exact Hev].
    + destruct (i - length tr) as [|n]; cbn in Hi; [|discriminate].
      injection Hi as ->. discriminate Hf.
  - apply lookup_app_Some in Hi as [Hi|[Hle Hi]].
    + destruct (IH _ _ Hi) as (j & ev & id & -> & Hj & Hev).
      exists j, ev, id. split; [reflexivity|].
      split; [apply lookup_app_l_Some, Hj|exact Hev].
    + destruct (i - length tr) as [|[|n]] eqn:En; cbn in Hi; try discriminate.
      injection Hi as <-.
      exists (length tr), (CHECK_FAILED id0 check0 message), id0.
      split; [lia|]. split.
      * rewrite lookup_app_r, Nat.sub_diag by lia. reflexivity.
      * left. eexists. reflexivity.
  - apply lookup_app_Some in Hi as [Hi|[Hle Hi]].
    + destruct (IH _ _ Hi) as (j & ev & id & -> & Hj & Hev).
      exists j, ev, id. split; [reflexivity|].
      split; [apply lookup_app_l_Some, Hj|exact Hev].
    + destruct (i - length tr) as [|[|n]] eqn:En; cbn in Hi; try discriminate.
      injection Hi as <-.
      exists (length tr), (CHECK_SUCCESSFUL id0 check0 result links), id0.
      split; [lia|]. split.
      * rewrite lookup_app_r, Nat.sub_diag by lia. reflexivity.
      * right. eexists _, _. reflexivity.
Qed.

Lemma paired_terminal_followed tr :
  paired tr ->
  forall i ev id check,
    tr !! i = Some ev -> terminalPair ev id check ->
    tr !! S i = Some (CHECK_FINISHED check).
Proof.
  induction 1 as [|tr ev0 Hp IH Ht Hf|tr id0 check0 message Hp IH
                  |tr id0 check0 result links Hp IH]; intros i ev id check Hi Hev.
  - rewrite lookup_nil in Hi. discriminate.
  - apply lookup_app_Some in Hi as [Hi|[Hle Hi]].
    + apply lookup_app_l_Some. eapply IH; eassumption.
    + destruct (i - length tr) as [|n]; cbn in Hi; [|discriminate].
      injection Hi as ->. apply terminalPair_terminalId in Hev. congruence.
  - apply lookup_app_Some in Hi as [Hi|[Hle Hi]].
    + apply lookup_app_l_Some. eapply IH; eassumption.
    + destruct (i - length tr) as [|[|n]] eqn:En; cbn in Hi; try discriminate;
        injection Hi as <-.
      * destruct Hev as [(m & Hev)|(r & l & Hev)]; [|discriminate Hev].
        injection Hev as <- <- _.
        rewrite lookup_app_r by lia.
        replace (S i - length tr) with 1 by lia. reflexivity.
      * destruct Hev as [(m & Hev)|(r & l & Hev)]; discriminate Hev.
  - apply lookup_app_Some in Hi as [Hi|[Hle Hi]].
    + apply lookup_app_l_Some. eapply IH; eassumption.
    + destruct (i - length tr) as [|[|n]] eqn:En; cbn in Hi; try discriminate;
        injection Hi as <-.
      * destruct Hev as [(m & Hev)|(r & l & Hev)]; [discriminate Hev|].
        injection Hev as <- <- _ _.
        rewrite lookup_app_r by lia.
        replace (S i - length tr) with 1 by lia. reflexivity.
      * destruct Hev as [(m & Hev)|(r & l & Hev)]; discriminate Hev.
Qed.

(** A list without duplicates that is as long as the map is large holds
    every key of the map. *)
Lemma NoDup_covers (l : list string) (m : gmap string CheckEntry) :
  NoDup l -> (forall id, id ∈ l -> is_Some (m !! id)) -> length l = size m ->
  forall id, is_Some (m !! id) -> id ∈ l.
Proof.
  intros Hnd Hin Hlen id Hid.
  assert (Hsub : l ⊆+ elements (dom m)).
  { apply NoDup_submseteq; [exact Hnd|].
    intros x Hx. apply elem_of_elements, elem_of_dom, Hin, Hx. }
  assert (Hperm : l ≡ₚ elements (dom m)).
  { apply submseteq_length_Permutation; [exact Hsub|].
    rewrite Hlen, <- size_dom. reflexivity. }
  rewrite Hperm. apply elem_of_elements, elem_of_dom, Hid.
Qed.

Lemma stalled_step batch l w w' :
  stalled batch w -> step l w = Some w' -> stalled batch w'.
Proof.
  intros (Hinv & Hp & Hto & Hcur & Hfin & Hck & Hsize) Hstep.
  split; [eapply step_invariant; eassumption|].
  destruct l; try (unfold step in Hstep; rewrite Hp in Hstep; discriminate).
  - (* Completed *)
    exfalso. unfold step in Hstep. rewrite Hp in Hstep.
    destruct (completion (this w)) as [c|] eqn:Ec; [|discriminate].
    destruct (inv_completion _ Hinv c Ec) as (Hn & Hl & Hcount & Hr & _).
    rewrite Hck in Hn.
    assert (El : listening c = true).
    { rewrite Hl. apply negb_true_iff, Nat.eqb_neq. lia. }
    rewrite El, Hfin in Hcount. rewrite Hcount in Hr.
    replace (numChecks c <=? 0) with false in Hr
      by (symmetry; apply Nat.leb_gt; lia).
    rewrite Hr in Hstep. discriminate.
  - (* Message *)
    rewrite step_Message in Hstep. destruct (listenerInstalled _); [|discriminate].
    injection Hstep as <-.
    destruct (onMessage_frame topic message (this w)) as (q & Eq & _).
    cbn [this phase current set_this]. rewrite Eq.
    cbn [timeouts emitted checks set_queue]. auto 10.
  - (* QueueNext *)
    rewrite step_QueueNext, Hcur in Hstep.
    destruct (isPaused _); [discriminate|].
    destruct (pending _) as [|t rest]; [discriminate|].
    rewrite processMessage_skip in Hstep
      by (left; cbn [timeouts set_queue]; rewrite Hto; apply lookup_empty).
    injection Hstep as <-. unfold advance.
    cbn [this phase current timeouts emitted checks set_queue]. auto 10.
  - (* Settled *)
    rewrite step_Settled, Hcur in Hstep. discriminate.
  - (* TimerFired *)
    rewrite step_TimerFired in Hstep.
    destruct (timers (this w) !! t) as [[cb ms]|] eqn:Et; [|discriminate].
    injection Hstep as <-. destruct cb as [id c|].
    + pose proof (reg_owned _ (inv_registry _ Hinv) _ _ _ _ Et) as Hid.
      rewrite Hto, lookup_empty in Hid. discriminate.
    + cbn [this phase current set_this fire]. unfold schedulingDelayCallback.
      cbn [timeouts emitted checks set_schedulingDelayExceededTimeout].
      rewrite timeouts_emit, emitted_emit, checks_emit, countEvents_snoc.
      cbn [timeouts emitted checks set_timers isFinished].
      repeat split; auto. lia.
Qed.

Lemma stalled_exec batch ls w : stalled batch w -> stalled batch (exec ls w).
Proof.
  revert w. induction ls as [|l ls IH]; intros w Hw; [exact Hw|].
  cbn [exec foldl]. apply IH. destruct (step l w) as [w'|] eqn:E; cbn.
  - eapply stalled_step; eassumption.
  - exact Hw.
Qed.

(** C1: in every run ["finished"] is emitted only right after the
    ["failed"] or ["succeeded"] of the same check, every such event is
    followed by it, no check has two terminal events, a check with a
    terminal event has no timeout entry left (so neither its timer nor a
    later message can reach it again), and once ["run-finished"] is out
    every check of the batch has had its pair.  But ["finished"] is not
    always emitted: when the log fetch of a [run-end] is rejected, the
    timeout is already disabled and [processMessage] throws, and no
    continuation of that run emits ["finished"] for the check or
    ["run-finished"]. *)
Theorem finished_lifecycle (accountId : string) (timeout : Z)
  (verbose : bool) (ls : list Label) :
  let s := this (exec ls (start (constructor accountId timeout verbose))) in
  let tr := emitted s in
  (forall i check,
     tr !! i = Some (CHECK_FINISHED check) ->
     exists j ev id, i = S j /\ tr !! j = Some ev /\ terminalPair ev id check)
  /\ (forall i ev id check,
        tr !! i = Some ev -> terminalPair ev id check ->
        tr !! S i = Some (CHECK_FINISHED check))
  /\ NoDup (terminals tr)
  /\ countEvents isFinished tr = length (terminals tr)
  /\ (forall id,
        id ∈ terminals tr ->
        timeouts s !! id = None /\ is_Some (checks s !! id))
  /\ (0 < countEvents isRunFinished tr ->
      forall id, is_Some (checks s !! id) -> id ∈ terminals tr)
  /\ (forall ls',
        let w := exec (Sample.failedFetch ++ ls') Sample.fresh in
        is_Some (checks (this w) !! "c1")
        /\ timeouts (this w) !! "c1" = None
        /\ countEvents isFinished (emitted (this w)) = 0
        /\ countEvents isRunFinished (emitted (this w)) = 0).
Proof.
  intros s tr. unfold tr. clear tr.
  pose proof (invariant_reachable accountId timeout verbose ls) as Hinv.
  pose proof (inv_stream _ Hinv) as [H1 H2 H3 H4]. fold s in H1, H2, H3, H4.
  split; [apply paired_finished_preceded, H1|].
  split; [apply paired_terminal_followed, H1|].
  split; [exact H2|]. split; [apply paired_counts, H1|].
  split; [auto|]. split.
  - intros Hrun.
    pose proof (inv_phase _ Hinv) as Hph. unfold phase_ok in Hph.
    assert (Hres : exists c, completion s = Some c /\ resolved c = true).
    { fold s in Hph.
      destruct (phase _) as [| | | | |[|]|[|]];
        try (destruct Hph as (Hc & _); exact Hc);
        exfalso.
      1-4: destruct Hph as (_ & He & _);
           rewrite He in Hrun; cbn in Hrun; lia.
      1: destruct Hph as (_ & He & _); lia.
      1-2: destruct Hph as (_ & (e & He) & _);
           rewrite He in Hrun; cbn in Hrun; lia. }
    destruct Hres as (c & Hc & Hr).
    destruct (completion_counts s c (inv_completion _ Hinv) (inv_stream _ Hinv)
                Hc) as (Hn & Hiff).
    apply Hiff in Hr.
    rewrite (paired_counts _ H1), Hn in Hr.
    apply NoDup_covers; assumption.
  - intros ls'. rewrite exec_app.
    assert (Hst : stalled {[ "c1" := mkCheckEntry (JStr "homepage") (Some "tr1") ]}
                    (exec Sample.failedFetch Sample.fresh)).
    { split; [apply invariant_reachable|].
      split; [reflexivity|]. split; [reflexivity|]. split; [reflexivity|].
      split; [reflexivity|]. split; [reflexivity|].
      rewrite map_size_singleton. lia. }
    destruct (stalled_exec _ ls' _ Hst) as (Hinv' & Hp & Hto & _ & Hfin & Hck & _).
    rewrite Hck, Hto, Hfin.
    split; [rewrite lookup_singleton_eq; eauto|].
    split; [apply lookup_empty|]. split; [reflexivity|].
    pose proof (inv_phase _ Hinv') as Hph. unfold phase_ok in Hph.
    rewrite Hp in Hph. destruct Hph as (_ & Hrf & _). exact Hrf.
Qed.

(** * Instances on concrete runs *)

(** One check is armed: [run] has reached [await allChecksFinished];
    with the default timeout and with a timeout of 45 seconds. *)
Lemma check_timeout_fires_witness :
  let w := exec (Sample.running None [Sample.check1]) Sample.fresh in
  let w45 := exec (Sample.running None [Sample.check1])
               (start (constructor "acc" 45 false)) in
  timers (this w) !! 0
  = Some (CheckTimedOut "c1" (JStr "homepage"), 300000%Z)
  /\ (exists w',
        step (TimerFired 0) w = Some w'
        /\ emitted (this w')
           = (emitted (this w)
                ++ [CHECK_FAILED "c1" (JStr "homepage")
                      (JStr "Reached timeout of 300 seconds waiting for check result. Checkly may be experiencing problems. Please check https://is.checkly.online or reach out to support@checklyhq.com.");
                    CHECK_FINISHED (JStr "homepage")])%list)
  /\ (exists w',
        step (TimerFired 0) w45 = Some w'
        /\ emitted (this w')
           = (emitted (this w45)
                ++ [CHECK_FAILED "c1" (JStr "homepage")
                      (JStr "Reached timeout of 45 seconds waiting for check result.");
                    CHECK_FINISHED (JStr "homepage")])%list).
Proof.
  intros w w45. split; [reflexivity|]. split.
  - destruct (check_timeout_fires w 0 "c1" (JStr "homepage") 300000%Z eq_refl)
      as (w' & message & H1 & _ & _ & H4 & _ & _ & _ & _ & H9 & _).
    exists w'. split; [exact H1|].
    rewrite H4, (H9 eq_refl). reflexivity.
  - assert (Ht : timers (this w45) !! 0
                 = Some (CheckTimedOut "c1" (JStr "homepage"), 45000%Z))
      by (vm_compute; reflexivity).
    destruct (check_timeout_fires w45 0 "c1" (JStr "homepage") 45000%Z Ht)
      as (w' & message & H1 & _ & _ & H4 & H5 & _).
    exists w'. split; [exact H1|].
    assert (E : timeout (this w45) = 45%Z) by (vm_compute; reflexivity).
    rewrite E in H5. rewrite H4, H5; [reflexivity|vm_compute; discriminate].
Defined.

Lemma run_end_processing_witness :
  let s := this (exec (Sample.running (Some "sess") [Sample.check1])
                   Sample.fresh) in
  let env := fun c =>
    match c with
    | Assets_getLogs _ _ => Resolved (JStr "log lines")
    | TestSessions_getResultShortLinks _ _ =>
        Resolved (JObj [("data", JStr "https://chkly.link/l/abc")])
    | _ => Rejected JNull
    end in
  timeouts s !! "c1" = Some 0
  /\ exists s',
       complete env (processMessage "c1" "run-end" Sample.failedResult s)
       = ([Assets_getLogs (JStr "eu-west-1") (JStr "logs/1");
           TestSessions_getResultShortLinks "sess" "tr1"], s', inr tt)
       /\ timeouts s' !! "c1" = None.
Proof.
  intros s env. split; [reflexivity|].
  eexists. split.
  - apply (run_end_processing s "c1" 0
             (mkCheckEntry (JStr "homepage") (Some "tr1"))
             Sample.failedResult env (JStr "log lines") JNull);
      try reflexivity; intros H; discriminate H.
  - reflexivity.
Defined.

(** Without a test session no short links are fetched, though the check
    has a [testResultId] and the result reports failures. *)
Lemma run_end_short_links_need_session :
  let s := this (exec (Sample.running None [Sample.check1]) Sample.fresh) in
  let env := fun _ : ExtCall => Resolved JNull in
  let calls :=
    fst (fst (complete env
                (processMessage "c1" "run-end" Sample.failedResult s))) in
  (testResultId <$> checks s !! "c1") = Some (Some "tr1")
  /\ is_Some (timeouts s !! "c1")
  /\ ~ (existsb isShortLinksCall calls = true
        <-> truthy (ofOptString (Some "tr1")) = true
            /\ truthy (prop (prop Sample.failedResult "result") "hasFailures")
               = true).
Proof.
  intros s env calls. split; [reflexivity|]. split; [eexists; reflexivity|].
  intros [_ H]. specialize (H (conj eq_refl eq_refl)).
  vm_compute in H. discriminate H.
Defined.

Lemma processMessage_discards_witness :
  let s := constructor "acc" 300 false in
  timeouts s !! "c1" = None
  /\ processMessage "c1" "run-end" Sample.failedResult s = Returned s tt.
Proof.
  intros s. split; [reflexivity|].
  apply (proj1 (processMessage_discards "c1" "run-end" Sample.failedResult)).
  left. reflexivity.
Defined.

Lemma run_failure_witness :
  let w := exec (Sample.listening ++ [ScheduleFailed (JStr "503")])
             Sample.fresh in
  phase w = Closing false
  /\ timers (this w) = ∅
  /\ countEvents isError (emitted (this w)) = 1
  /\ countEvents isRunFinished (emitted (this w)) = 0
  /\ SocketClient_end ∈ calls w.
Proof.
  intros w.
  assert (Hp : phase w = Closing false) by (vm_compute; reflexivity).
  assert (Hs : is_Some (socketClient w)) by (vm_compute; eexists; reflexivity).
  destruct (run_failure "acc" 300 false
              (Sample.listening ++ [ScheduleFailed (JStr "503")]))
    as (_ & H2 & H3 & _).
  destruct (H2 (or_introl Hp)) as (_ & Ht & _ & He & Hr).
  split; [exact Hp|]. split; [exact Ht|]. split; [exact He|].
  split; [exact Hr|].
  exact (H3 false (or_introl Hp) Hs).
Defined.

Lemma completion_resolves_witness :
  let s := this (exec (Sample.running None [Sample.check1; Sample.check2]
                         ++ [TimerFired 0]) Sample.fresh) in
  completion s = Some (mkCompletionTracker 1 2 true 0 false)
  /\ countEvents isFinished (emitted s) = 1
  /\ size (checks s) = 2.
Proof.
  intros s. split; [reflexivity|]. split; [reflexivity|].
  destruct (completion_resolves "acc" 300 false
              (Sample.running None [Sample.check1; Sample.check2]
                 ++ [TimerFired 0])
              (mkCompletionTracker 1 2 true 0 false) eq_refl) as (H & _).
  symmetry. exact H.
Defined.



Lemma timeouts_within_checks_witness :
  let w := exec (Sample.running None [Sample.check1; Sample.check2])
             Sample.fresh in
  exists w',
    step (TimerFired 0) w = Some w'
    /\ dom (timeouts (this w')) ⊆ dom (timeouts (this w)).
Proof.
  intros w.
  destruct (timeouts_within_checks "acc" 300 false
              (Sample.running None [Sample.check1; Sample.check2]))
    as (_ & _ & _ & _ & H).
  destruct (step (TimerFired 0) w) as [w'|] eqn:E.
  - exists w'. split; [reflexivity|].
    apply (H (TimerFired 0)); [exact E|]. intros t c. discriminate.
  - exfalso. vm_compute in E. discriminate E.
Defined.

Lemma run_end_without_assets_throws_witness :
  let s := this (exec (Sample.running None [Sample.check1]) Sample.fresh) in
  timeouts s !! "c1" = Some 0
  /\ exists e,
       processMessage "c1" "run-end" Sample.bareResult s
       = Thrown (disableTimeout "c1" s) e.
Proof.
  intros s. split; [reflexivity|].
  apply (run_end_without_assets_throws s "c1" 0
           (mkCheckEntry (JStr "homepage") (Some "tr1")) Sample.bareResult);
    reflexivity.
Defined.

Lemma finished_lifecycle_witness :
  let s := this (exec (Sample.running None [Sample.check1] ++ [TimerFired 0])
                   Sample.fresh) in
  terminals (emitted s) = ["c1"]
  /\ timeouts s !! "c1" = None.
Proof.
  intros s. split; [reflexivity|].
  destruct (finished_lifecycle "acc" 300 false
              (Sample.running None [Sample.check1] ++ [TimerFired 0]))
    as (_ & _ & _ & _ & H & _).
  apply (H "c1"). apply (bool_decide_unpack _). vm_compute. exact I.
Defined.


(** * Further properties of the runner *)

(** ** The message handler *)






(** ** The checks map *)

Lemma newChecksMap_snoc cks c :
  newChecksMap (cks ++ [c])
  = <[sc_checkRunId c := entryOf c]> (newChecksMap cks).
Proof. unfold newChecksMap. rewrite foldl_app. reflexivity. Qed.

Lemma dom_newChecksMap cks :
  dom (newChecksMap cks) = list_to_set (sc_checkRunId <$> cks).
Proof.
  induction cks as [|c cks IH] using rev_ind.
  - unfold newChecksMap. cbn. apply dom_empty_L.
  - rewrite newChecksMap_snoc, dom_insert_L, IH, fmap_app, list_to_set_app_L.
    cbn [fmap list_fmap list_to_set].
    rewrite union_empty_r_L. apply (comm_L (∪)).
Qed.

(** [scheduleChecks] may return the same [checkRunId] more than once: the
    map keeps, for every id, the record of the last element with that id;
    so the batch has as many checks as there are distinct ids, and as many
    as the array is long exactly when no id is repeated. *)
Theorem newChecksMap_last_wins (cks : list ScheduledCheck) :
  (forall id,
     newChecksMap cks !! id
     = entryOf <$> last (List.filter
                           (fun c => String.eqb (sc_checkRunId c) id) cks))
  /\ size (newChecksMap cks)
     = size (list_to_set (sc_checkRunId <$> cks) : gset string)
  /\ size (newChecksMap cks) <= length cks
  /\ (NoDup (sc_checkRunId <$> cks) -> size (newChecksMap cks) = length cks).
Proof.
  split; [|split; [|split]].
  - intros id. induction cks as [|c cks IH] using rev_ind; [reflexivity|].
    rewrite newChecksMap_snoc, List.filter_app. cbn [List.filter].
    destruct (String.eqb_spec (sc_checkRunId c) id) as [<-|Hne].
    + rewrite lookup_insert_eq, last_snoc. reflexivity.
    + rewrite lookup_insert_ne by exact Hne. rewrite app_nil_r. exact IH.
  - rewrite <- dom_newChecksMap. symmetry. apply size_dom.
  - induction cks as [|c cks IH] using rev_ind; [reflexivity|].
    rewrite newChecksMap_snoc, length_app. cbn [length].
    destruct (newChecksMap cks !! sc_checkRunId c) eqn:E.
    + rewrite map_size_insert_Some by eauto. lia.
    + rewrite map_size_insert_None by exact E. lia.
  - induction cks as [|c cks IH] using rev_ind; intros Hnd; [reflexivity|].
    rewrite fmap_app in Hnd. apply NoDup_app in Hnd as (Hnd & Hfresh & _).
    rewrite newChecksMap_snoc, length_app. cbn [length].
    rewrite map_size_insert_None, (IH Hnd); [lia|].
    apply not_elem_of_dom. rewrite dom_newChecksMap.
    intros Hin. apply elem_of_list_to_set in Hin.
    apply (Hfresh _ Hin). cbn. apply list_elem_of_singleton. reflexivity.
Qed.

Lemma newChecksMap_last_wins_witness :
  let cks := [Sample.check1;
              mkScheduledCheck (JStr "homepage, again") "c1" None] in
  newChecksMap cks !! "c1" = Some (mkCheckEntry (JStr "homepage, again") None)
  /\ size (newChecksMap [Sample.check1; Sample.check2]) = 2.
Proof.
  intros cks. split.
  - rewrite (proj1 (newChecksMap_last_wins cks) "c1"). reflexivity.
  - apply (newChecksMap_last_wins [Sample.check1; Sample.check2]).
    apply (bool_decide_unpack _). vm_compute. exact I.
Defined.

(** ** Fetching short links and assets *)

(** [getShortLinks] settles with a value whatever the collaborator does:
    it never throws and never changes the runner; it makes at most one
    call, none without a test session; a rejected call, or a response
    that cannot be destructured, gives [undefined]. *)
Theorem getShortLinks_never_throws (env : ExtCall -> Outcome)
  (testResultId : string) (s : State) :
  let request :=
    TestSessions_getResultShortLinks (default EmptyString (testSessionId s))
      testResultId in
  exists calls links,
    complete env (getShortLinks testResultId s) = (calls, s, inr links)
    /\ (truthy (ofOptString (testSessionId s)) = false ->
        calls = [] /\ links = JUndefined)
    /\ (truthy (ofOptString (testSessionId s)) = true ->
        calls = [request]
        /\ links = match env request with
                   | Resolved response =>
                       if nullish response then JUndefined
                       else prop response "data"
                   | Rejected _ => JUndefined
                   end).
Proof.
  intros request. unfold getShortLinks, getProp. async_unfold.
  cbn [bindStep catchStep].
  destruct (truthy (ofOptString (testSessionId s)));
    cbn [negb bindStep catchStep complete].
  - fold request. destruct (env request) as [response|e];
      cbn [bindStep catchStep complete].
    + destruct (nullish response); cbn [bindStep catchStep complete];
        eexists _, _; (split; [reflexivity|]); split; intros H;
        try discriminate H; split; reflexivity.
    + eexists _, _; (split; [reflexivity|]); split; intros H;
        try discriminate H; split; reflexivity.
  - eexists _, _; (split; [reflexivity|]); split; intros H;
      try discriminate H; split; reflexivity.
Qed.

Lemma getShortLinks_never_throws_witness :
  exists calls links,
    complete (fun _ => Rejected (JStr "ETIMEDOUT"))
      (getShortLinks "tr1"
         (this (exec (Sample.running (Some "sess") [Sample.check1])
                  Sample.fresh)))
    = (calls,
       this (exec (Sample.running (Some "sess") [Sample.check1]) Sample.fresh),
       inr links)
    /\ links = JUndefined.
Proof.
  destruct (getShortLinks_never_throws (fun _ => Rejected (JStr "ETIMEDOUT"))
              "tr1"
              (this (exec (Sample.running (Some "sess") [Sample.check1])
                       Sample.fresh)))
    as (calls & links & H1 & _ & H3).
  exists calls, links. split; [exact H1|]. apply H3. reflexivity.
Defined.

(** [processCheckResult] never changes the runner and makes at most two
    calls, the logs first.  When it returns, the result differs from the
    one it was given in [logs] and [checkRunData] at most.  When it throws,
    either the result had no [assets], or the last call it made was
    rejected with what it throws: nothing is fetched after a failed
    fetch. *)
Theorem processCheckResult_enriches (env : ExtCall -> Outcome)
  (result : JSValue) (s s' : State) (calls : list ExtCall)
  (r : JSValue + JSValue) :
  complete env (processCheckResult result s) = (calls, s', r) ->
  s' = s
  /\ length calls <= 2
  /\ (forall result',
        r = inr result' ->
        forall k, k <> "logs" -> k <> "checkRunData" ->
                  prop result' k = prop result k)
  /\ (forall e,
        r = inl e ->
        nullish (prop result "assets") = true
        \/ exists c, last calls = Some c /\ env c = Rejected e).
Proof.
  unfold processCheckResult, getProp. async_unfold.
  destruct (nullish result) eqn:Er; cbn [bindStep complete].
  { intros H. injection H as <- <- <-. repeat split; [cbn; lia|discriminate|].
    intros e _. left. rewrite (prop_nullish _ _ Er). reflexivity. }
  destruct (nullish (prop result "assets")) eqn:Ea; cbn [bindStep complete].
  { intros H. injection H as <- <- <-. repeat split; [cbn; lia|discriminate|].
    intros e _. left. reflexivity. }
  destruct (truthy (prop (prop result "assets") "logPath")
            && (verbose s || truthy (prop result "hasFailures")));
    cbn [bindStep complete].
  - destruct (env (Assets_getLogs _ _)) as [logs|e1] eqn:El;
      cbn [bindStep complete].
    2:{ intros H. injection H as <- <- <-.
        repeat split; [cbn; lia|discriminate|].
        intros e He. injection He as <-. right. eexists. split; [reflexivity|].
        exact El. }
    destruct (truthy (prop (prop result "assets") "checkRunDataPath")
              && (verbose s
                  || truthy (prop (setProp result "logs" logs) "hasFailures")));
      cbn [bindStep complete].
    + destruct (env (Assets_getCheckRunData _ _)) as [data|e2] eqn:Ed;
        cbn [bindStep complete]; intros H; injection H as <- <- <-;
        repeat split; try (cbn; lia); try discriminate.
      * intros result' Hr k Hk1 Hk2. injection Hr as <-.
        rewrite !prop_setProp_ne by congruence. reflexivity.
      * intros e He. injection He as <-. right. eexists.
        split; [reflexivity|]. exact Ed.
    + intros H; injection H as <- <- <-;
        repeat split; try (cbn; lia); try discriminate.
      intros result' Hr k Hk1 Hk2. injection Hr as <-.
      rewrite !prop_setProp_ne by congruence. reflexivity.
  - destruct (truthy (prop (prop result "assets") "checkRunDataPath")
              && (verbose s || truthy (prop result "hasFailures")));
      cbn [bindStep complete].
    + destruct (env (Assets_getCheckRunData _ _)) as [data|e2] eqn:Ed;
        cbn [bindStep complete]; intros H; injection H as <- <- <-;
        repeat split; try (cbn; lia); try discriminate.
      * intros result' Hr k Hk1 Hk2. injection Hr as <-.
        rewrite !prop_setProp_ne by congruence. reflexivity.
      * intros e He. injection He as <-. right. eexists.
        split; [reflexivity|]. exact Ed.
    + intros H; injection H as <- <- <-;
        repeat split; try (cbn; lia); try discriminate.
      intros result' Hr k Hk1 Hk2. injection Hr as <-. reflexivity.
Qed.

Lemma processCheckResult_enriches_witness :
  let s := constructor "acc" 300 true in
  let result := prop Sample.failedResult "result" in
  complete (fun _ => Resolved (JStr "log lines")) (processCheckResult result s)
  = ([Assets_getLogs (JStr "eu-west-1") (JStr "logs/1")], s,
     inr (setProp result "logs" (JStr "log lines")))
  /\ prop (setProp result "logs" (JStr "log lines")) "hasFailures"
     = prop result "hasFailures".
Proof.
  intros s result. split; [reflexivity|].
  destruct (processCheckResult_enriches (fun _ => Resolved (JStr "log lines"))
              result s s [Assets_getLogs (JStr "eu-west-1") (JStr "logs/1")]
              (inr (setProp result "logs" (JStr "log lines"))) eq_refl)
    as (_ & _ & H & _).
  apply (H _ eq_refl); discriminate.
Defined.

(** ** The subtopics of a message *)

Lemma processMessage_cases id subtopic message s h entry :
  timeouts s !! id = Some h -> checks s !! id = Some entry ->
  (subtopic = "run-start"
   /\ processMessage id subtopic message s
      = Returned (emit (CHECK_INPROGRESS (check entry) id) s) tt)
  \/ subtopic = "run-end"
  \/ (subtopic = "error"
      /\ processMessage id subtopic message s
         = Returned
             (emit (CHECK_FINISHED (check entry))
                (emit (CHECK_FAILED id (check entry) message)
                   (disableTimeout id s))) tt)
  \/ (subtopic <> "run-start" /\ subtopic <> "run-end" /\ subtopic <> "error"
      /\ processMessage id subtopic message s = Returned s tt).
Proof.
  intros Ht Hc. unfold processMessage. async_unfold.
  cbn -[disableTimeout emit getProp processCheckResult getShortLinks String.eqb].
  rewrite Ht, Hc.
  cbn -[disableTimeout emit getProp processCheckResult getShortLinks String.eqb].
  destruct (String.eqb_spec subtopic "run-start") as [->|H1];
    [left; split; reflexivity|].
  destruct (String.eqb_spec subtopic "run-end") as [->|H2];
    [right; left; reflexivity|].
  destruct (String.eqb_spec subtopic "error") as [->|H3];
    [right; right; left; split; reflexivity|].
  right; right; right. repeat split; assumption.
Qed.

(** Only [run-end] and [error] resolve a check.  In any state a run can
    reach, a message on another subtopic returns at once and leaves the
    timeout registry, the timers of the checks and the checks map as they
    are and adds no terminal event: [run-start] for an active, known check
    only emits ["in-progress"] with the check's payload, and any other
    subtopic does nothing at all. *)
Theorem other_subtopics_resolve_nothing (accountId : string) (timeout : Z)
  (verbose : bool) (ls : list Label) (id subtopic : string)
  (message : JSValue) :
  let s := this (exec ls (start (constructor accountId timeout verbose))) in
  subtopic <> "run-end" -> subtopic <> "error" ->
  exists s',
    processMessage id subtopic message s = Returned s' tt
    /\ timeouts s' = timeouts s /\ checks s' = checks s
    /\ (forall id' h, timeouts s !! id' = Some h ->
                      timers s' !! h = timers s !! h)
    /\ terminals (emitted s') = terminals (emitted s)
    /\ (subtopic <> "run-start" -> s' = s)
    /\ (subtopic = "run-start" ->
        forall h entry,
          timeouts s !! id = Some h -> checks s !! id = Some entry ->
          emitted s' = (emitted s ++ [CHECK_INPROGRESS (check entry) id])%list).
Proof.
  intros s Hre Her.
  pose proof (inv_registry _ (invariant_reachable accountId timeout verbose ls))
    as Hreg. fold s in Hreg.
  assert (Hskip : processMessage id subtopic message s = Returned s tt ->
                  (timeouts s !! id = None \/ checks s !! id = None
                   \/ subtopic <> "run-start") ->
                  exists s',
                    processMessage id subtopic message s = Returned s' tt
                    /\ timeouts s' = timeouts s /\ checks s' = checks s
                    /\ (forall id' h, timeouts s !! id' = Some h ->
                                      timers s' !! h = timers s !! h)
                    /\ terminals (emitted s') = terminals (emitted s)
                    /\ (subtopic <> "run-start" -> s' = s)
                    /\ (subtopic = "run-start" ->
                        forall h entry,
                          timeouts s !! id = Some h ->
                          checks s !! id = Some entry ->
                          emitted s'
                          = (emitted s
                               ++ [CHECK_INPROGRESS (check entry) id])%list)).
  { intros E Hwhy. exists s. repeat split; auto.
    intros Hs h entry Ht Hc. destruct Hwhy as [H|[H|H]]; congruence. }
  destruct (timeouts s !! id) as [h|] eqn:Eto.
  2:{ apply Hskip; [apply processMessage_skip|]; auto. }
  destruct (checks s !! id) as [entry|] eqn:Eck.
  2:{ apply Hskip; [apply processMessage_skip|]; auto. }
  destruct (processMessage_cases id subtopic message s h entry Eto Eck)
    as [[-> E]|[->|[[-> E]|(H1 & _ & _ & E)]]]; try contradiction.
  - exists (emit (CHECK_INPROGRESS (check entry) id) s).
    split; [exact E|]. split; [apply timeouts_emit|].
    split; [apply checks_emit|]. split; [|split; [|split]].
    + intros id' h' Hid'.
      destruct (timers_emit_inProgress (check entry) id s) as [Et|(hs & Hs & Et)];
        rewrite Et; [reflexivity|].
      apply lookup_delete_ne. intros <-.
      destruct (reg_armed _ Hreg _ _ Hid') as (entry' & _ & Ht').
      pose proof (reg_handle _ Hreg _ _ Hs Ht') as Hsd. discriminate Hsd.
    + rewrite emitted_emit. apply terminals_snoc_other. reflexivity.
    + intros Hne. contradiction.
    + intros _ h' entry' Hh' He'. injection He' as <-. apply emitted_emit.
  - apply Hskip; auto.
Qed.

Lemma other_subtopics_resolve_nothing_witness :
  let s := this (exec (Sample.running None [Sample.check1]) Sample.fresh) in
  exists s',
    processMessage "c1" "run-start" JNull s = Returned s' tt
    /\ timeouts s' !! "c1" = Some 0
    /\ emitted s' = (emitted s ++ [CHECK_INPROGRESS (JStr "homepage") "c1"])%list.
Proof.
  intros s.
  destruct (other_subtopics_resolve_nothing "acc" 300 false
              (Sample.running None [Sample.check1]) "c1" "run-start" JNull)
    as (s' & H1 & H2 & _ & _ & _ & _ & H7); [discriminate|discriminate|].
  exists s'. split; [exact H1|]. split.
  - rewrite H2. reflexivity.
  - apply (H7 eq_refl 0 (mkCheckEntry (JStr "homepage") (Some "tr1")));
      reflexivity.
Defined.

(** An [error] message for an active check fails it at once, without any
    call to a collaborator: the queue's step emits ["failed"] with the raw
    message and then ["finished"], removes the check's timeout entry and
    cancels its timer, which therefore cannot fire any more, and leaves no
    task running. *)
Theorem error_message_fails_check (accountId : string) (timeout : Z)
  (verbose : bool) (ls : list Label) (id : string) (message : JSValue)
  (rest : list Task) (h : nat) :
  let w := exec ls (start (constructor accountId timeout verbose)) in
  current w = None -> isPaused (queue (this w)) = false ->
  pending (queue (this w)) = mkTask id "error" message :: rest ->
  timeouts (this w) !! id = Some h ->
  exists entry w',
    checks (this w) !! id = Some entry
    /\ step QueueNext w = Some w'
    /\ emitted (this w')
       = (emitted (this w)
            ++ [CHECK_FAILED id (check entry) message;
                CHECK_FINISHED (check entry)])%list
    /\ timeouts (this w') = delete id (timeouts (this w))
    /\ timers (this w') = delete h (timers (this w))
    /\ pending (queue (this w')) = rest
    /\ current w' = None /\ calls w' = calls w
    /\ rejections w' = rejections w
    /\ step (TimerFired h) w' = None.
Proof.
  intros w Hcur Hq Hp Hid.
  pose proof (inv_registry _ (invariant_reachable accountId timeout verbose ls))
    as Hreg. fold w in Hreg.
  destruct (reg_armed _ Hreg _ _ Hid) as (entry & He & _).
  set (s := set_queue (mkPQueue false rest) (this w)).
  assert (E : processMessage id "error" message s
              = Returned
                  (emit (CHECK_FINISHED (check entry))
                     (emit (CHECK_FAILED id (check entry) message)
                        (disableTimeout id s))) tt).
  { destruct (processMessage_cases id "error" message s h entry Hid He)
      as [[H _]|[H|[[_ E]|(_ & _ & H & _)]]];
      [discriminate H|discriminate H|exact E|contradiction]. }
  exists entry. eexists. split; [exact He|]. split.
  { rewrite step_QueueNext, Hcur, Hq, Hp.
    cbn [task_checkRunId task_subtopic task_message]. fold s. rewrite E.
    reflexivity. }
  unfold advance. cbn [this current calls rejections].
  rewrite !emitted_emit, !timeouts_emit, !timers_emit, !queue_emit by reflexivity.
  rewrite emitted_disableTimeout, timeouts_disableTimeout,
    timers_disableTimeout, queue_disableTimeout.
  assert (Hts : timeouts s = timeouts (this w)) by reflexivity.
  assert (Htm : timers s = timers (this w)) by reflexivity.
  assert (Hem : emitted s = emitted (this w)) by reflexivity.
  rewrite Hts, Htm, Hem, Hid.
  repeat split; try reflexivity.
  - rewrite <- app_assoc. reflexivity.
  - rewrite step_TimerFired. cbn [this].
    rewrite !timers_emit, timers_disableTimeout by reflexivity.
    rewrite Hts, Htm, Hid, lookup_delete_eq. reflexivity.
Qed.

Lemma error_message_fails_check_witness :
  let w := exec (Sample.running None [Sample.check1]
                   ++ [Message (Sample.topic "c1" "error") (JStr "crashed")])
             Sample.fresh in
  exists w',
    step QueueNext w = Some w'
    /\ emitted (this w')
       = (emitted (this w)
            ++ [CHECK_FAILED "c1" (JStr "homepage") (JStr "crashed");
                CHECK_FINISHED (JStr "homepage")])%list
    /\ step (TimerFired 0) w' = None.
Proof.
  intros w.
  destruct (error_message_fails_check "acc" 300 false
              (Sample.running None [Sample.check1]
                 ++ [Message (Sample.topic "c1" "error") (JStr "crashed")])
              "c1" (JStr "crashed") [] 0)
    as (entry & w' & H1 & H2 & H3 & _ & _ & _ & _ & _ & _ & H10);
    try (vm_compute; reflexivity).
  assert (He : entry = mkCheckEntry (JStr "homepage") (Some "tr1")).
  { vm_compute in H1. injection H1 as <-. reflexivity. }
  subst entry. exists w'. split; [exact H2|]. split; [exact H3|exact H10].
Defined.

(** ** The registry and the timers *)

(** The class leaks no timer.  In every state a run can reach, the entries
    of [this.timeouts] and the pending check timers correspond one to one:
    an entry holds the handle of a pending timer armed for that check, with
    the check's own record and [this.timeout * 1000] ms, no two checks
    share a handle, and every pending timer is either the registered timer
    of a check or the scheduling-delay timer, armed with 20000 ms and held
    in [schedulingDelayExceededTimeout]. *)
Theorem registry_matches_timers (accountId : string) (seconds : Z)
  (verbose : bool) (ls : list Label) :
  let s := this (exec ls (start (constructor accountId seconds verbose))) in
  (forall id h,
     timeouts s !! id = Some h <->
     exists entry,
       checks s !! id = Some entry
       /\ timers s !! h
          = Some (CheckTimedOut id (check entry), (timeout s * 1000)%Z))
  /\ (forall id1 id2 h,
        timeouts s !! id1 = Some h -> timeouts s !! id2 = Some h -> id1 = id2)
  /\ (forall h cb ms,
        timers s !! h = Some (cb, ms) ->
        (exists id entry,
           timeouts s !! id = Some h /\ checks s !! id = Some entry
           /\ cb = CheckTimedOut id (check entry)
           /\ ms = (timeout s * 1000)%Z)
        \/ (cb = SchedulingDelayExceeded
            /\ schedulingDelayExceededTimeout s = Some h
            /\ ms = DEFAULT_SCHEDULING_DELAY_EXCEEDED_MS)).
Proof.
  intros s.
  pose proof (invariant_reachable accountId seconds verbose ls) as Hinv.
  pose proof (inv_registry _ Hinv) as Hreg.
  pose proof (inv_monitor _ Hinv) as Hmon.
  fold s in Hreg, Hmon. split; [|split].
  - intros id h. split.
    + apply (reg_armed _ Hreg).
    + intros (entry & _ & Ht). eapply (reg_owned _ Hreg). exact Ht.
  - intros id1 id2 h H1 H2.
    destruct (reg_armed _ Hreg _ _ H1) as (e1 & _ & T1).
    destruct (reg_armed _ Hreg _ _ H2) as (e2 & _ & T2).
    congruence.
  - intros h [id c|] ms Ht.
    + left. pose proof (reg_owned _ Hreg _ _ _ _ Ht) as Hid.
      destruct (reg_armed _ Hreg _ _ Hid) as (entry & Hc & Ht').
      exists id, entry. rewrite Ht in Ht'. injection Ht' as -> ->. auto.
    + right. pose proof (reg_delay _ Hreg _ _ Ht) as Hsd.
      split; [reflexivity|]. split; [exact Hsd|].
      unfold monitor_ok in Hmon. destruct (monitor s) as [m|].
      * destruct Hmon as (_ & _ & _ & Hif).
        destruct (_ && _).
        -- destruct Hif as (h' & Hsd' & Ht'). congruence.
        -- specialize (Hif _ _ Ht). discriminate Hif.
      * destruct Hmon as (Hno & _). specialize (Hno _ _ Ht). discriminate Hno.
Qed.

Lemma registry_matches_timers_witness :
  let s := this (exec (Sample.running None [Sample.check1]) Sample.fresh) in
  timers s !! 0 = Some (CheckTimedOut "c1" (JStr "homepage"), 300000%Z)
  /\ timeouts s !! "c1" = Some 0.
Proof.
  intros s. split; [vm_compute; reflexivity|].
  apply (proj1 (registry_matches_timers "acc" 300 false
                  (Sample.running None [Sample.check1])) "c1" 0).
  exists (mkCheckEntry (JStr "homepage") (Some "tr1")).
  split; vm_compute; reflexivity.
Defined.

(** ** The event stream of a run *)

Lemma testSessionId_disableTimeout key s :
  testSessionId (disableTimeout key s) = testSessionId s.
Proof. unfold disableTimeout, clearTimeout. destruct (_ !! _); reflexivity. Qed.

Lemma testSessionId_setAllTimeouts s :
  testSessionId (setAllTimeouts s) = testSessionId s.
Proof.
  unfold setAllTimeouts. generalize (map_to_list (checks s)). intros l.
  revert s. induction l as [|e l IH]; intros s; [reflexivity|].
  cbn [foldl]. rewrite IH. reflexivity.
Qed.


Lemma testSessionId_arming s :
  testSessionId (allChecksFinished (startSchedulingDelayTimeout s))
  = testSessionId s.
Proof.
  unfold allChecksFinished, startSchedulingDelayTimeout.
  destruct (size (checks s) =? 0) eqn:E; [rewrite E; reflexivity|].
  cbn [setTimeout checks set_monitor set_schedulingDelayExceededTimeout
         set_timers set_nextTimeout].
  rewrite E. reflexivity.
Qed.


Lemma testSessionId_run_scheduled tsid cks s :
  testSessionId (run_scheduled tsid cks s) = tsid.
Proof.
  unfold run_scheduled, queue_start. cbn [testSessionId set_queue].
  rewrite testSessionId_emit, testSessionId_arming,
    testSessionId_setAllTimeouts.
  reflexivity.
Qed.


Lemma phase_advance st w : phase (advance st w) = phase w.
Proof. destruct st; reflexivity. Qed.

Lemma extends_from s s' w' :
  checks s' = checks s -> testSessionId s' = testSessionId s ->
  emitted s' = emitted s -> extends s' w' -> extends s w'.
Proof.
  unfold extends. intros E1 E2 E3. rewrite E1, E2, E3. auto.
Qed.

Lemma extends_emits s w' evs :
  checks (this w') = checks s -> testSessionId (this w') = testSessionId s ->
  emitted (this w') = (emitted s ++ evs)%list ->
  Forall (bodyEvent (checks s) (testSessionId s)) evs ->
  extends s w'.
Proof. unfold extends. eauto. Qed.

Lemma extends_same s w' :
  checks (this w') = checks s -> testSessionId (this w') = testSessionId s ->
  emitted (this w') = emitted s -> extends s w'.
Proof.
  intros E1 E2 E3. apply (extends_emits s w' []); auto.
  rewrite app_nil_r. exact E3.
Qed.

Lemma bodyEvent_failed_finished cks tsid id entry message :
  cks !! id = Some entry ->
  Forall (bodyEvent cks tsid)
    [CHECK_FAILED id (check entry) message; CHECK_FINISHED (check entry)].
Proof.
  intros Hc.
  constructor; [left; cbn [checkEvent]; eauto|]. constructor; [left; cbn [checkEvent]; eauto|].
  constructor.
Qed.

Lemma advance_tail_extends id entry s st w :
  checks s !! id = Some entry -> run_end_tail id (check entry) s st ->
  extends s (advance st w).
Proof.
  intros Hc Ht. revert Hc.
  destruct Ht as [s0 result links|s0 e|s0 c k Hk]; intros Hc; unfold advance.
  - apply (extends_emits _ _ [CHECK_SUCCESSFUL id (check entry) result links;
                              CHECK_FINISHED (check entry)]); cbn [this].
    + rewrite !checks_emit. reflexivity.
    + rewrite !testSessionId_emit. reflexivity.
    + rewrite !emitted_emit, <- app_assoc. reflexivity.
    + constructor; [left; cbn [checkEvent]; eauto|]. constructor; [left; cbn [checkEvent]; eauto|].
      constructor.
  - apply extends_same; reflexivity.
  - apply extends_same; reflexivity.
Qed.

(** What a step of the event loop adds to the stream once [run] awaits
    the completion of the batch. *)
Lemma late_step_effect l w w' :
  invariant w -> late (phase w) -> step l w = Some w' ->
  late (phase w') /\ extends (this w) w'.
Proof.
  intros Hinv Hlate Hstep.
  pose proof (inv_registry _ Hinv) as Hreg.
  pose proof (inv_current _ Hinv) as Hcur.
  destruct l.
  1-7: unfold step in Hstep;
       destruct (phase w) as [| | | | |[|]|[|]]; try discriminate Hstep;
       destruct Hlate.
  - (* Completed *)
    unfold step in Hstep.
    destruct (phase w) as [| | | | |[|]|[|]]; try discriminate Hstep.
    destruct (completion (this w)) as [c|]; [|discriminate Hstep].
    destruct (resolved c); [|discriminate Hstep].
    injection Hstep as <-. unfold run_finally. cbn [socketClient set_this].
    destruct (socketClient w); (split; [exact I|]);
      apply (extends_emits _ _ [RUN_FINISHED (testSessionId (this w))]);
      cbn [this set_phase call set_this];
      rewrite ?checks_emit, ?testSessionId_emit, ?emitted_emit;
      try reflexivity; (constructor; [right; reflexivity|constructor]).
  - (* SocketEnded *)
    unfold step in Hstep.
    destruct (phase w) as [| | | | |[|]|[|]]; try discriminate Hstep;
      try destruct Hlate; injection Hstep as <-;
      (split; [exact I|apply extends_same; reflexivity]).
  - (* Message *)
    rewrite step_Message in Hstep.
    destruct (listenerInstalled (phase w)); [|discriminate Hstep].
    injection Hstep as <-.
    destruct (onMessage_frame topic message (this w)) as (q & E & _).
    split; [exact Hlate|]. cbn [this set_this]. 
    apply extends_same; cbn [this set_this]; rewrite E; reflexivity.
  - (* QueueNext *)
    rewrite step_QueueNext in Hstep.
    destruct (current w); [discriminate Hstep|].
    destruct (isPaused (queue (this w))); [discriminate Hstep|].
    destruct (pending (queue (this w))) as [|[id subtopic message] rest];
      [discriminate Hstep|].
    injection Hstep as <-.
    cbn [task_checkRunId task_subtopic task_message].
    split; [rewrite phase_advance; exact Hlate|].
    set (s := set_queue (mkPQueue false rest) (this w)).
    apply (extends_from (this w) s); try reflexivity.
    assert (Hplain : extends s (advance (Returned s tt) w)).
    { apply extends_same; reflexivity. }
    destruct (timeouts s !! id) as [h|] eqn:Eto.
    2:{ rewrite (processMessage_skip id subtopic message s (or_introl Eto)).
        exact Hplain. }
    destruct (checks s !! id) as [entry|] eqn:Eck.
    2:{ rewrite (processMessage_skip id subtopic message s (or_intror Eck)).
        exact Hplain. }
    destruct (processMessage_cases id subtopic message s h entry Eto Eck)
      as [[-> E]|[->|[[-> E]|(_ & _ & _ & E)]]]; rewrite ?E.
    + apply (extends_emits _ _ [CHECK_INPROGRESS (check entry) id]);
        unfold advance; cbn [this].
      * apply checks_emit.
      * apply testSessionId_emit.
      * apply emitted_emit.
      * constructor; [left; cbn [checkEvent]; eauto|constructor].
    + apply (extends_from s (disableTimeout id s)).
      * apply checks_disableTimeout.
      * apply testSessionId_disableTimeout.
      * apply emitted_disableTimeout.
      * apply (advance_tail_extends id entry).
        -- rewrite checks_disableTimeout. exact Eck.
        -- eapply processMessage_run_end_tail; eassumption.
    + apply (extends_emits _ _ [CHECK_FAILED id (check entry) message;
                                CHECK_FINISHED (check entry)]);
        unfold advance; cbn [this].
      * rewrite !checks_emit. apply checks_disableTimeout.
      * rewrite !testSessionId_emit. apply testSessionId_disableTimeout.
      * rewrite !emitted_emit, emitted_disableTimeout, <- app_assoc.
        reflexivity.
      * apply bodyEvent_failed_finished. exact Eck.
    + exact Hplain.
  - (* Settled *)
    rewrite step_Settled in Hstep.
    destruct (current w) as [[c k]|] eqn:Ecur; [|discriminate Hstep].
    injection Hstep as <-.
    split; [rewrite phase_advance; exact Hlate|].
    unfold current_ok in Hcur. rewrite Ecur in Hcur.
    destruct Hcur as (id & entry & Hck & _ & _ & Hk).
    apply (advance_tail_extends id entry); [exact Hck|apply Hk].
  - (* TimerFired *)
    rewrite step_TimerFired in Hstep.
    destruct (timers (this w) !! t) as [[callback ms]|] eqn:Et;
      [|discriminate Hstep].
    injection Hstep as <-. split; [exact Hlate|].
    destruct callback as [id c|].
    + pose proof (reg_owned _ Hreg _ _ _ _ Et) as Hid.
      destruct (reg_armed _ Hreg _ _ Hid) as (entry & Hentry & Ht').
      rewrite Et in Ht'. injection Ht' as -> _.
      apply (extends_emits _ _
               [CHECK_FAILED id (check entry)
                  (JStr (timeoutErrorMessage (timeout (this w))));
                CHECK_FINISHED (check entry)]);
        cbn [this set_this]; rewrite ?(fire_check_eq _ _ _ _ Hid).
      * rewrite !checks_emit. apply checks_disableTimeout.
      * rewrite !testSessionId_emit. apply testSessionId_disableTimeout.
      * rewrite !emitted_emit, emitted_disableTimeout, <- app_assoc.
        reflexivity.
      * apply bodyEvent_failed_finished. exact Hentry.
    + apply (extends_emits _ _ [MAX_SCHEDULING_DELAY_EXCEEDED]);
        cbn [this set_this fire]; unfold schedulingDelayCallback;
        cbn [checks testSessionId emitted set_schedulingDelayExceededTimeout].
      * rewrite checks_emit. reflexivity.
      * rewrite testSessionId_emit. reflexivity.
      * rewrite emitted_emit. reflexivity.
      * constructor; [left; exact I|constructor].
Qed.

(** The only step that takes [run] past [scheduleChecks] is its return. *)
Lemma step_becomes_late l w w' :
  step l w = Some w' -> late (phase w') ->
  late (phase w)
  \/ exists tsid cks,
       l = Scheduled tsid cks /\ phase w = Scheduling
       /\ this w' = run_scheduled tsid cks (this w).
Proof.
  intros Hstep Hlate'. destruct l.
  1-9: unfold step in Hstep;
       destruct (phase w) as [| | | | |[|]|[|]] eqn:Ep;
       try discriminate Hstep; try (left; exact I);
       try (injection Hstep as <-; cbn in Hlate'; try destruct Hlate';
            right; eauto; fail).
  - unfold run_throw, run_finally in Hstep. cbn [socketClient set_this] in Hstep.
    injection Hstep as <-. destruct (socketClient w); destruct Hlate'.
  - unfold run_throw, run_finally in Hstep. cbn [socketClient set_this] in Hstep.
    injection Hstep as <-. destruct (socketClient w); destruct Hlate'.
  - unfold run_throw, run_finally in Hstep. cbn [socketClient set_this] in Hstep.
    injection Hstep as <-. destruct (socketClient w); destruct Hlate'.
  - left. rewrite step_Message in Hstep.
    destruct (listenerInstalled (phase w)); [|discriminate Hstep].
    injection Hstep as <-. exact Hlate'.
  - left. rewrite step_QueueNext in Hstep.
    destruct (current w); [discriminate Hstep|].
    destruct (isPaused _); [discriminate Hstep|].
    destruct (pending _); [discriminate Hstep|].
    injection Hstep as <-. rewrite phase_advance in Hlate'. exact Hlate'.
  - left. rewrite step_Settled in Hstep.
    destruct (current w) as [[c k]|]; [|discriminate Hstep].
    injection Hstep as <-. rewrite phase_advance in Hlate'. exact Hlate'.
  - left. rewrite step_TimerFired in Hstep.
    destruct (timers (this w) !! t) as [[cb ms]|]; [|discriminate Hstep].
    injection Hstep as <-. exact Hlate'.
Qed.

Lemma shape_step l w w' :
  invariant w -> shape w -> step l w = Some w' -> shape w'.
Proof.
  intros Hinv Hsh Hstep Hlate'.
  destruct (step_becomes_late _ _ _ Hstep Hlate')
    as [Hlate|(tsid & cks & -> & Ep & E)].
  - destruct (late_step_effect _ _ _ Hinv Hlate Hstep)
      as (_ & Hc & Hts & evs & Hem & Hall).
    destruct (Hsh Hlate) as (scheduled & body & E1 & E2 & E3).
    exists scheduled, (body ++ evs)%list. rewrite Hem, E1, Hts, Hc.
    split; [reflexivity|]. split; [exact E2|].
    apply Forall_app. split; assumption.
  - pose proof (inv_phase _ Hinv) as Hph. unfold phase_ok in Hph.
    rewrite Ep in Hph. destruct Hph as (Hpr & Hem & _).
    destruct (run_scheduled_ok tsid cks (this w) Hpr Hem)
      as (_ & _ & Hem' & Hck' & _).
    exists cks, []. rewrite E, Hem', Hck', testSessionId_run_scheduled.
    split; [reflexivity|]. split; [reflexivity|constructor].
Qed.

Lemma shape_exec ls w :
  invariant w -> shape w -> invariant (exec ls w) /\ shape (exec ls w).
Proof.
  revert w. induction ls as [|l ls IH]; intros w Hinv Hsh; [auto|].
  cbn [exec foldl]. destruct (step l w) as [w'|] eqn:E; cbn [default].
  - apply IH; [eapply step_invariant|eapply shape_step]; eassumption.
  - apply IH; assumption.
Qed.

Lemma shape_reachable accountId seconds verbose ls :
  shape (exec ls (start (constructor accountId seconds verbose))).
Proof.
  apply shape_exec; [apply invariant_start|]. intros [].
Qed.

Lemma bodyEvent_counts cks tsid body :
  Forall (bodyEvent cks tsid) body ->
  countEvents isRunStarted body = 0 /\ countEvents isError body = 0.
Proof.
  unfold countEvents. induction 1 as [|ev body Hev _ [IH1 IH2]]; [auto|].
  cbn [List.filter].
  destruct Hev as [Hev| ->]; [|auto].
  destruct ev; cbn in Hev; try contradiction; auto.
Qed.

(** The stream of a run has one of three forms.  Until [scheduleChecks]
    has returned nothing is emitted.  A run that failed has emitted
    ["error"] and nothing else.  Otherwise the stream starts with
    ["run-started"], carrying the array and the session id returned by
    [scheduleChecks], of which [this.checks] is the map; every later event
    is about a check of that map and carries the check registered under
    its id, or is the scheduling-delay warning, or is ["run-finished"] with
    the same session id, which is emitted at most once: ["run-started"] is
    never repeated and ["error"] never follows it. *)
Theorem event_stream_shape (accountId : string) (seconds : Z)
  (verbose : bool) (ls : list Label) :
  let w := exec ls (start (constructor accountId seconds verbose)) in
  let s := this w in
  match phase w with
  | Idle | Connecting | Subscribing | Scheduling => emitted s = []
  | Closing false | Ended false => exists err, emitted s = [ERROR err]
  | p =>
      exists scheduled body,
        emitted s = RUN_STARTED scheduled (testSessionId s) :: body
        /\ checks s = newChecksMap scheduled
        /\ Forall (bodyEvent (checks s) (testSessionId s)) body
        /\ countEvents isRunFinished body
           = match p with Waiting => 0 | _ => 1 end
        /\ countEvents isRunStarted body = 0
        /\ countEvents isError body = 0
  end.
Proof.
  intros w s.
  pose proof (invariant_reachable accountId seconds verbose ls) as Hinv.
  pose proof (shape_reachable accountId seconds verbose ls) as Hsh.
  pose proof (inv_phase _ Hinv) as Hph. fold w in Hinv, Hsh, Hph.
  unfold phase_ok in Hph. unfold shape in Hsh. fold s in Hsh, Hph.
  destruct (phase w) as [| | | | |[|]|[|]];
    try (destruct Hph as (_ & Hem & _); exact Hem);
    destruct (Hsh I) as (scheduled & body & E1 & E2 & E3);
    destruct Hph as (_ & Hrf & _); rewrite E1 in Hrf;
    exists scheduled, body;
    destruct (bodyEvent_counts _ _ _ E3) as [B1 B2]; auto 10.
Qed.

Lemma event_stream_shape_witness :
  let s := this (exec (Sample.running (Some "sess") [Sample.check1]
                         ++ [TimerFired 0; Completed]) Sample.fresh) in
  exists scheduled body,
    emitted s = RUN_STARTED scheduled (testSessionId s) :: body
    /\ checks s = newChecksMap scheduled.
Proof.
  intros s.
  pose proof (event_stream_shape "acc" 300 false
                (Sample.running (Some "sess") [Sample.check1]
                   ++ [TimerFired 0; Completed])) as H.
  cbv zeta in H.
  assert (Ep : phase (exec (Sample.running (Some "sess") [Sample.check1]
                              ++ [TimerFired 0; Completed])
                        (start (constructor "acc" 300 false)))
               = Closing true) by (vm_compute; reflexivity).
  rewrite Ep in H. destruct H as (scheduled & body & E1 & E2 & _).
  exists scheduled, body. split; [exact E1|exact E2].
Defined.

(** ** After the run has finished *)

Lemma run_finished_phase w :
  invariant w -> 0 < countEvents isRunFinished (emitted (this w)) ->
  (phase w = Closing true \/ phase w = Ended true)
  /\ exists c, completion (this w) = Some c /\ resolved c = true.
Proof.
  intros Hinv Hrun. pose proof (inv_phase _ Hinv) as Hph.
  unfold phase_ok in Hph.
  destruct (phase w) as [| | | | |[|]|[|]];
    try (destruct Hph as (Hc & _); split; [auto|exact Hc]);
    exfalso.
  1-4: destruct Hph as (_ & He & _); rewrite He in Hrun; cbn in Hrun; lia.
  1: destruct Hph as (_ & He & _); lia.
  1-2: destruct Hph as (_ & (e & He) & _);
       rewrite He in Hrun; cbn in Hrun; lia.
Qed.

Lemma resolved_all_terminal s c :
  stream_ok s -> completion_ok s ->
  completion s = Some c -> resolved c = true ->
  forall id, is_Some (checks s !! id) -> id ∈ terminals (emitted s).
Proof.
  intros Hstr Hcomp Hc Hr.
  destruct (completion_counts s c Hcomp Hstr Hc) as (Hn & Hiff).
  apply Hiff in Hr. destruct Hstr as [H1 H2 H3 H4].
  rewrite (paired_counts _ H1), Hn in Hr.
  apply NoDup_covers; assumption.
Qed.

(** Once ["run-finished"] is out, [run] has left its [try] through the
    normal path and nothing of the batch is left: no timeout entry, no
    check timer and no task in flight, so the missing call of
    [disableAllTimeouts] on this path loses nothing.  The one thing that
    may still be pending is the scheduling-delay timer, which [run] does
    not cancel: whatever happens afterwards emits nothing, except that
    timer, which emits ["scheduling-delay-exceeded"] after
    ["run-finished"]. *)
Theorem success_end_state (accountId : string) (seconds : Z)
  (verbose : bool) (ls : list Label) :
  let w := exec ls (start (constructor accountId seconds verbose)) in
  0 < countEvents isRunFinished (emitted (this w)) ->
  (phase w = Closing true \/ phase w = Ended true)
  /\ timeouts (this w) = ∅
  /\ current w = None
  /\ (forall h cb ms,
        timers (this w) !! h = Some (cb, ms) -> cb = SchedulingDelayExceeded)
  /\ (forall l w',
        step l w = Some w' ->
        emitted (this w') = emitted (this w)
        \/ (exists t ms,
              l = TimerFired t
              /\ timers (this w) !! t = Some (SchedulingDelayExceeded, ms)
              /\ emitted (this w')
                 = (emitted (this w) ++ [MAX_SCHEDULING_DELAY_EXCEEDED])%list)).
Proof.
  intros w Hrun.
  pose proof (invariant_reachable accountId seconds verbose ls) as Hinv.
  fold w in Hinv.
  destruct (run_finished_phase w Hinv Hrun) as (Hphase & c & Hc & Hr).
  pose proof (inv_registry _ Hinv) as Hreg.
  pose proof (inv_stream _ Hinv) as Hstr.
  pose proof (resolved_all_terminal _ c Hstr (inv_completion _ Hinv) Hc Hr)
    as Hall.
  assert (Hto : timeouts (this w) = ∅).
  { apply map_empty. intros id.
    destruct (timeouts (this w) !! id) as [h|] eqn:E; [|reflexivity].
    destruct (reg_armed _ Hreg _ _ E) as (entry & Hentry & _).
    assert (Hin : id ∈ terminals (emitted (this w))) by (apply Hall; eauto).
    pose proof (str_resolved _ Hstr _ Hin). congruence. }
  assert (Hcur : current w = None).
  { pose proof (inv_current _ Hinv) as Hk. unfold current_ok in Hk.
    destruct (current w) as [[x k]|]; [|reflexivity].
    destruct Hk as (id & entry & Hentry & _ & Hnew & _).
    exfalso. apply Hnew, Hall. eauto. }
  assert (Htm : forall h cb ms,
             timers (this w) !! h = Some (cb, ms) ->
             cb = SchedulingDelayExceeded).
  { intros h [id x|] ms Ht; [|reflexivity].
    pose proof (reg_owned _ Hreg _ _ _ _ Ht) as Hid.
    rewrite Hto, lookup_empty in Hid. discriminate Hid. }
  split; [exact Hphase|]. split; [exact Hto|]. split; [exact Hcur|].
  split; [exact Htm|].
  intros l w' Hstep. destruct l.
  1-8: unfold step in Hstep;
       destruct Hphase as [Ep|Ep]; rewrite Ep in Hstep; discriminate Hstep.
  - left. unfold step in Hstep.
    destruct (phase w); try discriminate Hstep.
    injection Hstep as <-. reflexivity.
  - left. rewrite step_Message in Hstep.
    destruct (listenerInstalled (phase w)); [|discriminate Hstep].
    injection Hstep as <-.
    destruct (onMessage_frame topic message (this w)) as (q & E & _).
    cbn [this set_this]. rewrite E. reflexivity.
  - left. rewrite step_QueueNext in Hstep. rewrite Hcur in Hstep.
    destruct (isPaused (queue (this w))); [discriminate Hstep|].
    destruct (pending (queue (this w))) as [|[id subtopic message] rest];
      [discriminate Hstep|].
    injection Hstep as <-.
    cbn [task_checkRunId task_subtopic task_message].
    rewrite processMessage_skip; [reflexivity|].
    left. cbn [timeouts set_queue]. rewrite Hto. apply lookup_empty.
  - rewrite step_Settled, Hcur in Hstep. discriminate Hstep.
  - right. rewrite step_TimerFired in Hstep.
    destruct (timers (this w) !! t) as [[cb ms]|] eqn:Et; [|discriminate Hstep].
    injection Hstep as <-. pose proof (Htm _ _ _ Et) as Ecb. subst cb.
    exists t, ms. split; [reflexivity|]. split; [exact Et|].
    cbn [this set_this fire]. unfold schedulingDelayCallback.
    cbn [emitted set_schedulingDelayExceededTimeout].
    rewrite emitted_emit. reflexivity.
Qed.

Lemma success_end_state_witness :
  let w := exec (Sample.running None [Sample.check1]
                   ++ [TimerFired 0; Completed]) Sample.fresh in
  0 < countEvents isRunFinished (emitted (this w))
  /\ timeouts (this w) = ∅ /\ current w = None.
Proof.
  intros w. split; [vm_compute; lia|].
  destruct (success_end_state "acc" 300 false
              (Sample.running None [Sample.check1]
                 ++ [TimerFired 0; Completed]))
    as (_ & H2 & H3 & _); [vm_compute; lia|].
  split; [exact H2|exact H3].
Defined.

(** ** Starting the queue *)


